(** * Voice task manager backend: recurrence, task model, store and handlers

    A shallow embedding of [src/components/backend_api.py] and the
    properties of its specification.  Python values are modelled as
    follows.

    - [int] is [Z]; [str] is [string] (characters are the code points
      0..255); [Optional[T]] is [option T]; [List[T]] is [list T].
    - A [datetime] is its calendar date, the time of day in microseconds
      and its UTC offset in microseconds; the due dates are timezone-aware
      values, as [Task.parse_datetime] produces them.  The two timestamps
      [created_at] and [updated_at] do not pass through that validator and
      may be naive: they are [timestamp] values, whose offset may be
      missing.
    - A raised exception is the [Raise] case of [result]; handlers that
      touch the module globals ([task_cache], the backing file) run in a
      monad [M] that reads an environment [Env] (clock and identifier
      generator) and threads a [State], which a raised exception leaves
      as it is at that point.
    - The list objects handed out by [load_tasks] live in a heap indexed
      by references, so that the aliasing between [task_cache["data"]]
      and the value returned to the caller is explicit. *)

From Stdlib Require Import Ascii String DecimalString.
From stdpp Require Import base numbers list sorting strings gmap.

Local Open Scope Z_scope.

(** ** Exceptions *)

Inductive exn :=
  | ValueError
  | OverflowError
  | TypeError
  | AttributeError
  | ValidationError
  | HTTPException (status_code : Z).

Inductive result (A : Type) :=
  | Ok (a : A)
  | Raise (e : exn).
Arguments Ok {A} a.
Arguments Raise {A} e.

Definition rbind {A B} (r : result A) (k : A → result B) : result B :=
  match r with
  | Ok a => k a
  | Raise e => Raise e
  end.

Notation "'try!' x ← r ; k" := (rbind r (λ x, k))
  (at level 100, x name, r at next level, k at level 200, right associativity).

(** ** The proleptic Gregorian calendar of Python's [datetime] module *)

Definition MINYEAR : Z := 1.
Definition MAXYEAR : Z := 9999.
Definition MAXORDINAL : Z := 3652059.

Definition DI400Y : Z := 146097.
Definition DI100Y : Z := 36524.
Definition DI4Y : Z := 1461.

Definition is_leap (year : Z) : bool :=
  (year mod 4 =? 0) && (negb (year mod 100 =? 0) || (year mod 400 =? 0)).

Definition DAYS_IN_MONTH (month : Z) : Z :=
  match month with
  | 1 => 31 | 2 => 28 | 3 => 31 | 4 => 30 | 5 => 31 | 6 => 30
  | 7 => 31 | 8 => 31 | 9 => 30 | 10 => 31 | 11 => 30 | 12 => 31
  | _ => -1
  end.

Definition DAYS_BEFORE_MONTH (month : Z) : Z :=
  match month with
  | 1 => 0 | 2 => 31 | 3 => 59 | 4 => 90 | 5 => 120 | 6 => 151
  | 7 => 181 | 8 => 212 | 9 => 243 | 10 => 273 | 11 => 304 | 12 => 334
  | _ => -1
  end.

Definition days_before_year (year : Z) : Z :=
  let y := year - 1 in
  y * 365 + y / 4 - y / 100 + y / 400.

Definition days_in_month (year month : Z) : Z :=
  if (month =? 2) && is_leap year then 29 else DAYS_IN_MONTH month.

Definition days_before_month (year month : Z) : Z :=
  DAYS_BEFORE_MONTH month + (if (2 <? month) && is_leap year then 1 else 0).

Record date := mkdate { year : Z; month : Z; day : Z }.

Definition ymd2ord (d : date) : Z :=
  days_before_year (year d) + days_before_month (year d) (month d) + day d.

(** The tail of [_ord2ymd]: month and day of the [n]-th day (from 0) of a
    year, estimated by [(n + 50) >> 5] and corrected downwards. *)
Definition month_day_of (leapyear : bool) (n : Z) : Z * Z :=
  let month := Z.shiftr (n + 50) 5 in
  let preceding :=
    DAYS_BEFORE_MONTH month + (if (2 <? month) && leapyear then 1 else 0) in
  if n <? preceding then
    let month := month - 1 in
    let preceding :=
      preceding - (DAYS_IN_MONTH month
                   + (if (month =? 2) && leapyear then 1 else 0)) in
    (month, n - preceding + 1)
  else (month, n - preceding + 1).

Definition ord2ymd (n0 : Z) : date :=
  let n := n0 - 1 in
  let n400 := n / DI400Y in
  let n := n mod DI400Y in
  let n100 := n / DI100Y in
  let n := n mod DI100Y in
  let n4 := n / DI4Y in
  let n := n mod DI4Y in
  let n1 := n / 365 in
  let n := n mod 365 in
  let year := n400 * 400 + 1 + n100 * 100 + n4 * 4 + n1 in
  if (n1 =? 4) || (n100 =? 4) then mkdate (year - 1) 12 31
  else
    let leapyear := (n1 =? 3) && (negb (n4 =? 24) || (n100 =? 3)) in
    let '(month, day) := month_day_of leapyear n in
    mkdate year month day.

Definition valid_date (d : date) : Prop :=
  MINYEAR ≤ year d ≤ MAXYEAR ∧ 1 ≤ month d ≤ 12
  ∧ 1 ≤ day d ≤ days_in_month (year d) (month d).

Definition valid_dateb (d : date) : bool :=
  (MINYEAR <=? year d) && (year d <=? MAXYEAR)
  && (1 <=? month d) && (month d <=? 12)
  && (1 <=? day d) && (day d <=? days_in_month (year d) (month d)).

(** [date + timedelta(days=n)]: [OverflowError] outside year 1..9999. *)
Definition date_add_days (d : date) (n : Z) : result date :=
  let o := ymd2ord d + n in
  if (0 <? o) && (o <=? MAXORDINAL) then Ok (ord2ymd o)
  else Raise OverflowError.

(** [date.weekday()], Monday is 0. *)
Definition date_weekday (d : date) : Z := (ymd2ord d + 6) mod 7.

(** [date.replace(day=...)]: [ValueError] when the day is not in the month. *)
Definition date_replace_day (d : date) (new_day : Z) : result date :=
  if (1 <=? new_day) && (new_day <=? days_in_month (year d) (month d))
  then Ok (mkdate (year d) (month d) new_day)
  else Raise ValueError.

(** Comparison of dates is that of the triples (year, month, day). *)
Definition date_ltb (a b : date) : bool :=
  (year a <? year b)
  || ((year a =? year b)
      && ((month a <? month b)
          || ((month a =? month b) && (day a <? day b)))).

Definition date_eqb (a b : date) : bool :=
  (year a =? year b) && (month a =? month b) && (day a =? day b).

Definition date_leb (a b : date) : bool := date_ltb a b || date_eqb a b.

(** [dateutil.relativedelta(years=..., months=...)] added to a date.  The
    constructor folds whole dozens of months into years; the addition
    then moves year and month and clamps the day to the target month. *)
Definition relativedelta_fix (years months : Z) : Z * Z :=
  if 11 <? Z.abs months then
    let s := Z.sgn months in
    (years + (months * s / 12) * s, (months * s mod 12) * s)
  else (years, months).

Definition date_add_relativedelta (d : date) (years months : Z) : result date :=
  let '(years, months) := relativedelta_fix years months in
  let y := year d + years in
  let m := month d + months in
  let '(y, m) :=
    if months =? 0 then (y, month d)
    else if 12 <? m then (y + 1, m - 12)
    else if m <? 1 then (y - 1, m + 12)
    else (y, m) in
  let dd := Z.min (days_in_month y m) (day d) in
  if (MINYEAR <=? y) && (y <=? MAXYEAR) then Ok (mkdate y m dd)
  else Raise ValueError.

(** ** Timezone-aware datetimes *)

Record datetime := mkdatetime {
  dt_date : date;
  dt_time : Z;        (* microseconds since local midnight *)
  dt_utcoffset : Z    (* microseconds east of UTC *)
}.

Definition US_PER_DAY : Z := 86400000000.

Definition set_date (dt : datetime) (d : date) : datetime :=
  mkdatetime d (dt_time dt) (dt_utcoffset dt).

(** The instant of an aware datetime, in microseconds; [a < b] on aware
    datetimes compares these. *)
Definition instant (dt : datetime) : Z :=
  ymd2ord (dt_date dt) * US_PER_DAY + dt_time dt - dt_utcoffset dt.

Definition datetime_ltb (a b : datetime) : bool := instant a <? instant b.

Definition datetime_weekday (dt : datetime) : Z := date_weekday (dt_date dt).

Definition datetime_add_days (dt : datetime) (n : Z) : result datetime :=
  try! d ← date_add_days (dt_date dt) n; Ok (set_date dt d).

Definition datetime_add_relativedelta (dt : datetime) (years months : Z)
  : result datetime :=
  try! d ← date_add_relativedelta (dt_date dt) years months; Ok (set_date dt d).

Definition datetime_replace_day (dt : datetime) (new_day : Z) : result datetime :=
  try! d ← date_replace_day (dt_date dt) new_day; Ok (set_date dt d).

(** [datetime.fromtimestamp(us / 1e6, timezone.utc)] for a clock reading
    in microseconds since 1970-01-01T00:00:00Z (ordinal 719163). *)
Definition datetime_of_epoch (us : Z) : datetime :=
  mkdatetime (ord2ymd (us / US_PER_DAY + 719163)) (us mod US_PER_DAY) 0.

(** ** Frequency and the recurrence calculator *)

Record Frequency := mkFrequency {
  type : string;
  interval : Z;
  days_of_week : option (list Z);
  day_of_month : option Z
}.

(** Truthiness of [frequency.days_of_week] and [frequency.day_of_month]. *)
Definition truthy_list {A} (o : option (list A)) : bool :=
  match o with
  | Some (_ :: _) => true
  | _ => false
  end.

Definition truthy_int (o : option Z) : bool :=
  match o with
  | Some n => negb (n =? 0)
  | None => false
  end.

Definition sorted (l : list Z) : list Z := merge_sort Z.le l.

Definition calculate_next_due_date (current_due : datetime) (frequency : Frequency)
  : result datetime :=
  if String.eqb (type frequency) "daily" then
    datetime_add_days current_due (interval frequency)
  else if String.eqb (type frequency) "weekly" then
    if truthy_list (days_of_week frequency) then
      let current_weekday := datetime_weekday current_due in
      let target_days := sorted (default [] (days_of_week frequency)) in
      let next_day := find (λ day, current_weekday <? day) target_days in
      let days_ahead :=
        match next_day with
        | None => (7 - current_weekday) + default 0 (head target_days)
        | Some next_day => next_day - current_weekday
        end in
      datetime_add_days current_due days_ahead
    else datetime_add_days current_due (7 * interval frequency)
  else if String.eqb (type frequency) "monthly" then
    try! next_date ← datetime_add_relativedelta current_due 0 (interval frequency);
    if truthy_int (day_of_month frequency) then
      match datetime_replace_day next_date (default 0 (day_of_month frequency)) with
      | Ok next_date => Ok next_date
      | Raise ValueError =>
          try! next_month ← datetime_add_relativedelta next_date 0 1;
          try! first ← datetime_replace_day next_month 1;
          try! before ← datetime_add_days first (-1);
          let last_day := day (dt_date before) in
          datetime_replace_day next_date last_day
      | Raise e => Raise e
      end
    else Ok next_date
  else if String.eqb (type frequency) "yearly" then
    datetime_add_relativedelta current_due (interval frequency) 0
  else Raise ValueError.

(** ** Strings *)

Definition ord (c : ascii) : Z := Z.of_nat (nat_of_ascii c).

Definition len (s : string) : Z := Z.of_nat (String.length s).

Fixpoint str_filter (f : ascii → bool) (s : string) : string :=
  match s with
  | EmptyString => EmptyString
  | String c s' => if f c then String c (str_filter f s') else str_filter f s'
  end.

Fixpoint str_map (f : ascii → ascii) (s : string) : string :=
  match s with
  | EmptyString => EmptyString
  | String c s' => String (f c) (str_map f s')
  end.

(** [s.replace(old, new)] for a non-empty [old]: occurrences are found
    from the left and do not overlap; [skip] counts the characters of the
    occurrence being replaced that are still to be dropped. *)
Fixpoint replace_from (old new : string) (skip : nat) (s : string) : string :=
  match s with
  | EmptyString => EmptyString
  | String c s' =>
      match skip with
      | S k => replace_from old new k s'
      | O =>
          if String.prefix old s
          then new +:+ replace_from old new (String.length old - 1) s'
          else String c (replace_from old new 0 s')
      end
  end.

Definition replace (s old new : string) : string := replace_from old new 0 s.

(** [str.isspace] on the code points 0..255. *)
Definition isspace (c : ascii) : bool :=
  let n := ord c in
  ((9 <=? n) && (n <=? 13)) || ((28 <=? n) && (n <=? 32))
  || (n =? 133) || (n =? 160).

Fixpoint lstrip (s : string) : string :=
  match s with
  | EmptyString => EmptyString
  | String c s' => if isspace c then lstrip s' else s
  end.

Fixpoint rstrip (s : string) : string :=
  match s with
  | EmptyString => EmptyString
  | String c s' =>
      match rstrip s' with
      | EmptyString => if isspace c then EmptyString else String c EmptyString
      | r => String c r
      end
  end.

Definition strip (s : string) : string := rstrip (lstrip s).

(** [str.isalnum] on the code points 0..255. *)
Definition isalnum (c : ascii) : bool :=
  let n := ord c in
  ((48 <=? n) && (n <=? 57)) || ((65 <=? n) && (n <=? 90))
  || ((97 <=? n) && (n <=? 122))
  || (n =? 170) || (n =? 178) || (n =? 179) || (n =? 181) || (n =? 185)
  || (n =? 186) || ((188 <=? n) && (n <=? 190))
  || ((192 <=? n) && (n <=? 214)) || ((216 <=? n) && (n <=? 246))
  || (248 <=? n).

(** [str.lower] on the code points 0..255. *)
Definition lower_char (c : ascii) : ascii :=
  let n := ord c in
  if ((65 <=? n) && (n <=? 90)) || ((192 <=? n) && (n <=? 214))
     || ((216 <=? n) && (n <=? 222))
  then ascii_of_nat (nat_of_ascii c + 32) else c.

Definition lower (s : string) : string := str_map lower_char s.

Definition truthy_str (s : string) : bool := negb (String.eqb s "").

Definition LF : ascii := ascii_of_nat 10.
Definition TAB : ascii := ascii_of_nat 9.

(** ** The pydantic models *)

(** A [datetime] that may be naive, for [created_at] and [updated_at]. *)
Record timestamp := mktimestamp {
  ts_date : date;
  ts_time : Z;                 (* microseconds since local midnight *)
  ts_utcoffset : option Z      (* [None]: a naive datetime *)
}.

Definition aware (dt : datetime) : timestamp :=
  mktimestamp (dt_date dt) (dt_time dt) (Some (dt_utcoffset dt)).

Record Reminder := mkReminder {
  reminder_id : string;
  time_before : Z;
  message : option string;
  sent : bool
}.

Record Task := mkTask {
  task_id : string;
  description : string;
  category : string;
  due_date : datetime;
  completed : bool;
  completed_at : option datetime;
  frequency : option Frequency;
  next_due_date : option datetime;
  reminders : list Reminder;
  created_at : timestamp;
  updated_at : timestamp
}.

Record TaskCreate := mkTaskCreate {
  tc_description : string;
  tc_category : string;
  tc_due_date : datetime;
  tc_frequency : option Frequency;
  tc_reminders : list Reminder
}.

Record TaskUpdate := mkTaskUpdate {
  tu_description : option string;
  tu_category : option string;
  tu_due_date : option datetime;
  tu_frequency : option Frequency;
  tu_reminders : option (list Reminder)
}.

Record CompleteTaskRequest := mkCompleteTaskRequest { auto_reschedule : bool }.

Record ImportSummary := mkImportSummary {
  success_count : Z;
  skipped_count : Z;
  invalid_count : Z;
  errors : list (Z * exn)    (* "Item <n>: <exception>" *)
}.

(** *** Values passed to the model constructors

    A keyword argument of [Task(...)], [Frequency(...)] or [Reminder(...)]
    is either decoded JSON or an object built earlier.  [None] in an
    [option] stands for an absent key.  An ISO-8601 text is represented
    by what [datetime.fromisoformat] makes of it once a trailing [Z] has
    been rewritten to [+00:00]: [None] when it raises [ValueError], else
    the fields read, where the offset may be missing. *)

Record iso_fields := mkiso {
  iso_date : date;
  iso_time : Z;
  iso_tzinfo : option Z
}.

Inductive datetime_value :=
  | IsoText (decoded : option iso_fields)
  | DatetimeObject (dt : datetime).

(** A text given for [created_at] or [updated_at] goes to the datetime
    parser of pydantic itself, not to [datetime.fromisoformat]: it is
    represented by what that parser makes of it, [None] when it refuses
    the text (it wants a date and a time, and refuses a date alone),
    else the datetime read, which stays naive when the text has no
    offset. *)
Inductive timestamp_value :=
  | TimestampText (parsed : option timestamp).

Record FrequencyDict := mkFrequencyDict {
  fd_type : option string;
  fd_interval : option Z;
  fd_days_of_week : option (list Z);
  fd_day_of_month : option Z
}.

Inductive frequency_value :=
  | FrequencyOfDict (d : FrequencyDict)
  | FrequencyObject (f : Frequency).

Record ReminderDict := mkReminderDict {
  rd_id : option string;
  rd_time_before : option Z;
  rd_message : option string;
  rd_sent : option bool
}.

Inductive reminder_value :=
  | ReminderOfDict (d : ReminderDict)
  | ReminderObject (r : Reminder).

Record TaskDict := mkTaskDict {
  td_id : option string;
  td_description : option string;
  td_category : option string;
  td_due_date : option datetime_value;
  td_completed : option bool;
  td_completed_at : option datetime_value;
  td_frequency : option frequency_value;
  td_next_due_date : option datetime_value;
  td_reminders : option (list reminder_value);
  td_created_at : option timestamp_value;
  td_updated_at : option timestamp_value
}.

(** An element of a decoded JSON array: an object, or anything else. *)
Inductive Item :=
  | ItemDict (d : TaskDict)
  | ItemOther.

(** ** Field validation *)

(** [Task.sanitize_description]. *)
Definition sanitize_description (v : string) : result string :=
  if negb (truthy_str v) then Raise ValueError
  else
    let sanitized :=
      str_filter (λ char, (32 <=? ord char) || Ascii.eqb char LF
                          || Ascii.eqb char TAB) v in
    let sanitized :=
      replace (replace sanitized "<script" "&lt;script")
              "</script>" "&lt;/script&gt;" in
    Ok (strip sanitized).

(** [Task.sanitize_category]. *)
Definition sanitize_category (v : string) : string :=
  let sanitized :=
    str_filter (λ char, isalnum char || Ascii.eqb char "_" || Ascii.eqb char "-"
                        || Ascii.eqb char "." || Ascii.eqb char " ") v in
  let stripped := strip sanitized in
  if truthy_str stripped then stripped else "general".

(** Any failure while a model validates a field is reported by pydantic
    as a [ValidationError]. *)
Definition as_validation {A} (r : result A) : result A :=
  match r with
  | Ok a => Ok a
  | Raise _ => Raise ValidationError
  end.

(** The field [description: str = Field(..., min_length=1, max_length=500)]
    with its validator: the length constraints of the field are checked on
    the value received, then [sanitize_description] runs on it. *)
Definition validate_description (v : string) : result string :=
  if len v <? 1 then Raise ValidationError
  else if 500 <? len v then Raise ValidationError
  else as_validation (sanitize_description v).

(** The field [category: str = Field(default="general", max_length=50)]
    with its validator. *)
Definition validate_category (v : string) : result string :=
  if 50 <? len v then Raise ValidationError
  else Ok (sanitize_category v).

(** [Task.parse_datetime], the pre-validator of the datetime fields. *)
Definition parse_datetime (v : datetime_value) : result datetime :=
  match v with
  | IsoText None => Raise ValueError
  | IsoText (Some f) =>
      Ok (mkdatetime (iso_date f) (iso_time f) (default 0 (iso_tzinfo f)))
  | DatetimeObject dt => Ok dt
  end.

(** The fields [created_at] and [updated_at], which have no validator of
    their own: the text is what pydantic's parser makes of it. *)
Definition parse_timestamp (v : timestamp_value) : result timestamp :=
  match v with
  | TimestampText None => Raise ValueError
  | TimestampText (Some ts) => Ok ts
  end.

(** [re.match("^(daily|weekly|monthly|yearly)$", v)]: [$] also matches
    just before a final line feed. *)
Definition type_regex_match (v : string) : bool :=
  let alternatives := ["daily"; "weekly"; "monthly"; "yearly"] in
  existsb (λ a, String.eqb v a || String.eqb v (a +:+ String LF "")) alternatives.

(** The constructor of [Frequency] on a keyword dictionary; an object that
    is already a [Frequency] is taken as it is. *)
Definition Frequency_init (v : frequency_value) : result Frequency :=
  match v with
  | FrequencyObject f => Ok f
  | FrequencyOfDict d =>
      match fd_type d with
      | None => Raise ValidationError
      | Some ty =>
          let iv := default 1 (fd_interval d) in
          if negb (type_regex_match ty) then Raise ValidationError
          else if (iv <? 1) || (365 <? iv) then Raise ValidationError
          else
            match fd_day_of_month d with
            | Some dom =>
                if (dom <? 1) || (31 <? dom) then Raise ValidationError
                else Ok (mkFrequency ty iv (fd_days_of_week d) (Some dom))
            | None => Ok (mkFrequency ty iv (fd_days_of_week d) None)
            end
      end
  end.

(** ** The world: clock, identifiers, backing file, cache and heap *)

(** What the program reads from outside: the successive readings of the
    system clock, in microseconds since the epoch, and the successive
    results of [uuid.uuid4()]. *)
Record Env := mkEnv {
  clock : nat → Z;
  uuid4 : nat → string
}.

(** The content of [public/data/tasks.json] once decoded.  [load_tasks]
    iterates over whatever [json.load] returns: over the elements of an
    array, over the keys of an object and over the characters of a
    string, each key or character being a [str], which is not a record.
    A number, a boolean or [null] cannot be iterated, and a text that is
    not JSON is not decoded: both are [DocMalformed]. *)
Inductive Document :=
  | DocArray (items : list Item)
  | DocObject (keys : list string)
  | DocString (text : string)
  | DocMalformed.

Definition iterate (doc : Document) : option (list Item) :=
  match doc with
  | DocArray items => Some items
  | DocObject keys => Some (replicate (length keys) ItemOther)
  | DocString text => Some (replicate (String.length text) ItemOther)
  | DocMalformed => None
  end.

Record State := mkState {
  ticks : nat;                  (* clock readings taken so far *)
  uuids_drawn : nat;            (* identifiers generated so far *)
  file : option Document;       (* [None]: the file does not exist *)
  writable : bool;              (* whether writing the file succeeds *)
  cache_data : option nat;      (* [task_cache["data"]], a list reference *)
  cache_expires_at : Z;         (* [task_cache["expires_at"]] *)
  heap : list (list Task);      (* the list objects, by reference *)
  reads : nat;                  (* times the file has been read *)
  writes : nat                  (* times the file has been replaced *)
}.

Definition M (A : Type) : Type := Env → State → result A * State.

Definition ret {A} (a : A) : M A := λ _ s, (Ok a, s).

Definition bind {A B} (m : M A) (k : A → M B) : M B :=
  λ e s,
    match m e s with
    | (Ok a, s') => k a e s'
    | (Raise x, s') => (Raise x, s')
    end.

Definition raise {A} (x : exn) : M A := λ _ s, (Raise x, s).

Definition lift {A} (r : result A) : M A := λ _ s, (r, s).

(** [try: m except Exception: ...] seen from outside: the outcome of [m]
    as a value. *)
Definition attempt {A} (m : M A) : M (result A) :=
  λ e s, let '(r, s') := m e s in (Ok r, s').

Notation "'do!' x ← m ; k" := (bind m (λ x, k))
  (at level 100, x name, m at next level, k at level 200, right associativity).

Fixpoint mapM {A B} (f : A → M B) (l : list A) : M (list B) :=
  match l with
  | [] => ret []
  | x :: l' => do! y ← f x; do! ys ← mapM f l'; ret (y :: ys)
  end.

Definition get : M State := λ _ s, (Ok s, s).
Definition modify (f : State → State) : M unit := λ _ s, (Ok tt, f s).

Definition set_ticks (n : nat) (s : State) : State :=
  mkState n (uuids_drawn s) (file s) (writable s) (cache_data s)
          (cache_expires_at s) (heap s) (reads s) (writes s).
Definition set_uuids_drawn (n : nat) (s : State) : State :=
  mkState (ticks s) n (file s) (writable s) (cache_data s)
          (cache_expires_at s) (heap s) (reads s) (writes s).
Definition set_file (f : option Document) (s : State) : State :=
  mkState (ticks s) (uuids_drawn s) f (writable s) (cache_data s)
          (cache_expires_at s) (heap s) (reads s) (writes s).
Definition set_cache (d : option nat) (expires : Z) (s : State) : State :=
  mkState (ticks s) (uuids_drawn s) (file s) (writable s) d
          expires (heap s) (reads s) (writes s).
Definition set_heap (h : list (list Task)) (s : State) : State :=
  mkState (ticks s) (uuids_drawn s) (file s) (writable s) (cache_data s)
          (cache_expires_at s) h (reads s) (writes s).
Definition set_reads (n : nat) (s : State) : State :=
  mkState (ticks s) (uuids_drawn s) (file s) (writable s) (cache_data s)
          (cache_expires_at s) (heap s) n (writes s).
Definition set_writes (n : nat) (s : State) : State :=
  mkState (ticks s) (uuids_drawn s) (file s) (writable s) (cache_data s)
          (cache_expires_at s) (heap s) (reads s) n.

(** [time.time()], in microseconds. *)
Definition time_time : M Z :=
  λ e s, (Ok (clock e (ticks s)), set_ticks (S (ticks s)) s).

(** [datetime.now(timezone.utc)]. *)
Definition datetime_now : M datetime :=
  do! us ← time_time; ret (datetime_of_epoch us).

(** The default of [created_at] and [updated_at]: the aware datetime
    [datetime.now(timezone.utc)]. *)
Definition timestamp_now : M timestamp :=
  do! now ← datetime_now; ret (aware now).

(** [str(uuid.uuid4())]. *)
Definition new_uuid : M string :=
  λ e s, (Ok (uuid4 e (uuids_drawn s)), set_uuids_drawn (S (uuids_drawn s)) s).

(** List objects: allocation, reading, [l.append(x)] and [l[i] = x]. *)
Definition new_list (l : list Task) : M nat :=
  λ _ s, (Ok (length (heap s)), set_heap (heap s ++ [l]) s).

Definition read_list (r : nat) : M (list Task) :=
  λ _ s, (Ok (default [] (heap s !! r)), s).

Definition write_list (r : nat) (l : list Task) : M unit :=
  modify (λ s, set_heap (<[r := l]> (heap s)) s).

Definition append (r : nat) (t : Task) : M unit :=
  do! l ← read_list r; write_list r (l ++ [t]).

(** ** Model constructors *)

Fixpoint sequence_results {A} (l : list (result A)) : result (list A) :=
  match l with
  | [] => Ok []
  | r :: l' => try! a ← r; try! l'' ← sequence_results l'; Ok (a :: l'')
  end.

(** The constructor of [Reminder] on a keyword dictionary; an object that
    is already a [Reminder] is taken as it is. *)
Definition Reminder_init (v : reminder_value) : M Reminder :=
  match v with
  | ReminderObject r => ret r
  | ReminderOfDict d =>
      do! id ← match rd_id d with
               | Some id => ret id
               | None => new_uuid
               end;
      match rd_time_before d with
      | None => raise ValidationError
      | Some tb =>
          if tb <? 0 then raise ValidationError
          else ret (mkReminder id tb (rd_message d) (default false (rd_sent d)))
      end
  end.

Definition optional_datetime (v : option datetime_value) : result (option datetime) :=
  match v with
  | None => Ok None
  | Some v => try! dt ← as_validation (parse_datetime v); Ok (Some dt)
  end.

(** The constructor of [Task] on a keyword dictionary.  Every field is
    validated, in the order of declaration, whether or not an earlier one
    failed: a missing field with a default factory draws its default, and
    the construction fails as a whole if any field failed. *)
Definition Task_init (d : TaskDict) : M Task :=
  do! id ← match td_id d with
           | Some id => ret id
           | None => new_uuid
           end;
  let r_description :=
    match td_description d with
    | None => Raise ValidationError
    | Some v => validate_description v
    end in
  let r_category :=
    match td_category d with
    | None => Ok "general"
    | Some v => validate_category v
    end in
  let r_due_date :=
    match td_due_date d with
    | None => Raise ValidationError
    | Some v => as_validation (parse_datetime v)
    end in
  let r_completed_at := optional_datetime (td_completed_at d) in
  let r_frequency :=
    match td_frequency d with
    | None => Ok None
    | Some v => try! f ← Frequency_init v; Ok (Some f)
    end in
  let r_next_due_date := optional_datetime (td_next_due_date d) in
  do! rs ← mapM (λ v, attempt (Reminder_init v)) (default [] (td_reminders d));
  do! r_created_at ← match td_created_at d with
                     | None => attempt timestamp_now
                     | Some v => ret (as_validation (parse_timestamp v))
                     end;
  do! r_updated_at ← match td_updated_at d with
                     | None => attempt timestamp_now
                     | Some v => ret (as_validation (parse_timestamp v))
                     end;
  lift (as_validation (
    try! description ← r_description;
    try! category ← r_category;
    try! due_date ← r_due_date;
    try! completed_at ← r_completed_at;
    try! frequency ← r_frequency;
    try! next_due_date ← r_next_due_date;
    try! reminders ← sequence_results rs;
    try! created_at ← r_created_at;
    try! updated_at ← r_updated_at;
    Ok (mkTask id description category due_date
               (default false (td_completed d)) completed_at frequency
               next_due_date reminders created_at updated_at))).

(** [Task] applied to an element of a decoded JSON array; unpacking
    something that is not an object raises [TypeError]. *)
Definition Task_of_item (item : Item) : M Task :=
  match item with
  | ItemDict d => Task_init d
  | ItemOther => raise TypeError
  end.

(** Assignments to the attributes of a task. *)
Definition set_description (v : string) (t : Task) : Task :=
  mkTask (task_id t) v (category t) (due_date t) (completed t) (completed_at t)
         (frequency t) (next_due_date t) (reminders t) (created_at t) (updated_at t).
Definition set_category (v : string) (t : Task) : Task :=
  mkTask (task_id t) (description t) v (due_date t) (completed t) (completed_at t)
         (frequency t) (next_due_date t) (reminders t) (created_at t) (updated_at t).
Definition set_due_date (v : datetime) (t : Task) : Task :=
  mkTask (task_id t) (description t) (category t) v (completed t) (completed_at t)
         (frequency t) (next_due_date t) (reminders t) (created_at t) (updated_at t).
Definition set_completed (v : bool) (t : Task) : Task :=
  mkTask (task_id t) (description t) (category t) (due_date t) v (completed_at t)
         (frequency t) (next_due_date t) (reminders t) (created_at t) (updated_at t).
Definition set_completed_at (v : option datetime) (t : Task) : Task :=
  mkTask (task_id t) (description t) (category t) (due_date t) (completed t) v
         (frequency t) (next_due_date t) (reminders t) (created_at t) (updated_at t).
Definition set_frequency (v : option Frequency) (t : Task) : Task :=
  mkTask (task_id t) (description t) (category t) (due_date t) (completed t)
         (completed_at t) v (next_due_date t) (reminders t) (created_at t)
         (updated_at t).
Definition set_next_due_date (v : option datetime) (t : Task) : Task :=
  mkTask (task_id t) (description t) (category t) (due_date t) (completed t)
         (completed_at t) (frequency t) v (reminders t) (created_at t)
         (updated_at t).
Definition set_reminders (v : list Reminder) (t : Task) : Task :=
  mkTask (task_id t) (description t) (category t) (due_date t) (completed t)
         (completed_at t) (frequency t) (next_due_date t) v (created_at t)
         (updated_at t).
Definition set_updated_at (v : datetime) (t : Task) : Task :=
  mkTask (task_id t) (description t) (category t) (due_date t) (completed t)
         (completed_at t) (frequency t) (next_due_date t) (reminders t)
         (created_at t) (aware v).

(** ** The persistence store *)

Definition CACHE_EXPIRATION : Z := 10.  (* seconds *)
Definition MAX_UPLOAD_SIZE : Z := 10 * 1024 * 1024.
Definition US_PER_SECOND : Z := 1000000.

(** Truthiness of [task_cache["data"]]: a reference to a non-empty list. *)
Definition cache_truthy (s : State) : bool :=
  match cache_data s with
  | Some r =>
      match heap s !! r with
      | Some (_ :: _) => true
      | _ => false
      end
  | None => false
  end.

(** The loop of [load_tasks] over the decoded array: a record that fails
    validation is skipped with a warning.  The warning reads
    [item.get('id', 'unknown')], so an element that is not an object
    raises [AttributeError] out of the loop. *)
Fixpoint load_items (data : list Item) : M (list Task) :=
  match data with
  | [] => ret []
  | item :: data' =>
      do! r ← attempt (Task_of_item item);
      match r with
      | Ok task => do! tasks ← load_items data'; ret (task :: tasks)
      | Raise _ =>
          match item with
          | ItemDict _ => load_items data'
          | ItemOther => raise AttributeError
          end
      end
  end.

(** [load_tasks].  Any exception while the file is read and decoded ends
    in an empty list that is not cached. *)
Definition load_tasks : M nat :=
  do! current_time ← time_time;
  do! s ← get;
  if cache_truthy s && (current_time <? cache_expires_at s) then
    ret (default 0%nat (cache_data s))
  else
    match file s with
    | Some doc =>
        do! _ ← modify (λ s, set_reads (S (reads s)) s);
        match iterate doc with
        | Some data =>
            do! loaded ← attempt (load_items data);
            match loaded with
            | Ok tasks =>
                do! r ← new_list tasks;
                do! _ ← modify (set_cache (Some r)
                                  (current_time + CACHE_EXPIRATION * US_PER_SECOND));
                ret r
            | Raise _ => new_list []
            end
        | None => new_list []
        end
    | None => new_list []
    end.

(** [task.dict()] with the instants as ISO-8601 text, as [save_tasks]
    serializes a task. *)
Definition isoformat (dt : datetime) : datetime_value :=
  IsoText (Some (mkiso (dt_date dt) (dt_time dt) (Some (dt_utcoffset dt)))).

(** The [isoformat] text of a timestamp, as pydantic's parser reads it
    back: the parser takes an offset in hours and minutes only, so the
    text of an offset with seconds is refused. *)
Definition US_PER_MINUTE : Z := 60000000.

Definition timestamp_isoformat (ts : timestamp) : timestamp_value :=
  TimestampText
    match ts_utcoffset ts with
    | Some offset => if offset mod US_PER_MINUTE =? 0 then Some ts else None
    | None => Some ts
    end.

Definition Frequency_dict (f : Frequency) : FrequencyDict :=
  mkFrequencyDict (Some (type f)) (Some (interval f)) (days_of_week f)
                  (day_of_month f).

Definition Reminder_dict (r : Reminder) : ReminderDict :=
  mkReminderDict (Some (reminder_id r)) (Some (time_before r)) (message r)
                 (Some (sent r)).

Definition Task_dict (t : Task) : TaskDict :=
  mkTaskDict (Some (task_id t)) (Some (description t)) (Some (category t))
             (Some (isoformat (due_date t))) (Some (completed t))
             (isoformat <$> completed_at t)
             (FrequencyOfDict ∘ Frequency_dict <$> frequency t)
             (isoformat <$> next_due_date t)
             (Some (ReminderOfDict ∘ Reminder_dict <$> reminders t))
             (Some (timestamp_isoformat (created_at t)))
             (Some (timestamp_isoformat (updated_at t))).

(** [save_tasks]: the whole file is replaced, or nothing changes.  Only a
    successful write invalidates the cache. *)
Definition save_tasks (tasks : nat) : M bool :=
  do! l ← read_list tasks;
  do! s ← get;
  if writable s then
    do! _ ← modify (λ s, set_writes (S (writes s))
                          (set_file (Some (DocArray (ItemDict ∘ Task_dict <$> l))) s));
    do! _ ← modify (set_cache None 0);
    ret true
  else ret false.

(** ** The query engine *)

Definition is_str (o : option string) (v : string) : bool :=
  match o with
  | Some s => String.eqb s v
  | None => false
  end.

(** The slices [l[start:]] and [l[:stop]]; a negative index counts from
    the end. *)
Definition slice_from {A} (start : Z) (l : list A) : list A :=
  let n := Z.of_nat (length l) in
  let start := if start <? 0 then Z.max (n + start) 0 else Z.min start n in
  drop (Z.to_nat start) l.

Definition slice_to {A} (stop : Z) (l : list A) : list A :=
  let n := Z.of_nat (length l) in
  let stop := if stop <? 0 then Z.max (n + stop) 0 else Z.min stop n in
  take (Z.to_nat stop) l.

(** [filter_tasks]; [now] is the reading [datetime.now(timezone.utc)]
    taken once at the start of the call. *)
Definition filter_tasks (now : datetime) (tasks : list Task)
    (due_date_opt status category_opt : option string)
    (limit : option Z) (offset : Z) : result (list Task) :=
  let filtered := tasks in
  let today := dt_date now in
  try! tomorrow ← date_add_days today 1;
  let filtered :=
    if is_str due_date_opt "today" then
      List.filter (λ t, date_eqb (dt_date (due_date t)) today) filtered
    else if is_str due_date_opt "tomorrow" then
      List.filter (λ t, date_eqb (dt_date (due_date t)) tomorrow) filtered
    else filtered in
  let filtered :=
    if is_str status "due" then
      List.filter (λ t, negb (completed t)
                        && date_leb (dt_date (due_date t)) today) filtered
    else if is_str status "overdue" then
      List.filter (λ t, negb (completed t) && datetime_ltb (due_date t) now)
                  filtered
    else if is_str status "completed" then
      List.filter (λ t, completed t) filtered
    else filtered in
  let filtered :=
    match category_opt with
    | Some c =>
        if truthy_str c then
          List.filter (λ t, String.eqb (lower (category t)) (lower c)) filtered
        else filtered
    | None => filtered
    end in
  let filtered :=
    if negb (offset =? 0) then slice_from offset filtered else filtered in
  let filtered :=
    match limit with
    | Some n => if negb (n =? 0) then slice_to n filtered else filtered
    | None => filtered
    end in
  Ok filtered.

(** ** The request handlers *)

(** [except Exception: raise HTTPException(500)]. *)
Definition except_all {A} (m : M A) : M A :=
  λ e s,
    match m e s with
    | (Raise _, s') => (Raise (HTTPException 500), s')
    | ok => ok
    end.

(** [except HTTPException: raise] before
    [except Exception: raise HTTPException(500)]. *)
Definition except_internal {A} (m : M A) : M A :=
  λ e s,
    match m e s with
    | (Raise (HTTPException c), s') => (Raise (HTTPException c), s')
    | (Raise _, s') => (Raise (HTTPException 500), s')
    | ok => ok
    end.

(** [tasks[i]] and an assignment to an attribute of [tasks[i]]: the task
    object is the one held by the list. *)
Definition get_item (tasks : nat) (i : nat) : M Task :=
  do! l ← read_list tasks;
  match l !! i with
  | Some t => ret t
  | None => raise TypeError
  end.

Definition mutate (tasks : nat) (i : nat) (f : Task → Task) : M unit :=
  do! l ← read_list tasks;
  write_list tasks (alter f i l).

(** The search loop of [update_task] and [complete_task]. *)
Fixpoint find_index (task_id0 : string) (l : list Task) : option nat :=
  match l with
  | [] => None
  | t :: l' =>
      if String.eqb (task_id t) task_id0 then Some 0%nat
      else S <$> find_index task_id0 l'
  end.

(** [get_tasks]: the collection is loaded and filtered; [filter_tasks]
    takes its reading of the clock. *)
Definition get_tasks (due_date_opt status category_opt : option string)
    (limit : option Z) (offset : Z) : M (list Task) :=
  except_all (
    do! tasks ← load_tasks;
    do! l ← read_list tasks;
    do! now ← datetime_now;
    lift (filter_tasks now l due_date_opt status category_opt limit offset)).

(** [create_task].  A model instance is truthy, so
    [if new_task.frequency:] tests that the frequency is present. *)
Definition create_task (task_data : TaskCreate) : M Task :=
  except_all (
    do! tasks ← load_tasks;
    do! new_task ← Task_init
      (mkTaskDict None (Some (tc_description task_data))
                  (Some (tc_category task_data))
                  (Some (DatetimeObject (tc_due_date task_data))) None None
                  (FrequencyObject <$> tc_frequency task_data) None
                  (Some (ReminderObject <$> tc_reminders task_data)) None None);
    do! new_task ←
      match frequency new_task with
      | Some f =>
          do! next ← lift (calculate_next_due_date (due_date new_task) f);
          ret (set_next_due_date (Some next) new_task)
      | None => ret new_task
      end;
    do! _ ← append tasks new_task;
    do! saved ← save_tasks tasks;
    if saved then ret new_task else raise (HTTPException 500)).

(** [if x is not None: ...]. *)
Definition when_some {A} (o : option A) (k : A → M unit) : M unit :=
  match o with
  | Some a => k a
  | None => ret tt
  end.

(** [update_task].  The attributes are assigned one by one on the task
    held by the list, without validation.  The next due date is computed
    only in the branch of the frequency; there [if task.frequency:]
    always holds, the frequency having just been set to an instance, so
    the [else] that clears [next_due_date] is never taken. *)
Definition update_task (task_id0 : string) (task_update : TaskUpdate) : M Task :=
  except_internal (
    do! tasks ← load_tasks;
    do! l ← read_list tasks;
    match find_index task_id0 l with
    | None => raise (HTTPException 404)
    | Some i =>
        do! _ ← when_some (tu_description task_update)
                  (λ v, mutate tasks i (set_description v));
        do! _ ← when_some (tu_category task_update)
                  (λ v, mutate tasks i (set_category v));
        do! _ ← when_some (tu_due_date task_update)
                  (λ v, mutate tasks i (set_due_date v));
        do! _ ← when_some (tu_frequency task_update)
                  (λ f,
                     do! _ ← mutate tasks i (set_frequency (Some f));
                     do! task ← get_item tasks i;
                     do! next ← lift (calculate_next_due_date (due_date task) f);
                     mutate tasks i (set_next_due_date (Some next)));
        do! _ ← when_some (tu_reminders task_update)
                  (λ v, mutate tasks i (set_reminders v));
        do! now ← datetime_now;
        do! _ ← mutate tasks i (set_updated_at now);
        do! saved ← save_tasks tasks;
        if saved then get_item tasks i else raise (HTTPException 500)
    end).

(** [complete_task].  The reminders of the next occurrence are built
    before [Task] is called, each without an id; [Task] then validates
    description and category again and takes the other values as they
    are. *)
Definition complete_task (task_id0 : string) (request : CompleteTaskRequest)
  : M Task :=
  except_internal (
    do! tasks ← load_tasks;
    do! l ← read_list tasks;
    match find_index task_id0 l with
    | None => raise (HTTPException 404)
    | Some i =>
        do! _ ← mutate tasks i (set_completed true);
        do! now ← datetime_now;
        do! _ ← mutate tasks i (set_completed_at (Some now));
        do! now ← datetime_now;
        do! _ ← mutate tasks i (set_updated_at now);
        do! task ← get_item tasks i;
        do! _ ←
          match frequency task with
          | Some f =>
              if auto_reschedule request then
                do! next_due ← lift (calculate_next_due_date (due_date task) f);
                do! rs ← mapM (λ r, Reminder_init (ReminderOfDict
                                 (mkReminderDict None (Some (time_before r))
                                                 (message r) None)))
                              (reminders task);
                do! new_task ← Task_init
                  (mkTaskDict None (Some (description task))
                              (Some (category task))
                              (Some (DatetimeObject next_due)) None None
                              (Some (FrequencyObject f)) None
                              (Some (ReminderObject <$> rs)) None None);
                do! next ←
                  match frequency new_task with
                  | Some f' => lift (calculate_next_due_date (due_date new_task) f')
                  | None => raise TypeError
                  end;
                append tasks (set_next_due_date (Some next) new_task)
              else ret tt
          | None => ret tt
          end;
        do! saved ← save_tasks tasks;
        if saved then get_item tasks i else raise (HTTPException 500)
    end).

(** The uploaded file of [import_tasks]: its size in bytes and what
    [json.loads] makes of it ([None]: [JSONDecodeError]). *)
Inductive JsonValue :=
  | JsonArray (items : list Item)
  | JsonOther.

Record Upload := mkUpload {
  content_length : Z;
  content : option JsonValue
}.

(** One turn of the loop of [import_tasks], inside its [try]. *)
Inductive imported :=
  | Skipped
  | Imported (t : Task).

(** The test [isinstance(item, dict) and 'id' in item] followed by
    [item['id'] in existing_ids]. *)
Definition is_duplicate (existing_ids : gset string) (item : Item) : bool :=
  match item with
  | ItemDict d =>
      match td_id d with
      | Some id => bool_decide (id ∈ existing_ids)
      | None => false
      end
  | ItemOther => false
  end.

Definition import_item (existing_ids : gset string) (item : Item) : M imported :=
  if is_duplicate existing_ids item then ret Skipped
  else
    do! task ← Task_of_item item;
    match frequency task, next_due_date task with
    | Some f, None =>
        do! next ← lift (calculate_next_due_date (due_date task) f);
        ret (Imported (set_next_due_date (Some next) task))
    | _, _ => ret (Imported task)
    end.

Fixpoint import_loop (existing_tasks : nat) (i : Z) (import_data : list Item)
    (existing_ids : gset string) (summary : ImportSummary) : M ImportSummary :=
  match import_data with
  | [] => ret summary
  | item :: import_data' =>
      do! r ← attempt (import_item existing_ids item);
      match r with
      | Ok Skipped =>
          import_loop existing_tasks (i + 1) import_data' existing_ids
            (mkImportSummary (success_count summary) (skipped_count summary + 1)
                             (invalid_count summary) (errors summary))
      | Ok (Imported task) =>
          do! _ ← append existing_tasks task;
          import_loop existing_tasks (i + 1) import_data'
            ({[task_id task]} ∪ existing_ids)
            (mkImportSummary (success_count summary + 1) (skipped_count summary)
                             (invalid_count summary) (errors summary))
      | Raise e =>
          import_loop existing_tasks (i + 1) import_data' existing_ids
            (mkImportSummary (success_count summary) (skipped_count summary)
                             (invalid_count summary + 1)
                             (errors summary ++ [(i + 1, e)]))
      end
  end.

(** [import_tasks]; an error is recorded as the number of its entry and
    the exception raised. *)
Definition import_tasks (upload : Upload) : M ImportSummary :=
  except_internal (
    if MAX_UPLOAD_SIZE <? content_length upload then raise (HTTPException 413)
    else
      match content upload with
      | None => raise (HTTPException 400)
      | Some JsonOther => raise (HTTPException 400)
      | Some (JsonArray import_data) =>
          do! existing_tasks ← load_tasks;
          do! l ← read_list existing_tasks;
          let existing_ids : gset string := list_to_set (task_id <$> l) in
          do! summary ← import_loop existing_tasks 0 import_data existing_ids
                          (mkImportSummary 0 0 0 []);
          do! _ ←
            if 0 <? success_count summary then
              do! saved ← save_tasks existing_tasks;
              if saved then ret tt else raise (HTTPException 500)
            else ret tt;
          ret (mkImportSummary (success_count summary) (skipped_count summary)
                               (invalid_count summary)
                               (take 10 (errors summary)))
      end).

(** ** Auxiliary notions used by the statements *)

(** A date whose month and day exist, whatever the year. *)
Definition md_valid (d : date) : Prop :=
  1 ≤ month d ≤ 12 ∧ 1 ≤ day d ≤ days_in_month (year d) (month d).

(** [month_day_of] inverts the table of days before a month. *)
Definition month_day_ok (leap : bool) (n : Z) : bool :=
  let '(m, d) := month_day_of leap n in
  (1 <=? m) && (m <=? 12) && (1 <=? d)
  && (d <=? DAYS_IN_MONTH m + (if (m =? 2) && leap then 1 else 0))
  && (DAYS_BEFORE_MONTH m + (if (2 <? m) && leap then 1 else 0) + d =? n + 1).

(** ** Sample values *)

(** Thursday 4 January 2024, 09:00 UTC. *)
Definition example_thursday : datetime := mkdatetime (mkdate 2024 1 4) 32400000000 0.

(** Wednesday 31 January 2024, 09:00 UTC. *)
Definition example_january_31 : datetime :=
  mkdatetime (mkdate 2024 1 31) 32400000000 0.

(** A clock that starts on 4 January 2024 at 10:00 UTC and advances by one
    second at each reading, and identifiers [uuid-a], [uuid-b], ... *)
Definition example_env : Env :=
  mkEnv (λ n, 1704362400000000 + Z.of_nat n * 1000000)
        (λ n, "uuid-" +:+ String (ascii_of_nat (97 + n)) "").

(** No backing file, nothing cached. *)
Definition empty_state : State := mkState 0 0 None true None 0 [] 0 0.

Definition example_iso : datetime_value :=
  IsoText (Some (mkiso (mkdate 2024 1 4) 32400000000 None)).

Definition item_with_description (v : string) : TaskDict :=
  mkTaskDict None (Some v) None (Some example_iso) None None None None None None None.

(** ** The filter semantics of the specification

    The order on calendar dates and, for each option of a query, the
    tasks it keeps; an absent or unrecognized option keeps every task. *)

Definition date_lt (a b : date) : Prop :=
  year a < year b
  ∨ (year a = year b
     ∧ (month a < month b ∨ (month a = month b ∧ day a < day b))).

Definition date_le (a b : date) : Prop := date_lt a b ∨ a = b.

Definition due_date_keeps (now : datetime) (tomorrow : date)
    (opt : option string) (t : Task) : Prop :=
  (opt = Some "today" → dt_date (due_date t) = dt_date now)
  ∧ (opt = Some "tomorrow" → dt_date (due_date t) = tomorrow).

Definition status_keeps (now : datetime) (opt : option string) (t : Task) : Prop :=
  (opt = Some "due" →
     completed t = false ∧ date_le (dt_date (due_date t)) (dt_date now))
  ∧ (opt = Some "overdue" →
     completed t = false ∧ instant (due_date t) < instant now)
  ∧ (opt = Some "completed" → completed t = true).

Definition category_keeps (opt : option string) (t : Task) : Prop :=
  ∀ c, opt = Some c → c ≠ "" → lower (category t) = lower c.

(** Offset first, then limit. *)
Definition paginate {A} (limit : option Z) (offset : Z) (l : list A) : list A :=
  let l := drop (Z.to_nat offset) l in
  match limit with
  | Some n => take (Z.to_nat n) l
  | None => l
  end.

(** Thursday 4 January 2024, 10:00 UTC, and three tasks around it. *)
Definition example_now : datetime := mkdatetime (mkdate 2024 1 4) 36000000000 0.
Definition example_task (id description : string) (due : datetime)
    (completed : bool) (frequency : option Frequency) : Task :=
  mkTask id description "home" due completed None frequency None []
         (aware (mkdatetime (mkdate 2024 1 1) 0 0))
         (aware (mkdatetime (mkdate 2024 1 1) 0 0)).
Definition task_today : Task :=
  example_task "t1" "water the plants" (mkdatetime (mkdate 2024 1 4) 64800000000 0)
               false None.
Definition task_yesterday : Task :=
  example_task "t2" "pay the rent" (mkdatetime (mkdate 2024 1 3) 32400000000 0)
               false None.
Definition task_done_today : Task :=
  example_task "t3" "call the bank" (mkdatetime (mkdate 2024 1 4) 28800000000 0)
               true None.
Definition example_tasks : list Task := [task_today; task_yesterday; task_done_today].

(** ** Frames

    Two states that differ at most in the counters of the clock and of
    the identifier generator. *)
Definition same_store (s s' : State) : Prop :=
  file s = file s' ∧ writable s = writable s'
  ∧ cache_data s = cache_data s' ∧ cache_expires_at s = cache_expires_at s'
  ∧ heap s = heap s' ∧ reads s = reads s' ∧ writes s = writes s'.

(** A computation that only draws clock readings and identifiers. *)
Definition counters_only {A} (m : M A) : Prop :=
  ∀ e s r s', m e s = (r, s') →
    same_store s s' ∧ (ticks s ≤ ticks s')%nat ∧ (uuids_drawn s ≤ uuids_drawn s')%nat.

(** The contents of a list object. *)
Definition contents (s : State) (r : nat) : list Task := default [] (heap s !! r).

(** A backing file that holds the three sample tasks; nothing cached. *)
Definition example_state : State :=
  mkState 0 0 (Some (DocArray (ItemDict ∘ Task_dict <$> example_tasks)))
          true None 0 [] 0 0.

Definition task_extra : Task :=
  example_task "t4" "buy milk" (mkdatetime (mkdate 2024 1 6) 32400000000 0)
               false None.

(** A clock that advances by six seconds at each reading. *)
Definition example_env_slow : Env :=
  mkEnv (λ n, 1704362400000000 + Z.of_nat n * 6000000) (uuid4 example_env).

(** The reminders that [complete_task] builds for the next occurrence:
    time and message of the original, [sent] at its default, and the
    identifiers drawn from the generator, starting at the [n]-th. *)
Fixpoint fresh_copies (e : Env) (n : nat) (rs : list Reminder) : list Reminder :=
  match rs with
  | [] => []
  | r :: rs' =>
      mkReminder (uuid4 e n) (time_before r) (message r) false
      :: fresh_copies e (S n) rs'
  end.

(** A daily task with a reminder already sent, in a file of its own. *)
Definition daily : Frequency := mkFrequency "daily" 1 None None.

Definition task_daily : Task :=
  mkTask "t5" "take the pills" "health"
         (mkdatetime (mkdate 2024 1 4) 28800000000 0) false None (Some daily)
         (Some (mkdatetime (mkdate 2024 1 5) 28800000000 0))
         [mkReminder "r1" 15 (Some "in a quarter of an hour") true]
         (aware (mkdatetime (mkdate 2024 1 1) 0 0))
         (aware (mkdatetime (mkdate 2024 1 1) 0 0)).

Definition daily_state : State :=
  mkState 0 0 (Some (DocArray (ItemDict ∘ Task_dict <$> [task_yesterday; task_daily])))
          true None 0 [] 0 0.

(** Uploads for [import_tasks]: records with an identifier and a
    description, one without a description, and a valid daily record
    due on the last representable day. *)
Definition upload_record (id : string) : Item :=
  ItemDict (mkTaskDict (Some id) (Some "imported") None (Some example_iso)
                       None None None None None None None).

Definition upload_malformed : Item :=
  ItemDict (mkTaskDict (Some "m1") None None (Some example_iso)
                       None None None None None None None).

Definition upload_last_day : Item :=
  ItemDict (mkTaskDict (Some "n3") (Some "last day") None
                       (Some (IsoText (Some (mkiso (mkdate 9999 12 31) 0 (Some 0)))))
                       None None
                       (Some (FrequencyOfDict
                                (mkFrequencyDict (Some "daily") None None None)))
                       None None None None).

Definition example_upload : Upload :=
  mkUpload 2048 (Some (JsonArray [upload_record "t1"; upload_record "n1";
                                  upload_malformed; upload_record "t2";
                                  upload_record "n2"])).

(** The second part of the loop body of [import_tasks], on a task that
    was built: the next due date is filled in when there is a frequency
    and none was given. *)
Definition with_next_due_date (task : Task) : result Task :=
  match frequency task, next_due_date task with
  | Some f, None =>
      try! next ← calculate_next_due_date (due_date task) f;
      Ok (set_next_due_date (Some next) task)
  | _, _ => Ok task
  end.

Definition count_skipped (sm : ImportSummary) : ImportSummary :=
  mkImportSummary (success_count sm) (skipped_count sm + 1) (invalid_count sm)
                  (errors sm).

Definition count_success (sm : ImportSummary) : ImportSummary :=
  mkImportSummary (success_count sm + 1) (skipped_count sm) (invalid_count sm)
                  (errors sm).

Definition count_invalid (i : Z) (x : exn) (sm : ImportSummary) : ImportSummary :=
  mkImportSummary (success_count sm) (skipped_count sm) (invalid_count sm + 1)
                  (errors sm ++ [(i, x)]).

(** ** Notions on strings used by the statements *)

(** Every character of a string passes a test. *)
Fixpoint str_all (f : ascii → bool) (s : string) : bool :=
  match s with
  | EmptyString => true
  | String c s' => f c && str_all f s'
  end.

(** Some suffix of a string passes a test; [sub in s] is the case of the
    suffixes that start with [sub]. *)
Fixpoint any_suffix (f : string → bool) (s : string) : bool :=
  f s || match s with
         | EmptyString => false
         | String _ s' => any_suffix f s'
         end.

Definition occurs (sub s : string) : bool := any_suffix (String.prefix sub) s.

(** The characters that [sanitize_description] and [sanitize_category]
    keep. *)
Definition description_char (c : ascii) : bool :=
  (32 <=? ord c) || Ascii.eqb c LF || Ascii.eqb c TAB.

Definition category_char (c : ascii) : bool :=
  isalnum c || Ascii.eqb c "_" || Ascii.eqb c "-" || Ascii.eqb c "."
  || Ascii.eqb c " ".

(** ** Tasks that the store reads back as they were written

    The fields of a task are in the form their validators produce: the
    description and the category are sanitized and within their length
    bounds, the frequency is within the bounds of [Frequency], and no
    reminder has a negative [time_before]. *)
Definition sanitized_description (v : string) : Prop :=
  v ≠ "" ∧ len v ≤ 500 ∧ str_all description_char v = true
  ∧ occurs "<script" v = false ∧ occurs "</script>" v = false ∧ strip v = v.

Definition sanitized_category (v : string) : Prop :=
  v ≠ "" ∧ len v ≤ 50 ∧ str_all category_char v = true ∧ strip v = v.

Definition well_formed_frequency (f : Frequency) : Prop :=
  type_regex_match (type f) = true ∧ 1 ≤ interval f ≤ 365
  ∧ ∀ n, day_of_month f = Some n → 1 ≤ n ≤ 31.

Definition whole_minutes (ts : timestamp) : Prop :=
  ∀ offset, ts_utcoffset ts = Some offset → offset mod US_PER_MINUTE = 0.

Definition storable (t : Task) : Prop :=
  sanitized_description (description t) ∧ sanitized_category (category t)
  ∧ (∀ f, frequency t = Some f → well_formed_frequency f)
  ∧ Forall (λ r, 0 ≤ time_before r) (reminders t)
  ∧ whole_minutes (created_at t) ∧ whole_minutes (updated_at t).

(** ** Announcements *)

Record AnnouncementSummary := mkAnnouncementSummary {
  today_uncompleted : list Task;
  tomorrow_tasks : list Task;
  today_overdue : list Task;
  announcement_text : gmap string string   (* keys [morning] and [evening] *)
}.

(** [str(n)] for an integer, and [sep.join(parts)]. *)
Definition str_of_int (n : Z) : string := NilZero.string_of_int (Z.to_int n).

Fixpoint join (sep : string) (parts : list string) : string :=
  match parts with
  | [] => ""
  | p :: parts' =>
      match parts' with
      | [] => p
      | _ :: _ => p +:+ sep +:+ join sep parts'
      end
  end.

(** Truthiness of a list. *)
Definition truthy_seq {A} (l : list A) : bool :=
  match l with
  | [] => false
  | _ :: _ => true
  end.

(** [generate_announcement_text]. *)
Definition generate_announcement_text (summary : AnnouncementSummary)
  : gmap string string :=
  let morning_parts : list string := [] in
  let evening_parts : list string := [] in
  let morning_parts :=
    if truthy_seq (today_overdue summary) then
      let count := Z.of_nat (length (today_overdue summary)) in
      morning_parts ++ ["You have " +:+ str_of_int count +:+ " overdue task"
                        +:+ (if 1 <? count then "s" else "") +:+ "."]
    else morning_parts in
  let morning_parts :=
    if truthy_seq (today_uncompleted summary) then
      let count := Z.of_nat (length (today_uncompleted summary)) in
      let morning_parts :=
        morning_parts ++ ["You have " +:+ str_of_int count +:+ " task"
                          +:+ (if 1 <? count then "s" else "") +:+ " due today."] in
      let morning_parts :=
        morning_parts
        ++ imap (λ i task, "Task " +:+ str_of_int (Z.of_nat i + 1) +:+ ": "
                           +:+ description task)
                (slice_to 3 (today_uncompleted summary)) in
      if 3 <? Z.of_nat (length (today_uncompleted summary)) then
        let remaining := Z.of_nat (length (today_uncompleted summary)) - 3 in
        morning_parts ++ ["And " +:+ str_of_int remaining +:+ " more task"
                          +:+ (if 1 <? remaining then "s" else "") +:+ "."]
      else morning_parts
    else morning_parts in
  let morning_parts :=
    if negb (truthy_seq (today_uncompleted summary))
       && negb (truthy_seq (today_overdue summary))
    then morning_parts ++ ["You have no tasks due today. Great job!"]
    else morning_parts in
  let evening_parts :=
    if truthy_seq (tomorrow_tasks summary) then
      let count := Z.of_nat (length (tomorrow_tasks summary)) in
      let evening_parts :=
        evening_parts ++ ["You have " +:+ str_of_int count +:+ " task"
                          +:+ (if 1 <? count then "s" else "") +:+ " due tomorrow."] in
      let evening_parts :=
        evening_parts
        ++ imap (λ i task, "Task " +:+ str_of_int (Z.of_nat i + 1) +:+ ": "
                           +:+ description task)
                (slice_to 3 (tomorrow_tasks summary)) in
      if 3 <? Z.of_nat (length (tomorrow_tasks summary)) then
        let remaining := Z.of_nat (length (tomorrow_tasks summary)) - 3 in
        evening_parts ++ ["And " +:+ str_of_int remaining +:+ " more task"
                          +:+ (if 1 <? remaining then "s" else "") +:+ "."]
      else evening_parts
    else evening_parts ++ ["You have no tasks due tomorrow. Enjoy your evening!"] in
  {[ "morning" := join " " morning_parts; "evening" := join " " evening_parts ]}.

(** [l.sort(key=lambda x: x.due_date)].  The sort of Python is stable,
    and what a stable sort returns is determined by the order of the
    keys, here that of the instants: a task is placed before the first
    of the tasks after it whose due date is not earlier. *)
Fixpoint insert_by_due_date (t : Task) (l : list Task) : list Task :=
  match l with
  | [] => [t]
  | u :: l' =>
      if datetime_ltb (due_date u) (due_date t) then u :: insert_by_due_date t l'
      else t :: u :: l'
  end.

Definition sort_by_due_date (l : list Task) : list Task :=
  foldr insert_by_due_date [] l.

(** [get_announcement_summary]. *)
Definition get_announcement_summary : M AnnouncementSummary :=
  except_all (
    do! tasks ← load_tasks;
    do! l ← read_list tasks;
    do! now ← datetime_now;
    let today := dt_date now in
    do! tomorrow ← lift (date_add_days today 1);
    let today_uncompleted :=
      List.filter (λ t, negb (completed t)
                        && date_eqb (dt_date (due_date t)) today) l in
    let tomorrow_tasks :=
      List.filter (λ t, negb (completed t)
                        && date_eqb (dt_date (due_date t)) tomorrow) l in
    let today_overdue :=
      List.filter (λ t, negb (completed t) && datetime_ltb (due_date t) now
                        && date_ltb (dt_date (due_date t)) today) l in
    let today_uncompleted := sort_by_due_date today_uncompleted in
    let tomorrow_tasks := sort_by_due_date tomorrow_tasks in
    let today_overdue := sort_by_due_date today_overdue in
    let summary :=
      mkAnnouncementSummary today_uncompleted tomorrow_tasks today_overdue ∅ in
    ret (mkAnnouncementSummary (today_uncompleted) (tomorrow_tasks) (today_overdue)
                               (generate_announcement_text summary))).

(** ** Export *)

(** [export_tasks]: the records streamed to the client, serialized as
    [save_tasks] serializes them, and the reading of the clock that
    names the attachment. *)
Record Export := mkExport {
  export_data : list TaskDict;
  export_time : Z
}.

Definition export_tasks : M Export :=
  except_all (
    do! tasks ← load_tasks;
    do! l ← read_list tasks;
    let export_data := Task_dict <$> l in
    do! now ← time_time;
    ret (mkExport export_data now)).

(** The order of due dates, for the statements. *)
Definition due_le (a b : Task) : Prop := instant (due_date a) ≤ instant (due_date b).

(** Records whose [created_at] is a date without a time, which the
    parser of pydantic refuses, and a date and a time without offset,
    which it reads as a naive datetime. *)
Definition upload_created_at (id : string) (v : timestamp_value) : Item :=
  ItemDict (mkTaskDict (Some id) (Some "imported") None (Some example_iso)
                       None None None None None (Some v) None).

Definition upload_date_only : Item := upload_created_at "n4" (TimestampText None).

Definition upload_naive : Item :=
  upload_created_at "n5"
    (TimestampText (Some (mktimestamp (mkdate 2024 1 1) 32400000000 None))).

(** ** What happens between two loads *)

(** What the program may do to the state between two loads of the
    collection [r] when nothing is saved and [r] is not changed in
    place: the steps of a run that loads again, reads the clock, draws
    an identifier, builds a list or changes another list in place. *)
Inductive unsaved (e : Env) (r : nat) : State → State → Prop :=
  | unsaved_refl s : unsaved e r s s
  | unsaved_load s res s1 s2 :
      load_tasks e s = (res, s1) → unsaved e r s1 s2 → unsaved e r s s2
  | unsaved_time_time s t s1 s2 :
      time_time e s = (t, s1) → unsaved e r s1 s2 → unsaved e r s s2
  | unsaved_new_uuid s id s1 s2 :
      new_uuid e s = (id, s1) → unsaved e r s1 s2 → unsaved e r s s2
  | unsaved_new_list s l r' s1 s2 :
      new_list l e s = (r', s1) → unsaved e r s1 s2 → unsaved e r s s2
  | unsaved_write_list s r' l u s1 s2 :
      r' ≠ r → write_list r' l e s = (u, s1) → unsaved e r s1 s2 →
      unsaved e r s s2.

(** A clock that never runs backwards. *)
Definition monotone_clock (e : Env) : Prop :=
  ∀ n m, (n ≤ m)%nat → clock e n ≤ clock e m.

(** A daily task due on the last day of the calendar, in a file of its
    own: its next due date cannot be computed. *)
Definition task_last_day : Task :=
  mkTask "t6" "last day" "general"
         (mkdatetime (mkdate 9999 12 31) 28800000000 0) false None
         (Some daily) None []
         (aware (mkdatetime (mkdate 2024 1 1) 0 0))
         (aware (mkdatetime (mkdate 2024 1 1) 0 0)).

Definition last_day_state : State :=
  mkState 0 0 (Some (DocArray [ItemDict (Task_dict task_last_day)]))
          true None 0 [] 0 0.

(** A generator that yields the identifier [r1] at every draw. *)
Definition example_env_constant : Env := mkEnv (clock example_env) (λ _, "r1").

(** ** The outcomes of an import, as the specification words them

    Whether a record passes the validation of [Task] does not depend on
    the clock or on the generator: [schedule_of_record] runs the checks
    of the fields and keeps what the import looks at afterwards, the
    due date, the frequency and the next due date. *)

Definition valid_reminder (v : reminder_value) : bool :=
  match v with
  | ReminderObject _ => true
  | ReminderOfDict d =>
      match rd_time_before d with
      | Some tb => negb (tb <? 0)
      | None => false
      end
  end.

Definition valid_timestamp (v : option timestamp_value) : bool :=
  match v with
  | Some (TimestampText None) => false
  | _ => true
  end.

Definition schedule_of_record (d : TaskDict)
  : result (datetime * option Frequency * option datetime) :=
  try! description ← match td_description d with
                     | None => Raise ValidationError
                     | Some v => validate_description v
                     end;
  try! category ← match td_category d with
                  | None => Ok "general"
                  | Some v => validate_category v
                  end;
  try! due_date ← match td_due_date d with
                  | None => Raise ValidationError
                  | Some v => as_validation (parse_datetime v)
                  end;
  try! completed_at ← optional_datetime (td_completed_at d);
  try! frequency ← match td_frequency d with
                   | None => Ok None
                   | Some v => try! f ← Frequency_init v; Ok (Some f)
                   end;
  try! next_due_date ← optional_datetime (td_next_due_date d);
  if forallb valid_reminder (default [] (td_reminders d))
     && valid_timestamp (td_created_at d) && valid_timestamp (td_updated_at d)
  then Ok (due_date, frequency, next_due_date)
  else Raise ValidationError.

(** An entry is accepted when it is a record that passes validation and
    whose next due date, if it has a frequency and none was given, can
    be computed. *)
Definition accepted (item : Item) : bool :=
  match item with
  | ItemOther => false
  | ItemDict d =>
      match schedule_of_record d with
      | Ok (due_date, Some f, None) =>
          match calculate_next_due_date due_date f with
          | Ok _ => true
          | Raise _ => false
          end
      | Ok _ => true
      | Raise _ => false
      end
  end.

Definition item_id (item : Item) : option string :=
  match item with
  | ItemDict d => td_id d
  | ItemOther => None
  end.

(** The identifiers that validating an entry draws from the generator:
    one for a record without [id], one for each reminder without. *)
Definition needs_uuid (v : reminder_value) : bool :=
  match v with
  | ReminderOfDict d =>
      match rd_id d with
      | None => true
      | Some _ => false
      end
  | ReminderObject _ => false
  end.

Definition uuids_needed (item : Item) : nat :=
  match item with
  | ItemOther => 0
  | ItemDict d =>
      (match td_id d with None => 1 | Some _ => 0 end
       + length (List.filter needs_uuid (default [] (td_reminders d))))%nat
  end.

Inductive outcome :=
  | Succeeded
  | Duplicate
  | Invalid.

(** The outcome of each entry of an upload, in order: [ids] are the
    identifiers of the tasks in the collection when the entry is
    reached, and [drawn] counts the identifiers generated so far. *)
Fixpoint import_outcomes (e : Env) (drawn : nat) (ids : gset string)
    (items : list Item) : list outcome :=
  match items with
  | [] => []
  | item :: rest =>
      if is_duplicate ids item then
        Duplicate :: import_outcomes e drawn ids rest
      else if accepted item then
        Succeeded
        :: import_outcomes e (drawn + uuids_needed item)
             ({[default (uuid4 e drawn) (item_id item)]} ∪ ids) rest
      else
        Invalid :: import_outcomes e (drawn + uuids_needed item) ids rest
  end.

Definition outcome_eqb (a b : outcome) : bool :=
  match a, b with
  | Succeeded, Succeeded | Duplicate, Duplicate | Invalid, Invalid => true
  | _, _ => false
  end.

Definition count_outcome (o : outcome) (os : list outcome) : Z :=
  Z.of_nat (length (List.filter (outcome_eqb o) os)).

(** The outcome of an entry judged on the collection as it was before
    the import. *)
Definition outcome_before (ids : gset string) (item : Item) : outcome :=
  if is_duplicate ids item then Duplicate
  else if accepted item then Succeeded else Invalid.

(** The identifiers carried by the entries that do not duplicate a task
    of the collection as it was before the import. *)
Definition new_ids (ids : gset string) (items : list Item) : list string :=
  omap item_id (List.filter (λ item, negb (is_duplicate ids item)) items).

(** * Properties *)

(** ** The calendar *)

Ltac bool_to_Z :=
  repeat match goal with
  | |- context [?x =? ?y] => destruct (Z.eqb_spec x y)
  | |- context [?x <? ?y] => destruct (Z.ltb_spec x y)
  | |- context [?x <=? ?y] => destruct (Z.leb_spec x y)
  end; cbn [andb orb negb].

Ltac months m :=
  assert (m = 1 ∨ m = 2 ∨ m = 3 ∨ m = 4 ∨ m = 5 ∨ m = 6 ∨ m = 7 ∨ m = 8
          ∨ m = 9 ∨ m = 10 ∨ m = 11 ∨ m = 12) as Hmonths by lia;
  repeat destruct Hmonths as [-> | Hmonths]; [.. | subst m].

Lemma month_day_ok_all leap n : 0 ≤ n < 365 → month_day_ok leap n = true.
Proof.
  intros Hn.
  assert (H : forallb (λ n, month_day_ok true n && month_day_ok false n) (seqZ 0 365) = true)
    by (vm_compute; reflexivity).
  rewrite forallb_forall in H.
  specialize (H n). rewrite <- list_elem_of_In, elem_of_seqZ in H.
  apply andb_true_iff in H; [|lia]. destruct leap; tauto.
Qed.

Lemma days_before_year_succ y :
  days_before_year (y + 1) = days_before_year y + (if is_leap y then 366 else 365).
Proof.
  unfold days_before_year, is_leap. replace (y + 1 - 1) with y by lia.
  bool_to_Z; Z.to_euclidean_division_equations; lia.
Qed.

Lemma days_before_year_mono y y' : y ≤ y' → days_before_year y ≤ days_before_year y'.
Proof.
  intros H. unfold days_before_year. Z.to_euclidean_division_equations; lia.
Qed.

Lemma days_before_month_bound y m d :
  1 ≤ m ≤ 12 → 1 ≤ d ≤ days_in_month y m →
  1 ≤ days_before_month y m + d ≤ (if is_leap y then 366 else 365).
Proof.
  intros Hm. unfold days_before_month, days_in_month.
  months m; cbn; destruct (is_leap y); cbn; lia.
Qed.

Lemma ymd2ord_bounds d :
  md_valid d →
  days_before_year (year d) < ymd2ord d ≤ days_before_year (year d + 1).
Proof.
  intros [Hm Hd]. unfold ymd2ord. rewrite days_before_year_succ.
  pose proof (days_before_month_bound _ _ _ Hm Hd). lia.
Qed.

Lemma ymd2ord_inj d d' :
  md_valid d → md_valid d' → ymd2ord d = ymd2ord d' → d = d'.
Proof.
  intros Hv Hv' Heq.
  pose proof (ymd2ord_bounds d Hv) as Hb. pose proof (ymd2ord_bounds d' Hv') as Hb'.
  assert (Hy : year d = year d').
  { destruct (Z.lt_trichotomy (year d) (year d')) as [Hlt | [? | Hlt]]; [|done|].
    - pose proof (days_before_year_mono (year d + 1) (year d')). lia.
    - pose proof (days_before_year_mono (year d' + 1) (year d)). lia. }
  destruct d as [y m dd], d' as [y' m' dd']. cbn in Hy. subst y'.
  unfold ymd2ord in Heq. cbn [year month day] in *.
  destruct Hv as [Hm Hd], Hv' as [Hm' Hd']. cbn [year month day] in *.
  unfold days_before_month, days_in_month in *.
  assert (m = m' ∧ dd = dd') as [-> ->]; [|done].
  destruct (is_leap y); months m; months m'; cbn in *; lia.
Qed.

Lemma ymd2ord_ord2ymd n : ymd2ord (ord2ymd n) = n ∧ md_valid (ord2ymd n).
Proof.
  unfold ord2ymd, ymd2ord, md_valid, DI400Y, DI100Y, DI4Y.
  set (a := (n - 1) / 146097). set (r1 := (n - 1) mod 146097).
  set (b := r1 / 36524). set (r2 := r1 mod 36524).
  set (c := r2 / 1461). set (r3 := r2 mod 1461).
  set (e := r3 / 365). set (r4 := r3 mod 365).
  assert (Hr4 : 0 ≤ r4 < 365) by (apply Z.mod_pos_bound; lia).
  destruct ((e =? 4) || (b =? 4)) eqn:Hsp.
  - cbn [year month day].
    unfold days_before_year, days_before_month, days_in_month, is_leap.
    cbn [DAYS_BEFORE_MONTH DAYS_IN_MONTH].
    subst a r1 b r2 c r3 e r4. clear Hr4.
    apply orb_true_iff in Hsp.
    replace (2 <? 12) with true by reflexivity.
    replace (12 =? 2) with false by reflexivity. cbn [andb].
    split; [|lia].
    destruct Hsp as [H|H]; apply Z.eqb_eq in H;
      bool_to_Z; Z.to_euclidean_division_equations; lia.
  - apply orb_false_iff in Hsp as [He Hb]. apply Z.eqb_neq in He, Hb.
    set (leap := (e =? 3) && (negb (c =? 24) || (b =? 3))).
    pose proof (month_day_ok_all leap r4 Hr4) as Hmd. unfold month_day_ok in Hmd.
    destruct (month_day_of leap r4) as [m d]. cbn [year month day].
    repeat (apply andb_true_iff in Hmd as [Hmd ?]).
    assert (Hleap : is_leap (a * 400 + 1 + b * 100 + c * 4 + e) = leap).
    { unfold is_leap, leap. subst a r1 b r2 c r3 e r4. clear -He Hb.
      bool_to_Z; try reflexivity; exfalso; Z.to_euclidean_division_equations; lia. }
    unfold days_before_month, days_in_month. rewrite Hleap.
    assert (days_before_year (a * 400 + 1 + b * 100 + c * 4 + e) + r4 + 1 = n).
    { unfold days_before_year. subst a r1 b r2 c r3 e r4. clear -He Hb.
      Z.to_euclidean_division_equations; lia. }
    split; [lia|]. split; [lia|].
    destruct ((m =? 2) && leap) eqn:E.
    + apply andb_true_iff in E as [E _]. apply Z.eqb_eq in E. subst m. cbn in *. lia.
    + lia.
Qed.

Lemma ord2ymd_ymd2ord d : md_valid d → ord2ymd (ymd2ord d) = d.
Proof.
  intros Hv. destruct (ymd2ord_ord2ymd (ymd2ord d)) as [Heq Hv'].
  by apply ymd2ord_inj.
Qed.

Lemma days_before_year_MAX : days_before_year (MAXYEAR + 1) = MAXORDINAL.
Proof. reflexivity. Qed.

Lemma ymd2ord_range d : valid_date d → 1 ≤ ymd2ord d ≤ MAXORDINAL.
Proof.
  intros (Hy & Hm & Hd).
  pose proof (ymd2ord_bounds d (conj Hm Hd)) as Hb.
  pose proof (days_before_year_mono 1 (year d)).
  pose proof (days_before_year_mono (year d + 1) (MAXYEAR + 1)).
  rewrite days_before_year_MAX in *. unfold MINYEAR, MAXYEAR in *.
  change (days_before_year 1) with 0 in *. lia.
Qed.

Lemma ord2ymd_valid n : 1 ≤ n ≤ MAXORDINAL → valid_date (ord2ymd n).
Proof.
  intros Hn. destruct (ymd2ord_ord2ymd n) as [Heq Hv].
  split; [|exact Hv].
  pose proof (ymd2ord_bounds _ Hv) as Hb. rewrite Heq in Hb.
  unfold MINYEAR, MAXYEAR.
  destruct (Z_lt_le_dec (year (ord2ymd n)) 1) as [Hlt|Hge].
  - pose proof (days_before_year_mono (year (ord2ymd n) + 1) 1).
    change (days_before_year 1) with 0 in *. lia.
  - destruct (Z_lt_le_dec 9999 (year (ord2ymd n))) as [Hlt|?]; [|lia].
    pose proof (days_before_year_mono 10000 (year (ord2ymd n))).
    change (days_before_year 10000) with 3652059 in *. unfold MAXORDINAL in *. lia.
Qed.

(** ** The recurrence calculator *)

Lemma sorted_elem_of (l : list Z) t : t ∈ sorted l ↔ t ∈ l.
Proof. unfold sorted. by rewrite merge_sort_Permutation. Qed.

Lemma sorted_StronglySorted (l : list Z) : StronglySorted Z.le (sorted l).
Proof. apply (StronglySorted_merge_sort Z.le). Qed.

Lemma find_first_above cw (l : list Z) t :
  StronglySorted Z.le l → t ∈ l → cw < t →
  (∀ t', t' ∈ l → cw < t' → t ≤ t') →
  find (λ day, cw <? day) l = Some t.
Proof.
  induction 1 as [|x l Hl IH Hx]; intros Hin Hlt Hmin; [by apply elem_of_nil in Hin|].
  cbn. destruct (Z.ltb_spec cw x) as [Hcx|Hcx].
  - f_equal. apply elem_of_cons in Hin as [->|Hin]; [done|].
    rewrite Forall_forall in Hx. specialize (Hx t Hin).
    specialize (Hmin x (list_elem_of_here _ _) Hcx). lia.
  - apply elem_of_cons in Hin as [->|Hin]; [lia|].
    apply IH; [done..|]. intros t' Ht'. apply Hmin. by apply list_elem_of_further.
Qed.

Lemma find_none_above cw (l : list Z) :
  (∀ t, t ∈ l → t ≤ cw) → find (λ day, cw <? day) l = None.
Proof.
  induction l as [|x l IH]; intros H; [done|]. cbn.
  destruct (Z.ltb_spec cw x) as [Hcx|Hcx].
  - specialize (H x (list_elem_of_here _ _)). lia.
  - apply IH. intros t Ht. apply H. by apply list_elem_of_further.
Qed.

Lemma head_sorted_least (l : list Z) t0 :
  StronglySorted Z.le l → t0 ∈ l → (∀ t', t' ∈ l → t0 ≤ t') → head l = Some t0.
Proof.
  destruct 1 as [|x l Hl Hx]; intros Hin Hmin; [by apply elem_of_nil in Hin|].
  cbn. f_equal. apply elem_of_cons in Hin as [->|Hin]; [done|].
  rewrite Forall_forall in Hx. specialize (Hx t0 Hin).
  specialize (Hmin x (list_elem_of_here _ _)). lia.
Qed.

Lemma weekday_add_days d n r :
  datetime_add_days d n = Ok r →
  datetime_weekday r = (datetime_weekday d + n) mod 7
  ∧ ymd2ord (dt_date r) = ymd2ord (dt_date d) + n
  ∧ dt_time r = dt_time d ∧ dt_utcoffset r = dt_utcoffset d.
Proof.
  unfold datetime_add_days, date_add_days, datetime_weekday, date_weekday.
  destruct ((0 <? _) && _); cbn; [|done].
  intros [= <-]. cbn. destruct (ymd2ord_ord2ymd (ymd2ord (dt_date d) + n)) as [-> _].
  split; [|done]. rewrite Zplus_mod_idemp_l. f_equal. lia.
Qed.

Lemma weekly_days_offset d i days dom :
  days ≠ [] →
  calculate_next_due_date d (mkFrequency "weekly" i (Some days) dom)
  = datetime_add_days d
      (match find (λ day, datetime_weekday d <? day) (sorted days) with
       | None => (7 - datetime_weekday d) + default 0 (head (sorted days))
       | Some next_day => next_day - datetime_weekday d
       end).
Proof. intros Hne. unfold calculate_next_due_date. cbn. by destruct days. Qed.

(** C4.  Weekly recurrence with a non-empty [days_of_week] of weekday
    indices 0..6.  If some target weekday is strictly after the weekday
    of the current due date, the next due date is the current one moved
    forward to the smallest such target, within the same week; otherwise
    it is moved [(7 - current_weekday) + first_target] days forward and
    falls on the smallest target weekday.  The interval plays no role.
    For targets [2; 4] and a Thursday (weekday 3) the result is one day
    later, a Friday. *)
Theorem weekly_days_of_week_next_due (d : datetime) (i : Z) (days : list Z)
    (dom : option Z) :
  days ≠ [] → (∀ t, t ∈ days → 0 ≤ t ≤ 6) →
  let f := mkFrequency "weekly" i (Some days) dom in
  let cw := datetime_weekday d in
  (∀ t, t ∈ days → cw < t → (∀ t', t' ∈ days → cw < t' → t ≤ t') →
     calculate_next_due_date d f = datetime_add_days d (t - cw)
     ∧ 0 < t - cw < 7 - cw
     ∧ ∀ r, calculate_next_due_date d f = Ok r → datetime_weekday r = t)
  ∧ (∀ t0, t0 ∈ days → (∀ t', t' ∈ days → t0 ≤ t' ≤ cw) →
     calculate_next_due_date d f = datetime_add_days d ((7 - cw) + t0)
     ∧ ∀ r, calculate_next_due_date d f = Ok r → datetime_weekday r = t0)
  ∧ (∀ i', calculate_next_due_date d (mkFrequency "weekly" i' (Some days) dom)
           = calculate_next_due_date d f)
  ∧ (days = [2; 4] → cw = 3 →
     calculate_next_due_date d f = datetime_add_days d 1
     ∧ ∀ r, calculate_next_due_date d f = Ok r → datetime_weekday r = 4).
Proof.
  intros Hne Hrange f cw.
  assert (Hcw : 0 ≤ cw < 7) by (apply Z.mod_pos_bound; lia).
  assert (Hup : ∀ t, t ∈ days → cw < t → (∀ t', t' ∈ days → cw < t' → t ≤ t') →
     calculate_next_due_date d f = datetime_add_days d (t - cw)
     ∧ 0 < t - cw < 7 - cw
     ∧ ∀ r, calculate_next_due_date d f = Ok r → datetime_weekday r = t).
  { intros t Hin Hlt Hmin. unfold f. rewrite weekly_days_offset by done.
    rewrite (find_first_above _ _ t); fold cw.
    - split; [done|]. pose proof (Hrange t Hin). split; [lia|].
      intros r Hr. apply weekday_add_days in Hr as [-> _]. fold cw.
      change (datetime_weekday d) with cw.
      clearbody cw. Z.to_euclidean_division_equations; lia.
    - apply sorted_StronglySorted.
    - by apply sorted_elem_of.
    - done.
    - intros t' Ht'. apply Hmin. by rewrite <- sorted_elem_of. }
  split; [exact Hup|]. split; [|split].
  - intros t0 Hin Hmin. unfold f. rewrite weekly_days_offset by done.
    rewrite find_none_above.
    2:{ intros t Ht. rewrite sorted_elem_of in Ht. apply Hmin, Ht. }
    rewrite (head_sorted_least _ t0).
    + fold cw. cbn [default]. split; [done|].
      intros r Hr. apply weekday_add_days in Hr as [-> _]. fold cw.
      pose proof (Hrange t0 Hin). change (datetime_weekday d) with cw.
      clearbody cw. unfold id. Z.to_euclidean_division_equations; lia.
    + apply sorted_StronglySorted.
    + by apply sorted_elem_of.
    + intros t' Ht'. rewrite sorted_elem_of in Ht'. apply Hmin, Ht'.
  - intros i'. unfold f. by rewrite !weekly_days_offset.
  - intros -> Hcw3.
    destruct (Hup 4) as (Heq & _ & Hwd).
    + apply list_elem_of_further, list_elem_of_here.
    + lia.
    + intros t' Ht' Hlt. rewrite !elem_of_cons, elem_of_nil in Ht'. lia.
    + rewrite Hcw3 in Heq. split; [exact Heq | exact Hwd].
Qed.

Lemma weekly_days_of_week_next_due_witness :
  calculate_next_due_date example_thursday (mkFrequency "weekly" 5 (Some [2; 4]) None)
  = datetime_add_days example_thursday 1
  ∧ datetime_add_days example_thursday 1
    = Ok (mkdatetime (mkdate 2024 1 5) 32400000000 0).
Proof.
  split; [|reflexivity].
  refine (proj1 (proj2 (proj2 (proj2
    (weekly_days_of_week_next_due example_thursday 5 [2; 4] None _ _))) eq_refl eq_refl)).
  - discriminate.
  - intros t Ht. rewrite !elem_of_cons, elem_of_nil in Ht. lia.
Defined.

Lemma days_in_month_bounds y m : 1 ≤ m ≤ 12 → 28 ≤ days_in_month y m ≤ 31.
Proof.
  intros Hm. unfold days_in_month. months m; cbn; destruct (is_leap y); cbn; lia.
Qed.

Lemma days_in_month_december y : days_in_month y 12 = 31.
Proof. reflexivity. Qed.

Lemma ymd2ord_next_month y m :
  1 ≤ m ≤ 11 →
  ymd2ord (mkdate y (m + 1) 1) = ymd2ord (mkdate y m (days_in_month y m)) + 1.
Proof.
  intros Hm. unfold ymd2ord, days_before_month, days_in_month. cbn [year month day].
  generalize (days_before_year y). intros b.
  destruct (is_leap y); months m;
    match goal with |- context [DAYS_BEFORE_MONTH (?a + 1)] =>
      let v := eval vm_compute in (a + 1) in change (a + 1) with v end;
    cbn; lia.
Qed.

(** Adding [i] months, [1 ≤ i ≤ 365], lands in the month numbered
    [year * 12 + (month - 1) + i] from month 0 of year 0, with the day
    clamped to that month. *)
Lemma date_add_months d i :
  1 ≤ month d ≤ 12 → 1 ≤ i →
  let idx := year d * 12 + (month d - 1) + i in
  date_add_relativedelta d 0 i
  = if (MINYEAR <=? idx / 12) && (idx / 12 <=? MAXYEAR)
    then Ok (mkdate (idx / 12) (idx mod 12 + 1)
                    (Z.min (days_in_month (idx / 12) (idx mod 12 + 1)) (day d)))
    else Raise ValueError.
Proof.
  intros Hm Hi idx. unfold date_add_relativedelta, relativedelta_fix.
  assert (Habs : Z.abs i = i) by lia. assert (Hs : Z.sgn i = 1) by lia.
  rewrite Habs, Hs, !Z.mul_1_r.
  assert (Hcase :
    (let '(years, months) := if 11 <? i then (0 + i / 12, i mod 12) else (0, i) in
     if months =? 0 then (year d + years, month d)
     else if 12 <? month d + months then (year d + years + 1, month d + months - 12)
     else if month d + months <? 1 then (year d + years - 1, month d + months + 12)
     else (year d + years, month d + months)) = (idx / 12, idx mod 12 + 1)).
  { subst idx. destruct (Z.ltb_spec 11 i); bool_to_Z; f_equal;
      Z.to_euclidean_division_equations; lia. }
  destruct (11 <? i); cbn beta iota zeta in *;
    match type of Hcase with ?x = _ =>
      match goal with |- context [let '(y, m) := ?x' in _] => change x' with x end end;
    rewrite Hcase; reflexivity.
Qed.

Lemma monthly_unfold d i dow dom :
  calculate_next_due_date d (mkFrequency "monthly" i dow dom)
  = (try! next_date ← datetime_add_relativedelta d 0 i;
     if truthy_int dom then
       match datetime_replace_day next_date (default 0 dom) with
       | Ok next_date => Ok next_date
       | Raise ValueError =>
           try! next_month ← datetime_add_relativedelta next_date 0 1;
           try! first ← datetime_replace_day next_month 1;
           try! before ← datetime_add_days first (-1);
           datetime_replace_day next_date (day (dt_date before))
       | Raise e => Raise e
       end
     else Ok next_date).
Proof. reflexivity. Qed.

Lemma datetime_replace_day_in dt n :
  1 ≤ n ≤ days_in_month (year (dt_date dt)) (month (dt_date dt)) →
  datetime_replace_day dt n
  = Ok (set_date dt (mkdate (year (dt_date dt)) (month (dt_date dt)) n)).
Proof.
  intros Hn. unfold datetime_replace_day, date_replace_day.
  destruct (Z.leb_spec 1 n); [|lia].
  destruct (Z.leb_spec n (days_in_month (year (dt_date dt)) (month (dt_date dt))));
    [done|lia].
Qed.

Lemma datetime_add_days_in dt n :
  1 ≤ ymd2ord (dt_date dt) + n ≤ MAXORDINAL →
  datetime_add_days dt n = Ok (set_date dt (ord2ymd (ymd2ord (dt_date dt) + n))).
Proof.
  intros Hn. unfold datetime_add_days, date_add_days.
  destruct (Z.ltb_spec 0 (ymd2ord (dt_date dt) + n)); [|lia].
  destruct (Z.leb_spec (ymd2ord (dt_date dt) + n) MAXORDINAL); [done|lia].
Qed.

Lemma datetime_replace_day_out dt n :
  days_in_month (year (dt_date dt)) (month (dt_date dt)) < n →
  datetime_replace_day dt n = Raise ValueError.
Proof.
  intros Hn. unfold datetime_replace_day, date_replace_day.
  destruct (Z.leb_spec n (days_in_month (year (dt_date dt)) (month (dt_date dt))));
    [lia|]. by rewrite andb_false_r.
Qed.

(** The fallback of the monthly branch: the day before the first of the
    following month is the last day of the month. *)
Lemma last_day_of_month dt :
  valid_date (dt_date dt) → month (dt_date dt) ≠ 12 →
  (try! next_month ← datetime_add_relativedelta dt 0 1;
   try! first ← datetime_replace_day next_month 1;
   try! before ← datetime_add_days first (-1);
   datetime_replace_day dt (day (dt_date before)))
  = Ok (set_date dt (mkdate (year (dt_date dt)) (month (dt_date dt))
                            (days_in_month (year (dt_date dt)) (month (dt_date dt))))).
Proof.
  destruct dt as [[y m dd] tm off]. cbn [dt_date year month day].
  intros (Hy & Hm & Hd) Hm12. cbn [year month day] in *.
  unfold datetime_add_relativedelta. cbn [dt_date].
  rewrite date_add_months by (cbn; lia). cbn [year month day].
  assert (Hidx : (y * 12 + (m - 1) + 1) / 12 = y ∧ (y * 12 + (m - 1) + 1) mod 12 + 1 = m + 1)
    by (Z.to_euclidean_division_equations; lia).
  destruct Hidx as [-> ->].
  unfold MINYEAR, MAXYEAR in *.
  destruct (Z.leb_spec 1 y); [|lia]. destruct (Z.leb_spec y 9999); [|lia].
  cbn [andb rbind].
  pose proof (days_in_month_bounds y (m + 1)) as Hb1.
  pose proof (days_in_month_bounds y m Hm) as Hb.
  assert (Hv : valid_date (mkdate y m (days_in_month y m))).
  { repeat split; cbn; unfold MINYEAR, MAXYEAR; lia. }
  pose proof (ymd2ord_range _ Hv) as Hr.
  rewrite datetime_replace_day_in by (cbn; lia). cbn [rbind].
  unfold set_date. cbn [dt_date dt_time dt_utcoffset year month day].
  rewrite datetime_add_days_in; cbn [dt_date]; rewrite ymd2ord_next_month by lia.
  2: lia.
  replace (ymd2ord (mkdate y m (days_in_month y m)) + 1 + -1)
    with (ymd2ord (mkdate y m (days_in_month y m))) by lia.
  rewrite ord2ymd_ymd2ord by (destruct Hv as (_ & ? & ?); by split).
  cbn [rbind dt_date day].
  rewrite datetime_replace_day_in by (cbn; lia). reflexivity.
Qed.

(** C6.  Monthly recurrence from a valid date with an interval in 1..365
    and, if set, a day of month in 1..31, as long as the target year is
    at most 9999: the result lies [interval] calendar months after the
    current due date; with [day_of_month] set its day is that day when
    the target month has it and the last day of the target month
    otherwise (day 31 asked of a 30-day month gives day 30); without
    [day_of_month] the current day is kept, clamped to the target month.
    The time of day and the UTC offset are unchanged. *)
Theorem monthly_next_due (d : datetime) (i : Z) (dow : option (list Z))
    (dom : option Z) :
  valid_date (dt_date d) → 1 ≤ i ≤ 365 → (∀ n, dom = Some n → 1 ≤ n ≤ 31) →
  let idx := year (dt_date d) * 12 + (month (dt_date d) - 1) + i in
  let y' := idx / 12 in
  let m' := idx mod 12 + 1 in
  y' ≤ MAXYEAR →
  ∃ r, calculate_next_due_date d (mkFrequency "monthly" i dow dom) = Ok r
    ∧ year (dt_date r) = y' ∧ month (dt_date r) = m'
    ∧ year (dt_date r) * 12 + (month (dt_date r) - 1) = idx
    ∧ day (dt_date r)
      = match dom with
        | Some n => if n <=? days_in_month y' m' then n else days_in_month y' m'
        | None => Z.min (day (dt_date d)) (days_in_month y' m')
        end
    ∧ (dom = Some 31 → days_in_month y' m' = 30 → day (dt_date r) = 30)
    ∧ dt_time r = dt_time d ∧ dt_utcoffset r = dt_utcoffset d.
Proof.
  intros (Hy & Hm & Hd) Hi Hdom idx y' m' Hmax.
  assert (Hy' : MINYEAR ≤ y') by
    (subst y' idx; unfold MINYEAR in *; Z.to_euclidean_division_equations; lia).
  assert (Hm' : 1 ≤ m' ≤ 12) by
    (subst m' idx; Z.to_euclidean_division_equations; lia).
  assert (Hidx : y' * 12 + (m' - 1) = idx) by
    (subst y' m'; Z.to_euclidean_division_equations; lia).
  rewrite monthly_unfold. unfold datetime_add_relativedelta at 1.
  rewrite date_add_months by lia. fold idx y' m'.
  destruct (Z.leb_spec MINYEAR y'); [|lia]. destruct (Z.leb_spec y' MAXYEAR); [|lia].
  cbn [andb rbind].
  pose proof (days_in_month_bounds y' m' Hm') as Hb.
  pose proof (days_in_month_bounds (year (dt_date d)) (month (dt_date d)) Hm) as Hbd.
  destruct dom as [n|]; cbn [truthy_int from_option]; unfold id.
  - specialize (Hdom n eq_refl).
    destruct (Z.eqb_spec n 0); [lia|]. cbn [negb].
    destruct (Z.leb_spec n (days_in_month y' m')) as [Hle|Hgt].
    + rewrite datetime_replace_day_in by (cbn; lia).
      eexists. split; [reflexivity|]. cbn. repeat split; try done.
      intros [= ->]. lia.
    + rewrite datetime_replace_day_out by (cbn; lia). cbv beta iota.
      rewrite last_day_of_month.
      * eexists. split; [reflexivity|]. cbn. repeat split; try done.
      * unfold valid_date, set_date. cbn [dt_date year month day]. lia.
      * cbn. intros Hm12. rewrite Hm12, days_in_month_december in Hgt. lia.
  - eexists. split; [reflexivity|]. cbn. repeat split; try done. lia.
Qed.

Lemma monthly_next_due_witness :
  ∃ r, calculate_next_due_date example_january_31
         (mkFrequency "monthly" 3 None (Some 31)) = Ok r
       ∧ year (dt_date r) = 2024 ∧ month (dt_date r) = 4 ∧ day (dt_date r) = 30.
Proof.
  destruct (monthly_next_due example_january_31 3 None (Some 31))
    as (r & Hr & Hy & Hm & _ & _ & Hd & _).
  - vm_compute. repeat split; discriminate.
  - lia.
  - intros n [= <-]. lia.
  - vm_compute. discriminate.
  - exists r. split; [exact Hr|]. split; [exact Hy|]. split; [exact Hm|].
    apply Hd; reflexivity.
Defined.

(** ** The task model *)

Lemma mapM_attempt_ok {A B} (f : A → M B) l e s :
  ∃ rs s', mapM (λ v, attempt (f v)) l e s = (Ok rs, s').
Proof.
  revert s. induction l as [|x l IH]; intros s; cbn; [by eexists _, _|].
  unfold bind, attempt at 1. destruct (f x e s) as [r s1].
  destruct (IH s1) as (rs & s2 & ->). by eexists _, _.
Qed.

Lemma attempt_not_Raise {A} (m : M A) e s x s' : attempt m e s ≠ (Raise x, s').
Proof. unfold attempt. by destruct (m e s) as [r s1]. Qed.

Lemma ret_not_Raise {A} (a : A) e s x s' : ret a e s ≠ (Raise x, s').
Proof. done. Qed.

Lemma as_validation_Ok {A} (r : result A) a : as_validation r = Ok a → r = Ok a.
Proof. by destruct r. Qed.

Lemma as_validation_Raise {A} (r : result A) x :
  as_validation r = Raise x → x = ValidationError.
Proof. destruct r; cbn; congruence. Qed.

Lemma validate_description_Ok v s :
  validate_description v = Ok s → 1 ≤ len v ≤ 500 ∧ sanitize_description v = Ok s.
Proof.
  unfold validate_description.
  destruct (Z.ltb_spec (len v) 1); [done|]. destruct (Z.ltb_spec 500 (len v)); [done|].
  intros Hs%as_validation_Ok. split; [lia|done].
Qed.

Lemma Task_init_inv d e s r s' :
  Task_init d e s = (r, s') →
  ∃ id rs rc ru,
    r = as_validation (
      try! description ← match td_description d with
                         | None => Raise ValidationError
                         | Some v => validate_description v
                         end;
      try! category ← match td_category d with
                      | None => Ok "general"
                      | Some v => validate_category v
                      end;
      try! due_date ← match td_due_date d with
                      | None => Raise ValidationError
                      | Some v => as_validation (parse_datetime v)
                      end;
      try! completed_at ← optional_datetime (td_completed_at d);
      try! frequency ← match td_frequency d with
                       | None => Ok None
                       | Some v => try! f ← Frequency_init v; Ok (Some f)
                       end;
      try! next_due_date ← optional_datetime (td_next_due_date d);
      try! reminders ← sequence_results rs;
      try! created_at ← rc;
      try! updated_at ← ru;
      Ok (mkTask id description category due_date
                 (default false (td_completed d)) completed_at frequency
                 next_due_date reminders created_at updated_at)).
Proof.
  unfold Task_init, bind.
  destruct (match td_id d with Some id => ret id | None => new_uuid end e s)
    as [[id|x] s1] eqn:Hid.
  2:{ exfalso. by destruct (td_id d). }
  destruct (mapM_attempt_ok Reminder_init (default [] (td_reminders d)) e s1)
    as (rs & s2 & ->).
  destruct (match td_created_at d with
            | Some v => ret (as_validation (parse_timestamp v))
            | None => attempt timestamp_now end e s2) as [[rc|x] s3] eqn:Hc.
  2:{ exfalso. destruct (td_created_at d);
        [by eapply ret_not_Raise | by eapply attempt_not_Raise]. }
  destruct (match td_updated_at d with
            | Some v => ret (as_validation (parse_timestamp v))
            | None => attempt timestamp_now end e s3) as [[ru|x] s4] eqn:Hu.
  2:{ exfalso. destruct (td_updated_at d);
        [by eapply ret_not_Raise | by eapply attempt_not_Raise]. }
  unfold lift. intros [= <- <-]. by eexists id, rs, rc, ru.
Qed.

(** X22.  A [Task] is built only from a description that is present
    and has between 1 and 500 characters as received: the length
    constraints are judged on the received value, before sanitization,
    and the stored description is the sanitized value.  Every failure of
    the constructor is a [ValidationError]. *)
Theorem Task_init_description (d : TaskDict) (e : Env) (s : State) :
  (∀ t s', Task_init d e s = (Ok t, s') →
     ∃ v, td_description d = Some v ∧ 1 ≤ len v ≤ 500
          ∧ sanitize_description v = Ok (description t))
  ∧ (∀ x s', Task_init d e s = (Raise x, s') → x = ValidationError)
  ∧ (∀ v, td_description d = Some v → len v < 1 ∨ 500 < len v →
       fst (Task_init d e s) = Raise ValidationError).
Proof.
  split; [|split].
  - intros t s' (id & rs & rc & ru & H)%Task_init_inv.
    symmetry in H. apply as_validation_Ok in H.
    destruct (td_description d) as [v|]; [|done].
    destruct (validate_description v) as [descr|] eqn:Hv; [|done].
    apply validate_description_Ok in Hv as [Hlen Hs].
    exists v. split; [done|]. split; [done|].
    cbn [rbind] in H.
    repeat match type of H with
           | rbind ?r _ = _ => destruct r; cbn [rbind] in H; [|done]
           end.
    by injection H as <-.
  - intros x s' (id & rs & rc & ru & H)%Task_init_inv.
    symmetry in H. by apply as_validation_Raise in H.
  - intros v Hv Hlen. destruct (Task_init d e s) as [r s'] eqn:Hinit.
    apply Task_init_inv in Hinit as (id & rs & rc & ru & ->). cbn [fst].
    rewrite Hv. unfold validate_description.
    destruct Hlen as [Hlen|Hlen].
    + destruct (Z.ltb_spec (len v) 1); [done|lia].
    + destruct (Z.ltb_spec (len v) 1); [done|].
      destruct (Z.ltb_spec 500 (len v)); [done|lia].
Qed.

Lemma Task_init_description_witness :
  ∃ v, td_description (item_with_description "<script>alert(1)</script>hello") = Some v
       ∧ 1 ≤ len v ≤ 500
       ∧ sanitize_description v = Ok "&lt;script>alert(1)&lt;/script&gt;hello".
Proof.
  destruct (Task_init (item_with_description "<script>alert(1)</script>hello")
              example_env empty_state) as [[t|x] s'] eqn:H.
  - destruct (proj1 (Task_init_description _ _ _) t s' H) as (v & Hv & Hlen & Hs).
    exists v. split; [exact Hv|]. split; [exact Hlen|].
    rewrite Hs. vm_compute in H. injection H as <- <-. reflexivity.
  - vm_compute in H. discriminate H.
Defined.

(** C2 fails on the code.  A description made of one space passes the
    length constraint of the field and the emptiness test of
    [sanitize_description], which both precede the stripping, and the
    task is built with an empty description, a value that the same
    validator refuses.  [create_task] stores such a task and answers
    with it; the next load reads the file again, the record fails the
    validation of [Task] and is dropped, so the task is lost. *)
Theorem blank_description_task_lost :
  (∃ t s', Task_init (item_with_description " ") example_env empty_state = (Ok t, s')
           ∧ description t = "" ∧ sanitize_description " " = Ok "")
  ∧ let created := create_task (mkTaskCreate " " "general" example_thursday None [])
                               example_env empty_state in
    let loaded := load_tasks example_env (snd created) in
    sanitize_description "" = Raise ValueError
    ∧ (∃ t, fst created = Ok t ∧ description t = ""
            ∧ file (snd created) = Some (DocArray [ItemDict (Task_dict t)])
            ∧ fst (Task_init (Task_dict t) example_env (snd created))
              = Raise ValidationError)
    ∧ reads (snd loaded) = 1%nat
    ∧ ∃ r, fst loaded = Ok r ∧ contents (snd loaded) r = [].
Proof.
  split; [eexists _, _; vm_compute; repeat split; reflexivity|].
  intros created loaded.
  destruct created as [[t|x] s1] eqn:Hc; vm_compute in Hc; [|discriminate Hc].
  injection Hc as <- <-. subst loaded. cbn [fst snd].
  split; [reflexivity|]. split.
  - eexists. split; [reflexivity|]. vm_compute. repeat split; reflexivity.
  - split; [vm_compute; reflexivity|]. exists 1%nat. vm_compute. split; reflexivity.
Qed.

(** ** The query engine *)

Lemma date_eqb_eq a b : date_eqb a b = true ↔ a = b.
Proof.
  destruct a as [y m d], b as [y' m' d']. unfold date_eqb. cbn.
  rewrite !andb_true_iff, !Z.eqb_eq. split; [intros [[-> ->] ->]; done|].
  by intros [= -> -> ->].
Qed.

Lemma date_ltb_lt a b : date_ltb a b = true ↔ date_lt a b.
Proof.
  unfold date_ltb, date_lt.
  rewrite !orb_true_iff, !andb_true_iff, !orb_true_iff, !andb_true_iff,
    !Z.ltb_lt, !Z.eqb_eq. tauto.
Qed.

Lemma date_leb_le a b : date_leb a b = true ↔ date_le a b.
Proof.
  unfold date_leb, date_le. by rewrite orb_true_iff, date_ltb_lt, date_eqb_eq.
Qed.

Lemma is_str_true o v : is_str o v = true ↔ o = Some v.
Proof.
  destruct o as [s|]; cbn; [|done]. rewrite String.eqb_eq. split; congruence.
Qed.

Lemma filter_true {A} (l : list A) : List.filter (λ _, true) l = l.
Proof. induction l; cbn; congruence. Qed.

Lemma slice_from_drop {A} (l : list A) offset :
  0 ≤ offset → slice_from offset l = drop (Z.to_nat offset) l.
Proof.
  intros H. unfold slice_from. destruct (Z.ltb_spec offset 0); [lia|].
  destruct (Z.le_gt_cases offset (Z.of_nat (length l))).
  - by rewrite Z.min_l.
  - rewrite Z.min_r by lia. rewrite Nat2Z.id. rewrite !drop_ge; [done|lia|lia].
Qed.

Lemma slice_to_take {A} (l : list A) n :
  0 ≤ n → slice_to n l = take (Z.to_nat n) l.
Proof.
  intros H. unfold slice_to. destruct (Z.ltb_spec n 0); [lia|].
  destruct (Z.le_gt_cases n (Z.of_nat (length l))).
  - by rewrite Z.min_l.
  - rewrite Z.min_r by lia. rewrite Nat2Z.id. rewrite !take_ge; [done|lia|lia].
Qed.

(** C8.  With today and tomorrow taken from the single reading [now], a
    non-negative offset and a limit, if any, in 1..1000, [filter_tasks]
    applies the due-date filter, then the status filter, then the
    category filter, then the offset and then the limit, each to the
    result of the one before, and an absent option keeps everything.
    Status [due] keeps exactly the incomplete tasks whose due date's
    calendar date is at most today's, [overdue] exactly the incomplete
    tasks whose due instant is before [now], and [completed] exactly the
    completed tasks. *)
Theorem filter_tasks_spec (now : datetime) (tasks : list Task)
    (due_date_opt status category_opt : option string)
    (limit : option Z) (offset : Z) (tomorrow : date) :
  date_add_days (dt_date now) 1 = Ok tomorrow →
  0 ≤ offset → (∀ n, limit = Some n → 1 ≤ n ≤ 1000) →
  ∃ keep_due keep_status keep_category : Task → bool,
    (∀ t, keep_due t = true ↔ due_date_keeps now tomorrow due_date_opt t)
    ∧ (∀ t, keep_status t = true ↔ status_keeps now status t)
    ∧ (∀ t, keep_category t = true ↔ category_keeps category_opt t)
    ∧ filter_tasks now tasks due_date_opt status category_opt limit offset
      = Ok (paginate limit offset
              (List.filter keep_category
                 (List.filter keep_status (List.filter keep_due tasks)))).
Proof.
  intros Htomorrow Hoffset Hlimit.
  exists
    (λ t, if is_str due_date_opt "today"
          then date_eqb (dt_date (due_date t)) (dt_date now)
          else if is_str due_date_opt "tomorrow"
          then date_eqb (dt_date (due_date t)) tomorrow else true),
    (λ t, if is_str status "due"
          then negb (completed t) && date_leb (dt_date (due_date t)) (dt_date now)
          else if is_str status "overdue"
          then negb (completed t) && datetime_ltb (due_date t) now
          else if is_str status "completed" then completed t else true),
    (λ t, match category_opt with
          | Some c => if truthy_str c
                      then String.eqb (lower (category t)) (lower c) else true
          | None => true
          end).
  split; [|split; [|split]].
  - intros t. unfold due_date_keeps.
    destruct (is_str due_date_opt "today") eqn:E1;
      [|destruct (is_str due_date_opt "tomorrow") eqn:E2].
    + apply is_str_true in E1 as ->. rewrite date_eqb_eq. split; [|by intros [H _]; apply H].
      intros Heq. split; [done|]. intros [=].
    + apply is_str_true in E2 as ->. rewrite date_eqb_eq. split; [|by intros [_ H]; apply H].
      intros Heq. split; [intros [=]|done].
    + split; [|done]. intros _.
      split; intros H%is_str_true; congruence.
  - intros t. unfold status_keeps.
    destruct (is_str status "due") eqn:E1;
      [|destruct (is_str status "overdue") eqn:E2;
        [|destruct (is_str status "completed") eqn:E3]].
    + apply is_str_true in E1 as ->.
      rewrite andb_true_iff, negb_true_iff, date_leb_le.
      split; [|by intros [H _]; apply H]. intros H.
      split; [by intros _|split; by intros [=]].
    + apply is_str_true in E2 as ->.
      rewrite andb_true_iff, negb_true_iff. unfold datetime_ltb. rewrite Z.ltb_lt.
      split; [|by intros (_ & H & _); apply H]. intros H.
      split; [by intros [=]|split; [by intros _|by intros [=]]].
    + apply is_str_true in E3 as ->.
      split; [|by intros (_ & _ & H); apply H]. intros H.
      split; [by intros [=]|split; [by intros [=]|by intros _]].
    + split; [|done]. intros _.
      split; [|split]; intros H%is_str_true; congruence.
  - intros t. unfold category_keeps. destruct category_opt as [c|]; [|done].
    unfold truthy_str. destruct (String.eqb_spec c "") as [->|Hc]; cbn.
    + split; [|done]. by intros _ c [= <-].
    + rewrite String.eqb_eq. split; [by intros H c' [= <-]|]. intros H. by apply H.
  - unfold filter_tasks. rewrite Htomorrow. cbn [rbind]. f_equal. unfold paginate.
    assert (Hl : match limit with
                 | Some n => 0 ≤ n ∧ (n =? 0) = false
                 | None => True
                 end).
    { destruct limit as [n|]; [|done]. specialize (Hlimit n eq_refl).
      split; [lia|]. apply Z.eqb_neq. lia. }
    set (l1 := if is_str due_date_opt "today" then _ else _).
    set (l1' := List.filter _ tasks).
    assert (l1 = l1') as ->.
    { subst l1 l1'. destruct (is_str due_date_opt "today"); [done|].
      destruct (is_str due_date_opt "tomorrow"); [done|]. by rewrite filter_true. }
    set (l2 := if is_str status "due" then _ else _).
    set (l2' := List.filter _ l1').
    assert (l2 = l2') as ->.
    { subst l2 l2'. destruct (is_str status "due"); [done|].
      destruct (is_str status "overdue"); [done|].
      destruct (is_str status "completed"); [done|]. by rewrite filter_true. }
    set (l3 := match category_opt with Some _ => _ | None => _ end).
    set (l3' := List.filter _ l2').
    assert (l3 = l3') as ->.
    { subst l3 l3'. destruct category_opt as [c|]; [|by rewrite filter_true].
      destruct (truthy_str c); [done|]. by rewrite filter_true. }
    assert ((if negb (offset =? 0) then slice_from offset l3' else l3')
            = drop (Z.to_nat offset) l3') as ->.
    { destruct (Z.eqb_spec offset 0) as [->|]; cbn; [done|]. by apply slice_from_drop. }
    destruct limit as [n|]; [|done]. destruct Hl as [Hn ->]. cbn.
    by apply slice_to_take.
Qed.

Lemma filter_tasks_spec_witness :
  ∃ keep_due keep_status keep_category : Task → bool,
    (∀ t, keep_due t = true ↔ due_date_keeps example_now (mkdate 2024 1 5) None t)
    ∧ (∀ t, keep_status t = true ↔ status_keeps example_now (Some "overdue") t)
    ∧ (∀ t, keep_category t = true ↔ category_keeps None t)
    ∧ filter_tasks example_now example_tasks None (Some "overdue") None (Some 10) 0
      = Ok (paginate (Some 10) 0
              (List.filter keep_category
                 (List.filter keep_status (List.filter keep_due example_tasks)))).
Proof.
  apply (filter_tasks_spec example_now example_tasks None (Some "overdue") None
           (Some 10) 0 (mkdate 2024 1 5)).
  - reflexivity.
  - lia.
  - intros n [= <-]. lia.
Defined.

(** The three statuses on a task due today, an incomplete task due
    yesterday and a task completed today. *)
Example filter_tasks_statuses :
  filter_tasks example_now example_tasks None (Some "overdue") None None 0
  = Ok [task_yesterday]
  ∧ filter_tasks example_now example_tasks None (Some "completed") None None 0
    = Ok [task_done_today]
  ∧ filter_tasks example_now example_tasks (Some "today") None None None 0
    = Ok [task_today; task_done_today].
Proof. repeat split; vm_compute; reflexivity. Qed.

(** ** The persistence store *)

Lemma same_store_refl s : same_store s s.
Proof. by repeat split. Qed.

Lemma same_store_trans s1 s2 s3 :
  same_store s1 s2 → same_store s2 s3 → same_store s1 s3.
Proof.
  unfold same_store. intros (?&?&?&?&?&?&?) (?&?&?&?&?&?&?).
  repeat split; congruence.
Qed.

Lemma same_store_sym s1 s2 : same_store s1 s2 → same_store s2 s1.
Proof. unfold same_store. intros (?&?&?&?&?&?&?). by repeat split. Qed.

Lemma counters_only_ret {A} (a : A) : counters_only (ret a).
Proof. intros e s r s' [= <- <-]. split; [apply same_store_refl|lia]. Qed.

Lemma counters_only_raise {A} x : counters_only (@raise A x).
Proof. intros e s r s' [= <- <-]. split; [apply same_store_refl|lia]. Qed.

Lemma counters_only_lift {A} (r0 : result A) : counters_only (lift r0).
Proof. intros e s r s' [= <- <-]. split; [apply same_store_refl|lia]. Qed.

Lemma counters_only_bind {A B} (m : M A) (k : A → M B) :
  counters_only m → (∀ a, counters_only (k a)) → counters_only (bind m k).
Proof.
  intros Hm Hk e s r s'. unfold bind.
  destruct (m e s) as [[a|x] s1] eqn:E; apply Hm in E as (H1 & ? & ?).
  - intros (H2 & ? & ?)%Hk. split; [by eapply same_store_trans|lia].
  - intros [= <- <-]. split; [done|lia].
Qed.

Lemma counters_only_attempt {A} (m : M A) : counters_only m → counters_only (attempt m).
Proof.
  intros Hm e s r s'. unfold attempt.
  destruct (m e s) as [r0 s1] eqn:E. apply Hm in E. by intros [= <- <-].
Qed.

Lemma counters_only_mapM {A B} (f : A → M B) l :
  (∀ a, counters_only (f a)) → counters_only (mapM f l).
Proof.
  intros Hf. induction l as [|x l IH]; cbn; [apply counters_only_ret|].
  apply counters_only_bind; [done|]. intros y.
  apply counters_only_bind; [done|]. intros ys. apply counters_only_ret.
Qed.

Lemma counters_only_time_time : counters_only time_time.
Proof.
  intros e s r s' [= <- <-]. split; [by repeat split|]. cbn. lia.
Qed.

Lemma counters_only_datetime_now : counters_only datetime_now.
Proof.
  apply counters_only_bind; [apply counters_only_time_time|].
  intros. apply counters_only_ret.
Qed.

Lemma counters_only_timestamp_now : counters_only timestamp_now.
Proof.
  apply counters_only_bind; [apply counters_only_datetime_now|].
  intros. apply counters_only_ret.
Qed.

Lemma counters_only_new_uuid : counters_only new_uuid.
Proof.
  intros e s r s' [= <- <-]. split; [by repeat split|]. cbn. lia.
Qed.

Create HintDb frame discriminated.
#[local] Hint Resolve counters_only_ret counters_only_raise counters_only_lift
  counters_only_attempt counters_only_time_time counters_only_datetime_now
  counters_only_timestamp_now counters_only_new_uuid : frame.

Ltac frame :=
  repeat first
    [ apply counters_only_bind; [|intros ?]
    | apply counters_only_mapM; intros ?
    | solve [auto with frame]
    | match goal with
      | |- counters_only (match ?x with _ => _ end) => destruct x
      | |- counters_only (if ?x then _ else _) => destruct x
      end ].

Lemma counters_only_Reminder_init v : counters_only (Reminder_init v).
Proof. unfold Reminder_init. frame. Qed.
#[local] Hint Resolve counters_only_Reminder_init : frame.

Lemma counters_only_Task_init d : counters_only (Task_init d).
Proof. unfold Task_init. frame. Qed.
#[local] Hint Resolve counters_only_Task_init : frame.

Lemma counters_only_Task_of_item item : counters_only (Task_of_item item).
Proof. unfold Task_of_item. frame. Qed.
#[local] Hint Resolve counters_only_Task_of_item : frame.

Lemma counters_only_load_items data : counters_only (load_items data).
Proof. induction data as [|item data IH]; cbn; frame. Qed.
#[local] Hint Resolve counters_only_load_items : frame.

Lemma counters_only_import_item ids item : counters_only (import_item ids item).
Proof. unfold import_item. frame. Qed.
#[local] Hint Resolve counters_only_import_item : frame.

(** *** [load_tasks] *)

(** A cache hit: the cached reference is returned and only the clock
    counter moves. *)
Lemma load_tasks_hit e s r :
  cache_data s = Some r → cache_truthy s = true →
  clock e (ticks s) < cache_expires_at s →
  load_tasks e s = (Ok r, set_ticks (S (ticks s)) s).
Proof.
  intros Hr Ht Hlt. unfold load_tasks, bind, time_time, get. cbn.
  change (cache_truthy (set_ticks (S (ticks s)) s)) with (cache_truthy s).
  rewrite Ht. destruct (Z.ltb_spec (clock e (ticks s)) (cache_expires_at s)); [|lia].
  cbn. by rewrite Hr.
Qed.

(** A cache miss: a new list object is returned.  Either the file was
    read and its valid records were put in that object, which is then
    cached, or the object is empty and the cache is left as it was. *)
Lemma load_tasks_miss e s :
  cache_truthy s && (clock e (ticks s) <? cache_expires_at s) = false →
  ∃ l s1,
    load_tasks e s = (Ok (length (heap s)), s1)
    ∧ heap s1 = heap s ++ [l]
    ∧ writes s1 = writes s ∧ file s1 = file s ∧ writable s1 = writable s
    ∧ (uuids_drawn s ≤ uuids_drawn s1)%nat
    ∧ ((cache_data s1 = Some (length (heap s))
        ∧ cache_expires_at s1
          = clock e (ticks s) + CACHE_EXPIRATION * US_PER_SECOND
        ∧ reads s1 = S (reads s))
       ∨ (l = [] ∧ cache_data s1 = cache_data s
          ∧ cache_expires_at s1 = cache_expires_at s
          ∧ (reads s1 = S (reads s) ∨ file s = None ∧ reads s1 = reads s))).
Proof.
  intros Hmiss. unfold load_tasks, bind at 1, time_time, bind at 1, get.
  change (cache_truthy (set_ticks (S (ticks s)) s)) with (cache_truthy s).
  cbn [ticks set_ticks cache_expires_at file]. rewrite Hmiss.
  destruct (file s) as [doc|] eqn:Hfile; [destruct (iterate doc) as [data|]|].
  - unfold bind at 1, modify at 1, bind at 1, attempt.
    destruct (load_items data e _) as [[tasks|x] s2] eqn:Hload;
      apply counters_only_load_items in Hload
        as ((Hf & Hw & Hcd & Hce & Hh & Hrd & Hwr) & _ & Hu); cbn in *.
    + exists tasks. eexists. split; [by rewrite Hh|]. cbn.
      rewrite <- Hh, <- Hwr, <- Hf, <- Hw, <- Hrd. repeat split; try done.
      by left.
    + exists []. eexists. split; [by rewrite Hh|]. cbn.
      rewrite <- Hh, <- Hwr, <- Hf, <- Hw, <- Hrd, <- Hcd, <- Hce.
      repeat split; try done. right. repeat split; try done. by left.
  - exists []. eexists. split; [reflexivity|]. cbn. repeat split; try done; try lia.
    right. repeat split; try done. by left.
  - exists []. eexists. split; [reflexivity|]. cbn. repeat split; try done; try lia.
    right. repeat split; try done. by right.
Qed.

(** A load that read the file and returned a non-empty list has cached
    that very list object, to expire ten seconds after the load. *)
Lemma load_tasks_read_caches e s s1 r l :
  load_tasks e s = (Ok r, s1) → reads s1 = S (reads s) →
  heap s1 !! r = Some l → l ≠ [] →
  cache_data s1 = Some r ∧ cache_truthy s1 = true
  ∧ cache_expires_at s1 = clock e (ticks s) + CACHE_EXPIRATION * US_PER_SECOND.
Proof.
  intros Hload Hreads Hl Hne.
  destruct (cache_truthy s && (clock e (ticks s) <? cache_expires_at s)) eqn:Hhit.
  - apply andb_true_iff in Hhit as [Ht Hlt'%Z.ltb_lt].
    assert (∃ r0, cache_data s = Some r0) as [r0 Hr0].
    { unfold cache_truthy in Ht. destruct (cache_data s); [by eexists|done]. }
    rewrite (load_tasks_hit e s r0) in Hload by done.
    injection Hload as <- <-. cbn in Hreads. lia.
  - destruct (load_tasks_miss e s Hhit)
      as (l' & s1' & Hload' & Hh & _ & _ & _ & _ & Hcases).
    rewrite Hload' in Hload. injection Hload as <- <-.
    rewrite Hh, lookup_app_r, Nat.sub_diag in Hl by done. injection Hl as ->.
    destruct Hcases as [(Hcd & Hce & _) | (-> & _)]; [|done].
    split; [done|]. split; [|done].
    unfold cache_truthy. rewrite Hcd, Hh, lookup_app_r, Nat.sub_diag by done.
    cbn. by destruct l.
Qed.

(** Whatever it does, [load_tasks] returns a reference, keeps the list
    objects that exist and leaves the file alone. *)
Lemma load_tasks_frame e s res s1 :
  load_tasks e s = (res, s1) →
  (∃ r l, res = Ok r ∧ heap s1 !! r = Some l)
  ∧ (∀ r l, heap s !! r = Some l → heap s1 !! r = Some l)
  ∧ file s1 = file s ∧ writes s1 = writes s ∧ writable s1 = writable s
  ∧ (uuids_drawn s ≤ uuids_drawn s1)%nat.
Proof.
  intros Hload.
  destruct (cache_truthy s && (clock e (ticks s) <? cache_expires_at s)) eqn:Hhit.
  - apply andb_true_iff in Hhit as [Ht Hlt'%Z.ltb_lt].
    assert (∃ r0 l0, cache_data s = Some r0 ∧ heap s !! r0 = Some l0)
      as (r0 & l0 & Hr0 & Hl0).
    { unfold cache_truthy in Ht. destruct (cache_data s) as [r0|]; [|done].
      destruct (heap s !! r0) as [l0|] eqn:Hl0; [by exists r0, l0|done]. }
    rewrite (load_tasks_hit e s r0) in Hload by done.
    injection Hload as <- <-. cbn. split; [by exists r0, l0|].
    split; [done|]. repeat split; try done; lia.
  - destruct (load_tasks_miss e s Hhit)
      as (l' & s1' & Hload' & Hh & Hwr & Hf & Hw & Hu & _).
    rewrite Hload' in Hload. injection Hload as <- <-.
    split; [|split; [|done]].
    + exists (length (heap s)), l'. split; [done|].
      by rewrite Hh, lookup_app_r, Nat.sub_diag.
    + intros r l Hl. rewrite Hh. by apply lookup_app_l_Some.
Qed.

Lemma load_tasks_ticks e s res s1 :
  load_tasks e s = (res, s1) → (ticks s ≤ ticks s1)%nat.
Proof.
  unfold load_tasks, bind at 1, time_time, bind at 1, get.
  destruct (_ && _).
  { intros [= <- <-]. cbn. lia. }
  cbn [file set_ticks].
  destruct (file s) as [doc|]; [|intros [= <- <-]; cbn; lia].
  unfold bind at 1, modify at 1.
  destruct (iterate doc) as [data|]; [|intros [= <- <-]; cbn; lia].
  unfold bind at 1, attempt.
  destruct (load_items data e _) as [[tasks|x] s2] eqn:Hload;
    apply counters_only_load_items in Hload as (_ & Ht & _); cbn in Ht;
    intros [= <- <-]; cbn; lia.
Qed.

Lemma unsaved_ticks e r s s2 : unsaved e r s s2 → (ticks s ≤ ticks s2)%nat.
Proof.
  induction 1 as [s|s res s1 s2 Hstep _ IH|s t s1 s2 Hstep _ IH
                  |s id s1 s2 Hstep _ IH|s l r' s1 s2 Hstep _ IH
                  |s r' l u s1 s2 _ Hstep _ IH]; [done|..].
  - apply load_tasks_ticks in Hstep. lia.
  - injection Hstep as <- <-. cbn in IH. lia.
  - injection Hstep as <- <-. by cbn in IH.
  - injection Hstep as <- <-. by cbn in IH.
  - injection Hstep as <- <-. by cbn in IH.
Qed.

(** Steps that save nothing leave a cached non-empty collection cached,
    with its contents and its expiry, and read nothing, as long as the
    loads among them start before the expiry. *)
Lemma unsaved_keeps_cache e r s1 s2 l :
  monotone_clock e → unsaved e r s1 s2 →
  cache_data s1 = Some r → heap s1 !! r = Some l → l ≠ [] →
  clock e (ticks s2) < cache_expires_at s1 →
  cache_data s2 = Some r ∧ heap s2 !! r = Some l
  ∧ cache_expires_at s2 = cache_expires_at s1
  ∧ reads s2 = reads s1 ∧ file s2 = file s1 ∧ writes s2 = writes s1.
Proof.
  intros Hmono Hsteps.
  induction Hsteps as [s|s res s1 s2 Hstep Hrest IH|s t s1 s2 Hstep _ IH
                       |s id s1 s2 Hstep _ IH|s l' r' s1 s2 Hstep _ IH
                       |s r' l' u s1 s2 Hr' Hstep _ IH];
    intros Hcd Hl Hne Hlt; [done|..].
  - rewrite (load_tasks_hit e s r) in Hstep; [|done| |].
    + injection Hstep as <- <-. by apply IH.
    + unfold cache_truthy. rewrite Hcd, Hl. by destruct l.
    + apply unsaved_ticks in Hrest. apply load_tasks_ticks in Hstep.
      specialize (Hmono (ticks s) (ticks s2) ltac:(lia)). lia.
  - injection Hstep as <- <-. by apply IH.
  - injection Hstep as <- <-. by apply IH.
  - injection Hstep as <- <-. cbn in IH.
    apply IH; [done| |done..]. by apply lookup_app_l_Some.
  - injection Hstep as <- <-. cbn in IH.
    apply IH; [done| |done..]. by rewrite list_lookup_insert_ne.
Qed.

(** A [get_tasks] request is made of such steps: it saves nothing and
    changes no list in place. *)
Lemma get_tasks_unsaved due_date_opt status category_opt limit offset e s res s' r :
  get_tasks due_date_opt status category_opt limit offset e s = (res, s') →
  unsaved e r s s'.
Proof.
  unfold get_tasks, except_all, bind at 1.
  destruct (load_tasks e s) as [[r0|x] s1] eqn:Hload.
  - unfold bind at 1, read_list at 1, bind at 1, datetime_now, bind at 1.
    destruct (time_time e s1) as [[t|x] s2] eqn:Htime; [|done].
    unfold ret at 1, lift. intros Hrun.
    assert (s' = s2) as -> by (by destruct (filter_tasks _ _ _ _ _ _ _); injection Hrun).
    eapply unsaved_load; [done|]. eapply unsaved_time_time; [done|]. apply unsaved_refl.
  - intros [= <- <-]. eapply unsaved_load; [done|]. apply unsaved_refl.
Qed.

(** C3, amended.  On a clock that never runs backwards, when a load
    read the file and returned a non-empty collection, every later load
    that starts less than ten seconds after that load began returns the
    same collection object with the same contents and does not read the
    file, whatever the program did in between short of saving and of
    changing that collection in place: other loads, [get_tasks]
    requests, readings of the clock, draws of identifiers, new lists
    and in-place changes of other lists. *)
Theorem load_tasks_cached (e : Env) (s s1 s2 : State) (r : nat) (l : list Task) :
  monotone_clock e →
  load_tasks e s = (Ok r, s1) → reads s1 = S (reads s) →
  heap s1 !! r = Some l → l ≠ [] →
  unsaved e r s1 s2 →
  clock e (ticks s2) < clock e (ticks s) + CACHE_EXPIRATION * US_PER_SECOND →
  ∃ s3, load_tasks e s2 = (Ok r, s3)
        ∧ heap s3 !! r = Some l
        ∧ reads s3 = reads s1 ∧ file s3 = file s1 ∧ writes s3 = writes s1.
Proof.
  intros Hmono Hload Hreads Hl Hne Hsteps Hlt.
  destruct (load_tasks_read_caches e s s1 r l) as (Hcd & Ht & Hce); [done..|].
  destruct (unsaved_keeps_cache e r s1 s2 l) as (Hcd2 & Hl2 & Hce2 & Hrd & Hf & Hw);
    [done..|lia|].
  exists (set_ticks (S (ticks s2)) s2). split.
  - apply load_tasks_hit; [done| |lia].
    unfold cache_truthy. rewrite Hcd2, Hl2. by destruct l.
  - by cbn.
Qed.

Lemma load_tasks_cached_witness :
  let s1 := snd (load_tasks example_env example_state) in
  let s2 := snd (get_tasks None (Some "overdue") None None 0 example_env s1) in
  ∃ s3, load_tasks example_env s2 = (Ok 0%nat, s3)
        ∧ heap s3 !! 0%nat = Some example_tasks ∧ reads s3 = 1%nat.
Proof.
  intros s1 s2.
  destruct (load_tasks_cached example_env example_state s1 s2 0 example_tasks)
    as (s3 & Hload & Hl & Hreads & _).
  - intros n m Hnm. cbn. lia.
  - vm_compute. reflexivity.
  - vm_compute. reflexivity.
  - vm_compute. reflexivity.
  - discriminate.
  - apply (get_tasks_unsaved None (Some "overdue") None None 0 example_env s1
             (fst (get_tasks None (Some "overdue") None None 0 example_env s1))).
    apply surjective_pairing.
  - vm_compute. reflexivity.
  - exists s3. split; [exact Hload|]. split; [exact Hl|].
    rewrite Hreads. vm_compute. reflexivity.
Defined.

(** C3 as the specification has it fails: the expiry is set when the file
    is read and is not renewed by a hit.  Loads at 0, 6 and 12 seconds:
    the last two are six seconds apart with no save in between, yet the
    last one reads the file again. *)
Lemma cache_expiry_not_renewed :
  let s1 := snd (load_tasks example_env_slow example_state) in
  let s2 := snd (load_tasks example_env_slow s1) in
  let s3 := snd (load_tasks example_env_slow s2) in
  clock example_env_slow (ticks s2) - clock example_env_slow (ticks s1)
    < 10 * US_PER_SECOND
  ∧ writes s3 = writes s1
  ∧ reads s1 = 1%nat ∧ reads s2 = 1%nat ∧ reads s3 = 2%nat.
Proof. vm_compute. repeat split; reflexivity. Qed.

(** A change in place shows in what the next load returns: completing
    a task whose next due date cannot be computed fails after the task
    was marked in the cached collection, and a load four seconds after
    the first returns the collection with the task marked, while
    nothing was saved. *)
Lemma failed_completion_changes_cached_collection :
  let s1 := snd (load_tasks example_env last_day_state) in
  let run := complete_task "t6" (mkCompleteTaskRequest true) example_env s1 in
  let s3 := snd (load_tasks example_env (snd run)) in
  fst (load_tasks example_env last_day_state) = Ok 0%nat
  ∧ (completed <$> contents s1 0) = [false]
  ∧ fst run = Raise (HTTPException 500)
  ∧ fst (load_tasks example_env (snd run)) = Ok 0%nat
  ∧ (completed <$> contents s3 0) = [true]
  ∧ writes s3 = 0%nat ∧ reads s3 = 1%nat ∧ file s3 = file last_day_state
  ∧ clock example_env (ticks (snd run)) - clock example_env 0 < 10 * US_PER_SECOND.
Proof. vm_compute. repeat split; reflexivity. Qed.

(** [get_tasks] keeps the list objects that exist and leaves the file
    alone: filtering works on lists of its own. *)
Lemma get_tasks_frame due_date_opt status category_opt limit offset e s res s' :
  get_tasks due_date_opt status category_opt limit offset e s = (res, s') →
  (∀ r l, heap s !! r = Some l → heap s' !! r = Some l)
  ∧ file s' = file s ∧ writes s' = writes s.
Proof.
  unfold get_tasks, except_all, bind.
  destruct (load_tasks e s) as [[r0|x] s1] eqn:Hload;
    apply load_tasks_frame in Hload as (_ & Hheap & Hfile & Hwrites & _).
  - unfold read_list, datetime_now, bind, time_time, ret, lift.
    destruct (filter_tasks _ _ _ _ _ _ _); intros [= <- <-]; by cbn.
  - by intros [= <- <-].
Qed.

(** C5, amended.  The collection returned by a load that read a non-empty
    collection from the file is the list object held by the cache, not
    a copy.  An in-place change of it by the caller that leaves it
    non-empty is therefore what a load started within the expiry
    returns, without the file being read or changed.  Filtering through
    [get_tasks] builds lists of its own: it changes neither the
    contents of the returned collection nor the file. *)
Theorem load_tasks_returns_cached_object (e : Env) (s s1 : State) (r : nat)
    (l : list Task) :
  load_tasks e s = (Ok r, s1) → reads s1 = S (reads s) →
  heap s1 !! r = Some l → l ≠ [] →
  cache_data s1 = Some r
  ∧ (∀ l' s2, l' ≠ [] → write_list r l' e s1 = (Ok tt, s2) →
       clock e (ticks s2) < clock e (ticks s) + CACHE_EXPIRATION * US_PER_SECOND →
       ∃ s3, load_tasks e s2 = (Ok r, s3) ∧ contents s3 r = l'
             ∧ file s3 = file s1 ∧ reads s3 = reads s1)
  ∧ (∀ due_date_opt status category_opt limit offset res s2,
       get_tasks due_date_opt status category_opt limit offset e s1 = (res, s2) →
       contents s2 r = l ∧ file s2 = file s1).
Proof.
  intros Hload Hreads Hl Hne.
  destruct (load_tasks_read_caches e s s1 r l) as (Hcd & Ht & Hce); [done..|].
  split; [done|]. split.
  - intros l' s2 Hne' [= <-] Hlt.
    assert (Hr : (r < length (heap s1))%nat) by by eapply lookup_lt_Some.
    eexists. split.
    + apply load_tasks_hit; cbn; [done| |cbn in Hlt; rewrite Hce; lia].
      unfold cache_truthy. cbn. rewrite Hcd, list_lookup_insert_eq by done.
      by destruct l'.
    + unfold contents. cbn. by rewrite list_lookup_insert_eq.
  - intros due_date_opt status category_opt limit offset res s2 Hget.
    apply get_tasks_frame in Hget as (Hheap & Hfile & _).
    unfold contents. by rewrite (Hheap r l Hl).
Qed.

Lemma load_tasks_returns_cached_object_witness :
  cache_data (snd (load_tasks example_env example_state)) = Some 0%nat
  ∧ ∀ res s2,
      get_tasks None (Some "overdue") None None 0 example_env
                (snd (load_tasks example_env example_state)) = (res, s2) →
      contents s2 0 = example_tasks.
Proof.
  destruct (load_tasks_returns_cached_object example_env example_state
              (snd (load_tasks example_env example_state)) 0 example_tasks)
    as (Hcd & _ & Hget).
  - vm_compute. reflexivity.
  - vm_compute. reflexivity.
  - vm_compute. reflexivity.
  - discriminate.
  - split; [exact Hcd|]. intros res s2 H. exact (proj1 (Hget _ _ _ _ _ _ _ H)).
Defined.

(** C5 as the specification has it fails: the caller appends a task to
    the collection it was given, and the next load, one second later,
    returns the collection with that task, which the file does not
    hold. *)
Lemma load_tasks_returns_live_reference :
  let s1 := snd (load_tasks example_env example_state) in
  let s2 := snd (append 0 task_extra example_env s1) in
  let s3 := snd (load_tasks example_env s2) in
  fst (load_tasks example_env example_state) = Ok 0%nat
  ∧ contents s1 0 = example_tasks
  ∧ fst (load_tasks example_env s2) = Ok 0%nat
  ∧ contents s3 0 = example_tasks ++ [task_extra]
  ∧ file s3 = file example_state ∧ writes s3 = 0%nat.
Proof. vm_compute. repeat split; reflexivity. Qed.

(** ** The handlers *)

#[local] Arguments datetime_of_epoch : simpl never.
#[local] Arguments calculate_next_due_date : simpl never.
#[local] Arguments validate_description : simpl never.
#[local] Arguments validate_category : simpl never.

Lemma bind_Ok {A B} (m : M A) (k : A → M B) e s a s1 :
  m e s = (Ok a, s1) → bind m k e s = k a e s1.
Proof. unfold bind. by intros ->. Qed.

Lemma bind_Raise {A B} (m : M A) (k : A → M B) e s x s1 :
  m e s = (Raise x, s1) → bind m k e s = (Raise x, s1).
Proof. unfold bind. by intros ->. Qed.

Lemma except_internal_Ok {A} (m : M A) e s a s' :
  except_internal m e s = (Ok a, s') → m e s = (Ok a, s').
Proof.
  unfold except_internal. destruct (m e s) as [[a0|x] s0]; [done|].
  by destruct x.
Qed.

Lemma except_all_Ok {A} (m : M A) e s a s' :
  except_all m e s = (Ok a, s') → m e s = (Ok a, s').
Proof. unfold except_all. by destruct (m e s) as [[a0|x] s0]. Qed.

Lemma read_list_eq r e s l : heap s !! r = Some l → read_list r e s = (Ok l, s).
Proof. unfold read_list. by intros ->. Qed.

Lemma alter_lookup {A} (f : A → A) (l : list A) i x :
  l !! i = Some x → alter f i l = <[i:=f x]> l.
Proof.
  revert i. induction l as [|y l IH]; intros [|i]; cbn; try done.
  - by intros [= ->].
  - intros H. f_equal. by apply IH.
Qed.

Lemma mutate_eq r i f e s l t :
  heap s !! r = Some l → l !! i = Some t →
  mutate r i f e s = (Ok tt, set_heap (<[r:=<[i:=f t]> l]> (heap s)) s).
Proof.
  intros Hl Hi. unfold mutate. rewrite (bind_Ok _ _ _ _ _ _ (read_list_eq _ _ _ _ Hl)).
  unfold write_list, modify. by rewrite (alter_lookup _ _ _ _ Hi).
Qed.

Lemma get_item_eq r i e s l t :
  heap s !! r = Some l → l !! i = Some t → get_item r i e s = (Ok t, s).
Proof.
  intros Hl Hi. unfold get_item. rewrite (bind_Ok _ _ _ _ _ _ (read_list_eq _ _ _ _ Hl)).
  by rewrite Hi.
Qed.

Lemma append_eq r t e s l :
  heap s !! r = Some l →
  append r t e s = (Ok tt, set_heap (<[r:=l ++ [t]]> (heap s)) s).
Proof.
  intros Hl. unfold append. by rewrite (bind_Ok _ _ _ _ _ _ (read_list_eq _ _ _ _ Hl)).
Qed.

Lemma datetime_now_eq e s :
  datetime_now e s
  = (Ok (datetime_of_epoch (clock e (ticks s))), set_ticks (S (ticks s)) s).
Proof. reflexivity. Qed.

Lemma save_tasks_eq r e s l :
  heap s !! r = Some l →
  save_tasks r e s
  = if writable s
    then (Ok true,
          set_cache None 0
            (set_writes (S (writes s))
               (set_file (Some (DocArray (ItemDict ∘ Task_dict <$> l))) s)))
    else (Ok false, s).
Proof.
  intros Hl. unfold save_tasks.
  rewrite (bind_Ok _ _ _ _ _ _ (read_list_eq _ _ _ _ Hl)).
  unfold bind, get. by destruct (writable s).
Qed.

Lemma heap_insert_lookup (h : list (list Task)) r l0 l :
  h !! r = Some l0 → <[r:=l]> h !! r = Some l.
Proof. intros H. apply list_lookup_insert_eq. by eapply lookup_lt_Some. Qed.

Lemma find_index_Some id l i :
  find_index id l = Some i → ∃ t, l !! i = Some t ∧ task_id t = id.
Proof.
  revert i. induction l as [|t l IH]; intros i; cbn; [done|].
  destruct (String.eqb_spec (task_id t) id) as [Heq|Hne].
  - intros [= <-]. by exists t.
  - destruct (find_index id l) as [j|]; [|done]. intros [= <-]. by apply IH.
Qed.

(** The reminders built for the next occurrence. *)
Lemma mapM_fresh_copies e s rs res s' :
  mapM (λ r, Reminder_init (ReminderOfDict
               (mkReminderDict None (Some (time_before r)) (message r) None)))
       rs e s = (res, s') →
  same_store s s' ∧ ticks s' = ticks s
  ∧ match res with
    | Ok rs' =>
        rs' = fresh_copies e (uuids_drawn s) rs
        ∧ uuids_drawn s' = (uuids_drawn s + length rs)%nat
        ∧ Forall (λ r, 0 ≤ time_before r) rs
    | Raise _ => ¬ Forall (λ r, 0 ≤ time_before r) rs
    end.
Proof.
  revert s res s'. induction rs as [|r rs IH]; intros s res s';
    cbn [mapM fresh_copies length].
  - intros [= <- <-]. split; [apply same_store_refl|]. split; [done|].
    split; [done|]. split; [lia|done].
  - unfold bind at 1. unfold Reminder_init at 1.
    cbn [rd_id rd_time_before rd_message rd_sent from_option].
    unfold bind at 1, new_uuid at 1.
    destruct (Z.ltb_spec (time_before r) 0) as [Hneg|Hpos].
    + intros [= <- <-]. split; [by repeat split|]. split; [done|].
      rewrite Forall_cons. lia.
    + cbn. unfold bind at 1.
      destruct (mapM _ rs e (set_uuids_drawn (S (uuids_drawn s)) s))
        as [[rs'|x] s1] eqn:Hrs; apply IH in Hrs as (Hsame & Hticks & Hres);
        cbn in Hsame, Hticks, Hres.
      * intros [= <- <-]. destruct Hres as (-> & Hu & Hall).
        split; [done|]. split; [done|]. split; [done|]. split; [lia|].
        by apply Forall_cons.
      * intros [= <- <-]. split; [done|]. split; [done|].
        rewrite Forall_cons. tauto.
Qed.

Lemma mapM_attempt_objects rs e s :
  mapM (λ v, attempt (Reminder_init v)) (ReminderObject <$> rs) e s
  = (Ok (Ok <$> rs), s).
Proof.
  induction rs as [|r rs IH]; [done|]. rewrite !fmap_cons. cbn [mapM].
  rewrite (bind_Ok _ _ _ _ (Ok r) s) by reflexivity.
  by rewrite (bind_Ok _ _ _ _ _ _ IH).
Qed.

Lemma sequence_results_Ok {A} (l : list A) : sequence_results (Ok <$> l) = Ok l.
Proof. induction l as [|a l IH]; [done|]. cbn. by rewrite IH. Qed.

(** The constructor of [Task] on the keyword arguments of [create_task]
    and [complete_task]: description and category are validated again,
    the objects are taken as they are, and the identifier and the two
    timestamps are drawn. *)
Lemma Task_init_objects e s descr cat due f rs :
  Task_init (mkTaskDict None (Some descr) (Some cat) (Some (DatetimeObject due))
                        None None (FrequencyObject <$> f) None
                        (Some (ReminderObject <$> rs)) None None) e s
  = (as_validation (
       try! d ← validate_description descr;
       try! c ← validate_category cat;
       Ok (mkTask (uuid4 e (uuids_drawn s)) d c due false None f None rs
                  (aware (datetime_of_epoch (clock e (ticks s))))
                  (aware (datetime_of_epoch (clock e (S (ticks s))))))),
     set_ticks (S (S (ticks s))) (set_uuids_drawn (S (uuids_drawn s)) s)).
Proof.
  unfold Task_init. cbn [td_id td_description td_category td_due_date
    td_completed td_completed_at td_frequency td_next_due_date td_reminders
    td_created_at td_updated_at from_option].
  rewrite (bind_Ok _ _ e s (uuid4 e (uuids_drawn s))
             (set_uuids_drawn (S (uuids_drawn s)) s)) by reflexivity.
  unfold id. rewrite (bind_Ok _ _ _ _ _ _ (mapM_attempt_objects rs e _)).
  unfold bind, attempt, timestamp_now, bind. rewrite !datetime_now_eq.
  unfold ret at 1 2. unfold lift. f_equal.
  rewrite sequence_results_Ok. cbn [rbind as_validation parse_datetime optional_datetime].
  destruct (validate_description descr) as [d|]; [|done]. cbn [rbind].
  destruct (validate_category cat) as [c|]; [|done]. cbn [rbind].
  by destruct f.
Qed.

(** What a successful [complete_task] has done. *)
Lemma complete_task_inv id req e s r s1 l i t t' s' :
  load_tasks e s = (Ok r, s1) → heap s1 !! r = Some l →
  find_index id l = Some i → l !! i = Some t →
  complete_task id req e s = (Ok t', s') →
  t' = set_updated_at (datetime_of_epoch (clock e (S (ticks s1))))
         (set_completed_at (Some (datetime_of_epoch (clock e (ticks s1))))
            (set_completed true t))
  ∧ file s' = Some (DocArray (ItemDict ∘ Task_dict <$> contents s' r))
  ∧ writes s' = S (writes s1)
  ∧ ((auto_reschedule req = true
      ∧ ∃ f next_due descr cat next2,
          frequency t = Some f
          ∧ calculate_next_due_date (due_date t) f = Ok next_due
          ∧ validate_description (description t) = Ok descr
          ∧ validate_category (category t) = Ok cat
          ∧ calculate_next_due_date next_due f = Ok next2
          ∧ Forall (λ r, 0 ≤ time_before r) (reminders t)
          ∧ heap s' !! r
            = Some (<[i:=t']> l
                    ++ [mkTask (uuid4 e (uuids_drawn s1 + length (reminders t)))
                               descr cat next_due false None (Some f) (Some next2)
                               (fresh_copies e (uuids_drawn s1) (reminders t))
                               (aware (datetime_of_epoch (clock e (S (S (ticks s1))))))
                               (aware (datetime_of_epoch
                                         (clock e (S (S (S (ticks s1)))))))]))
     ∨ ((auto_reschedule req = false ∨ frequency t = None)
        ∧ heap s' !! r = Some (<[i:=t']> l))).
Proof.
  intros Hload Hl Hfind Hi Hrun.
  apply except_internal_Ok in Hrun. unfold complete_task in Hrun.
  rewrite (bind_Ok _ _ _ _ _ _ Hload) in Hrun.
  rewrite (bind_Ok _ _ _ _ _ _ (read_list_eq _ _ _ _ Hl)) in Hrun.
  rewrite Hfind in Hrun.
  rewrite (bind_Ok _ _ _ _ _ _ (mutate_eq _ _ _ _ _ _ _ Hl Hi)) in Hrun.
  rewrite (bind_Ok _ _ _ _ _ _ (datetime_now_eq _ _)) in Hrun.
  assert (Hlen : (i < length l)%nat) by by eapply lookup_lt_Some.
  erewrite (bind_Ok (mutate _ _ _)) in Hrun.
  2:{ eapply mutate_eq.
      - cbn. by eapply heap_insert_lookup.
      - by apply list_lookup_insert_eq. }
  rewrite (bind_Ok _ _ _ _ _ _ (datetime_now_eq _ _)) in Hrun.
  cbn [ticks set_ticks set_heap heap] in Hrun.
  erewrite (bind_Ok (mutate _ _ _)) in Hrun.
  2:{ eapply mutate_eq.
      - cbn. eapply heap_insert_lookup. by eapply heap_insert_lookup.
      - rewrite list_insert_insert_eq. by apply list_lookup_insert_eq. }
  cbn [ticks set_ticks set_heap heap] in Hrun.
  rewrite !list_insert_insert_eq in Hrun.
  set (tc := set_updated_at (datetime_of_epoch (clock e (S (ticks s1))))
               (set_completed_at (Some (datetime_of_epoch (clock e (ticks s1))))
                  (set_completed true t))) in *.
  set (l1 := <[i:=tc]> l) in *.
  assert (Hl1 : l1 !! i = Some tc) by by apply list_lookup_insert_eq.
  match type of Hrun with _ e ?st = _ => set (s2 := st) in Hrun end.
  assert (Hs2 : heap s2 !! r = Some l1) by (cbn; by eapply heap_insert_lookup).
  assert (Hs2t : ticks s2 = S (S (ticks s1))) by done.
  assert (Hs2u : uuids_drawn s2 = uuids_drawn s1) by done.
  assert (Hs2w : writes s2 = writes s1) by done.
  clearbody s2.
  rewrite (bind_Ok _ _ _ _ _ _ (get_item_eq _ _ _ _ _ _ Hs2 Hl1)) in Hrun.
  change (frequency tc) with (frequency t) in Hrun.
  change (due_date tc) with (due_date t) in Hrun.
  change (reminders tc) with (reminders t) in Hrun.
  change (description tc) with (description t) in Hrun.
  change (category tc) with (category t) in Hrun.
  assert (Hfinish : ∀ s3 lf,
    heap s3 !! r = Some lf → lf !! i = Some tc →
    (do! saved ← save_tasks r;
     if saved then get_item r i else raise (HTTPException 500)) e s3 = (Ok t', s') →
    t' = tc ∧ file s' = Some (DocArray (ItemDict ∘ Task_dict <$> contents s' r))
    ∧ writes s' = S (writes s3) ∧ heap s' !! r = Some lf).
  { intros s3 lf Hlf Hlfi Hsave. unfold bind in Hsave.
    rewrite (save_tasks_eq _ _ _ _ Hlf) in Hsave.
    destruct (writable s3); [|done].
    erewrite get_item_eq in Hsave; [|by cbn|done].
    injection Hsave as <- <-. unfold contents. cbn. by rewrite Hlf. }
  destruct (frequency t) as [f|] eqn:Hf.
  2:{ rewrite (bind_Ok _ _ e s2 tt s2) in Hrun by reflexivity.
      destruct (Hfinish _ _ Hs2 Hl1 Hrun) as (-> & Hfile & Hw & Hh).
      split; [done|]. split; [done|]. split; [congruence|].
      right. split; [by right|done]. }
  destruct (auto_reschedule req) eqn:Hauto.
  2:{ rewrite (bind_Ok _ _ e s2 tt s2) in Hrun by reflexivity.
      destruct (Hfinish _ _ Hs2 Hl1 Hrun) as (-> & Hfile & Hw & Hh).
      split; [done|]. split; [done|]. split; [congruence|].
      right. split; [by left|done]. }
  unfold bind at 1 in Hrun. unfold bind at 1 in Hrun. unfold lift at 1 in Hrun.
  destruct (calculate_next_due_date (due_date t) f) as [next_due|x] eqn:Hcalc; [|done].
  unfold bind at 1 in Hrun.
  destruct (mapM _ (reminders t) e s2) as [[rs|x] s3] eqn:Hrs; [|done].
  apply mapM_fresh_copies in Hrs as (Hsame & Hticks & -> & Hu & Hall).
  unfold bind at 1 in Hrun. rewrite (Task_init_objects e s3 _ _ _ (Some f)) in Hrun.
  destruct (validate_description (description t)) as [descr|] eqn:Hdescr; [|done].
  destruct (validate_category (category t)) as [cat|] eqn:Hcat; [|done].
  cbn [rbind as_validation frequency due_date] in Hrun.
  unfold bind at 1 in Hrun. unfold lift at 1 in Hrun.
  destruct (calculate_next_due_date next_due f) as [next2|x] eqn:Hcalc2; [|done].
  destruct Hsame as (_ & _ & _ & _ & Hheap & _ & Hwr).
  match type of Hrun with context [append r ?x] => set (nt := x) in Hrun end.
  match type of Hrun with context [append r nt e ?st] => set (s4 := st) in Hrun end.
  assert (Hs4 : heap s4 !! r = Some l1) by (cbn; by rewrite <- Hheap).
  rewrite (append_eq _ _ _ _ _ Hs4) in Hrun.
  apply (Hfinish _ (l1 ++ [nt])) in Hrun.
  2:{ cbn. rewrite <- Hheap. by eapply heap_insert_lookup. }
  2:{ by apply lookup_app_l_Some. }
  destruct Hrun as (-> & Hfile & Hw & Hh).
  split; [done|]. split; [done|]. split; [cbn in Hw; rewrite Hw; congruence|].
  left. split; [done|]. exists f, next_due, descr, cat, next2.
  repeat (split; [done|]). rewrite Hh. f_equal. f_equal.
  subst nt. unfold set_next_due_date. cbn. by rewrite Hticks, Hu, Hs2t, Hs2u.
Qed.

Lemma fresh_copies_fields e n rs :
  (λ r, (time_before r, message r, sent r)) <$> fresh_copies e n rs
  = (λ r, (time_before r, message r, false)) <$> rs.
Proof.
  revert n. induction rs as [|r rs IH]; intros n; [done|].
  cbn [fresh_copies]. rewrite !fmap_cons. f_equal. apply IH.
Qed.

Lemma fresh_copies_ids e n rs k new :
  fresh_copies e n rs !! k = Some new → reminder_id new = uuid4 e (n + k)%nat.
Proof.
  revert n k. induction rs as [|r rs IH]; intros n [|k]; cbn; try done.
  - intros [= <-]. cbn. f_equal. lia.
  - intros H. apply IH in H. rewrite H. f_equal. lia.
Qed.

Lemma fresh_copies_Forall2 e n rs (P : Reminder → Reminder → Prop) :
  (∀ k old, rs !! k = Some old →
     P old (mkReminder (uuid4 e (n + k)%nat) (time_before old) (message old) false)) →
  Forall2 P rs (fresh_copies e n rs).
Proof.
  revert n. induction rs as [|r rs IH]; intros n H; cbn; [constructor|].
  constructor.
  - specialize (H 0%nat r eq_refl). by rewrite Nat.add_0_r in H.
  - apply IH. intros k old Hk. specialize (H (S k) old Hk).
    by replace (S n + k)%nat with (n + S k)%nat by lia.
Qed.

(** C9.  A successful [complete_task] marks the task it found completed,
    with [completed_at] set, and saves the collection.  With
    [auto_reschedule] set and a frequency present, the collection is the
    former one with exactly one task added at the end: its due date is
    the next due date computed from the original's due date and
    frequency, and its reminders have the original's [time_before] and
    [message], in order, each with [sent] false.  With [auto_reschedule]
    unset or without a frequency, no task is added. *)
Theorem complete_task_reschedules (id : string) (req : CompleteTaskRequest)
    (e : Env) (s s1 s' : State) (r i : nat) (l : list Task) (t t' : Task) :
  load_tasks e s = (Ok r, s1) → heap s1 !! r = Some l →
  find_index id l = Some i → l !! i = Some t →
  complete_task id req e s = (Ok t', s') →
  completed t' = true ∧ is_Some (completed_at t') ∧ task_id t' = task_id t
  ∧ file s' = Some (DocArray (ItemDict ∘ Task_dict <$> contents s' r))
  ∧ (auto_reschedule req = true → ∀ f, frequency t = Some f →
       ∃ new_task,
         contents s' r = <[i:=t']> l ++ [new_task]
         ∧ calculate_next_due_date (due_date t) f = Ok (due_date new_task)
         ∧ (λ r, (time_before r, message r, sent r)) <$> reminders new_task
           = (λ r, (time_before r, message r, false)) <$> reminders t
         ∧ frequency new_task = Some f ∧ completed new_task = false)
  ∧ (auto_reschedule req = false ∨ frequency t = None →
       contents s' r = <[i:=t']> l).
Proof.
  intros Hload Hl Hfind Hi Hrun.
  destruct (complete_task_inv _ _ _ _ _ _ _ _ _ _ _ Hload Hl Hfind Hi Hrun)
    as (-> & Hfile & Hwrites & Hcases).
  split; [done|]. split; [by eexists|]. split; [done|]. split; [done|].
  unfold contents.
  destruct Hcases as [(Hauto & f & next_due & descr & cat & next2 & Hf & Hcalc
                       & _ & _ & _ & _ & Hheap) | (Hno & Hheap)]; rewrite Hheap.
  - split.
    + intros _ f' Hf'. assert (f' = f) as -> by congruence.
      eexists. split; [reflexivity|]. cbn. split; [done|].
      split; [apply fresh_copies_fields|done].
    + intros [Hfalse|Hnone]; congruence.
  - split; [|done]. intros Hauto f Hf. destruct Hno; congruence.
Qed.

Lemma complete_task_reschedules_witness :
  ∃ new_task,
    contents (snd (complete_task "t5" (mkCompleteTaskRequest true)
                     example_env daily_state)) 0
    = [task_yesterday;
       set_updated_at (mkdatetime (mkdate 2024 1 4) 36002000000 0)
         (set_completed_at (Some (mkdatetime (mkdate 2024 1 4) 36001000000 0))
            (set_completed true task_daily));
       new_task]
    ∧ due_date new_task = mkdatetime (mkdate 2024 1 5) 28800000000 0
    ∧ (sent <$> reminders new_task) = [false].
Proof.
  destruct (complete_task "t5" (mkCompleteTaskRequest true) example_env daily_state)
    as [[t'|x] s'] eqn:Hrun.
  - destruct (complete_task_reschedules "t5" (mkCompleteTaskRequest true) example_env
                daily_state (snd (load_tasks example_env daily_state)) s' 0 1
                [task_yesterday; task_daily] task_daily t')
      as (_ & _ & _ & _ & Hnew & _).
    + vm_compute. reflexivity.
    + vm_compute. reflexivity.
    + vm_compute. reflexivity.
    + reflexivity.
    + exact Hrun.
    + destruct (Hnew eq_refl daily eq_refl) as (new_task & Hc & Hdue & Hrem & _).
      exists new_task. cbn [snd]. rewrite Hc.
      vm_compute in Hrun. injection Hrun as <- _.
      split; [reflexivity|]. split.
      * assert (Hcalc : calculate_next_due_date (due_date task_daily) daily
                        = Ok (mkdatetime (mkdate 2024 1 5) 28800000000 0))
          by (vm_compute; reflexivity).
        rewrite Hcalc in Hdue. by injection Hdue as <-.
      * apply (f_equal (fmap snd)) in Hrem. rewrite <- !list_fmap_compose in Hrem.
        exact Hrem.
  - vm_compute in Hrun. discriminate Hrun.
Defined.




Lemma validate_description_in_bounds v :
  1 ≤ len v ≤ 500 → ∃ d, validate_description v = Ok d.
Proof.
  intros Hlen. unfold validate_description.
  destruct (Z.ltb_spec (len v) 1); [lia|]. destruct (Z.ltb_spec 500 (len v)); [lia|].
  unfold sanitize_description. destruct v; [unfold len in Hlen; cbn in Hlen; lia|].
  by eexists.
Qed.

Lemma validate_category_in_bounds v :
  len v ≤ 50 → ∃ c, validate_category v = Ok c.
Proof.
  intros Hlen. unfold validate_category.
  destruct (Z.ltb_spec 50 (len v)); [lia|]. by eexists.
Qed.

(** X18.  Completion with rescheduling returns the task when the task
    is found, the file can be written, the next due date and the one
    after it can be computed, and the fields copied to the new task
    pass its constructor: a description of 1..500 characters, a
    category of at most 50 and no negative [time_before]. *)
Lemma complete_task_succeeds id e s r s1 l i t f next_due next2 :
  load_tasks e s = (Ok r, s1) → heap s1 !! r = Some l →
  find_index id l = Some i → l !! i = Some t →
  frequency t = Some f → writable s1 = true →
  1 ≤ len (description t) ≤ 500 → len (category t) ≤ 50 →
  Forall (λ r, 0 ≤ time_before r) (reminders t) →
  calculate_next_due_date (due_date t) f = Ok next_due →
  calculate_next_due_date next_due f = Ok next2 →
  ∃ t' s', complete_task id (mkCompleteTaskRequest true) e s = (Ok t', s').
Proof.
  intros Hload Hl Hfind Hi Hf Hw Hdescr Hcat Hall Hcalc Hcalc2.
  destruct (validate_description_in_bounds _ Hdescr) as [descr Hd].
  destruct (validate_category_in_bounds _ Hcat) as [cat Hc].
  assert (Hlen : (i < length l)%nat) by by eapply lookup_lt_Some.
  unfold complete_task, except_internal.
  rewrite (bind_Ok _ _ _ _ _ _ Hload).
  rewrite (bind_Ok _ _ _ _ _ _ (read_list_eq _ _ _ _ Hl)).
  rewrite Hfind.
  rewrite (bind_Ok _ _ _ _ _ _ (mutate_eq _ _ _ _ _ _ _ Hl Hi)).
  rewrite (bind_Ok _ _ _ _ _ _ (datetime_now_eq _ _)).
  erewrite (bind_Ok (mutate _ _ _)).
  2:{ eapply mutate_eq.
      - cbn. by eapply heap_insert_lookup.
      - by apply list_lookup_insert_eq. }
  rewrite (bind_Ok _ _ _ _ _ _ (datetime_now_eq _ _)).
  cbn [ticks set_ticks set_heap heap].
  erewrite (bind_Ok (mutate _ _ _)).
  2:{ eapply mutate_eq.
      - cbn. eapply heap_insert_lookup. by eapply heap_insert_lookup.
      - rewrite list_insert_insert_eq. by apply list_lookup_insert_eq. }
  cbn [ticks set_ticks set_heap heap].
  rewrite !list_insert_insert_eq.
  set (tc := set_updated_at _ _).
  set (l1 := <[i:=tc]> l).
  assert (Hl1 : l1 !! i = Some tc) by by apply list_lookup_insert_eq.
  match goal with |- context [_ e ?st] => set (s2 := st) end.
  assert (Hs2 : heap s2 !! r = Some l1) by (cbn; by eapply heap_insert_lookup).
  assert (Hs2w : writable s2 = true) by done.
  clearbody s2.
  rewrite (bind_Ok _ _ _ _ _ _ (get_item_eq _ _ _ _ _ _ Hs2 Hl1)).
  change (frequency tc) with (frequency t). rewrite Hf.
  cbn [auto_reschedule].
  change (due_date tc) with (due_date t).
  change (reminders tc) with (reminders t).
  change (description tc) with (description t).
  change (category tc) with (category t).
  unfold bind at 1, bind at 1, lift at 1. rewrite Hcalc.
  unfold bind at 1.
  destruct (mapM _ (reminders t) e s2) as [[rs|x] s3] eqn:Hrs;
    apply mapM_fresh_copies in Hrs as (Hsame & Hticks & Hres); [|done].
  destruct Hres as (-> & Hu & _).
  destruct Hsame as (_ & Hw3 & _ & _ & Hheap & _).
  unfold bind at 1. rewrite (Task_init_objects e s3 _ _ _ (Some f)).
  rewrite Hd, Hc. cbn [rbind as_validation frequency due_date].
  unfold bind at 1, lift at 1. rewrite Hcalc2.
  erewrite append_eq; [|cbn; by rewrite <- Hheap].
  unfold bind at 1. erewrite save_tasks_eq.
  2:{ cbn. rewrite <- Hheap. by eapply heap_insert_lookup. }
  cbn [writable set_heap set_ticks set_uuids_drawn]. rewrite <- Hw3, Hs2w.
  erewrite get_item_eq.
  - by eexists _, _.
  - cbn. rewrite <- Hheap. by eapply heap_insert_lookup.
  - by apply lookup_app_l_Some.
Qed.

(** *** [import_tasks] *)

Lemma import_item_eq ids item e s :
  import_item ids item e s
  = if is_duplicate ids item then (Ok Skipped, s)
    else match Task_of_item item e s with
         | (Ok task, s1) =>
             match with_next_due_date task with
             | Ok task' => (Ok (Imported task'), s1)
             | Raise x => (Raise x, s1)
             end
         | (Raise x, s1) => (Raise x, s1)
         end.
Proof.
  unfold import_item. destruct (is_duplicate ids item); [done|].
  unfold bind at 1. destruct (Task_of_item item e s) as [[task|x] s1]; [|done].
  unfold with_next_due_date.
  destruct (frequency task) as [f|]; [|done].
  destruct (next_due_date task); [done|].
  unfold bind, lift. by destruct (calculate_next_due_date (due_date task) f).
Qed.

(** One turn of the loop, by the outcome of its entry. *)
Lemma import_loop_cons r i item rest ids sm e s :
  import_loop r i (item :: rest) ids sm e s
  = if is_duplicate ids item
    then import_loop r (i + 1) rest ids (count_skipped sm) e s
    else match Task_of_item item e s with
         | (Ok task, s1) =>
             match with_next_due_date task with
             | Ok task' =>
                 (do! _ ← append r task';
                  import_loop r (i + 1) rest ({[task_id task']} ∪ ids)
                              (count_success sm)) e s1
             | Raise x =>
                 import_loop r (i + 1) rest ids (count_invalid (i + 1) x sm) e s1
             end
         | (Raise x, s1) =>
             import_loop r (i + 1) rest ids (count_invalid (i + 1) x sm) e s1
         end.
Proof.
  cbn [import_loop]. unfold bind at 1, attempt. rewrite import_item_eq.
  destruct (is_duplicate ids item); [done|].
  destruct (Task_of_item item e s) as [[task|x] s1]; [|done].
  by destruct (with_next_due_date task).
Qed.

(** The loop never fails; it appends the imported tasks to the list and
    every entry is counted once. *)
Lemma import_loop_inv r items :
  ∀ i ids sm e s l res s',
    heap s !! r = Some l →
    import_loop r i items ids sm e s = (res, s') →
    ∃ sm' added,
      res = Ok sm' ∧ heap s' !! r = Some (l ++ added)
      ∧ success_count sm' = success_count sm + Z.of_nat (length added)
      ∧ skipped_count sm ≤ skipped_count sm'
      ∧ invalid_count sm ≤ invalid_count sm'
      ∧ success_count sm' + skipped_count sm' + invalid_count sm'
        = success_count sm + skipped_count sm + invalid_count sm
          + Z.of_nat (length items)
      ∧ Z.of_nat (length (errors sm'))
        = Z.of_nat (length (errors sm)) + (invalid_count sm' - invalid_count sm)
      ∧ file s' = file s ∧ writes s' = writes s ∧ writable s' = writable s.
Proof.
  induction items as [|item rest IH]; intros i ids sm e s l res s' Hl.
  - intros [= <- <-]. exists sm, []. rewrite app_nil_r. cbn. repeat split; try done; lia.
  - rewrite import_loop_cons.
    destruct (is_duplicate ids item).
    { intros Hrun. destruct (IH _ _ _ _ _ _ _ _ Hl Hrun)
        as (sm' & added & -> & Hh & H1 & H2 & H3 & H4 & H5 & H6 & H7 & H8).
      exists sm', added. cbn in *. rewrite ?length_cons.
      repeat split; try done; lia. }
    destruct (Task_of_item item e s) as [[task|x] s1] eqn:Htask;
      apply counters_only_Task_of_item in Htask
        as ((Hf & Hw & _ & _ & Hheap & _ & Hwr) & _).
    + destruct (with_next_due_date task) as [task'|x].
      * rewrite (bind_Ok _ _ _ _ _ _ (append_eq r task' e s1 l ltac:(congruence))).
        intros Hrun. apply IH with (l := l ++ [task']) in Hrun.
        2:{ cbn. eapply heap_insert_lookup. by rewrite <- Hheap. }
        destruct Hrun as (sm' & added & -> & Hh & H1 & H2 & H3 & H4 & H5 & H6 & H7 & H8).
        exists sm', (task' :: added). cbn in *. rewrite <- app_assoc in Hh.
        rewrite ?length_cons.
        repeat split; try done; try lia; congruence.
      * intros Hrun. apply IH with (l := l) in Hrun; [|congruence].
        destruct Hrun as (sm' & added & -> & Hh & H1 & H2 & H3 & H4 & H5 & H6 & H7 & H8).
        exists sm', added. cbn in *. rewrite length_app in H5. cbn in H5.
        rewrite ?length_cons.
        repeat split; try done; try lia; congruence.
    + intros Hrun. apply IH with (l := l) in Hrun; [|congruence].
      destruct Hrun as (sm' & added & -> & Hh & H1 & H2 & H3 & H4 & H5 & H6 & H7 & H8).
      exists sm', added. cbn in *. rewrite length_app in H5. cbn in H5.
      rewrite ?length_cons.
      repeat split; try done; try lia; congruence.
Qed.

Lemma mapM_attempt_reminders vs e s :
  ∃ rs s',
    mapM (λ v, attempt (Reminder_init v)) vs e s = (Ok rs, s')
    ∧ uuids_drawn s' = (uuids_drawn s + length (List.filter needs_uuid vs))%nat
    ∧ match sequence_results rs with
      | Ok _ => forallb valid_reminder vs = true
      | Raise _ => forallb valid_reminder vs = false
      end.
Proof.
  revert s. induction vs as [|v vs IH]; intros s.
  - exists [], s. cbn. split; [done|]. split; [lia|done].
  - cbn [mapM]. unfold bind at 1, attempt at 1.
    destruct (Reminder_init v e s) as [res s1] eqn:Hv.
    destruct (IH s1) as (rs & s2 & Hrs & Hu & Hseq).
    exists (res :: rs), s2. unfold bind at 1. rewrite Hrs. split; [done|].
    assert (uuids_drawn s1
            = (uuids_drawn s + if needs_uuid v then 1 else 0)%nat
            ∧ match res with
              | Ok _ => valid_reminder v = true
              | Raise _ => valid_reminder v = false
              end) as [Hu1 Hres].
    { destruct v as [d|r]; cbn in Hv.
      - unfold bind in Hv. cbn [needs_uuid valid_reminder].
        destruct (rd_id d) as [id|]; cbn in Hv;
          (destruct (rd_time_before d) as [tb|]; cbn in Hv;
           [destruct (tb <? 0); cbn in Hv|]);
          injection Hv as <- <-; cbn; split; try done; lia.
      - injection Hv as <- <-. cbn. split; [lia|done]. }
    split.
    + cbn [List.filter]. destruct (needs_uuid v); cbn [length]; lia.
    + cbn [sequence_results forallb]. destruct res as [rem|x]; cbn [rbind].
      * rewrite Hres. cbn [andb].
        by destruct (sequence_results rs).
      * by rewrite Hres.
Qed.

Lemma timestamp_field v e s :
  ∃ rc s',
    match v with
    | None => attempt timestamp_now
    | Some v => ret (as_validation (parse_timestamp v))
    end e s = (Ok rc, s')
    ∧ uuids_drawn s' = uuids_drawn s
    ∧ match rc with
      | Ok _ => valid_timestamp v = true
      | Raise _ => valid_timestamp v = false
      end.
Proof.
  destruct v as [[[ts|]]|]; by eexists _, _.
Qed.

Lemma Task_init_schedule d e s :
  ∃ s',
    uuids_drawn s' = (uuids_drawn s + uuids_needed (ItemDict d))%nat
    ∧ match schedule_of_record d with
      | Ok (due, f, next) =>
          ∃ t, Task_init d e s = (Ok t, s')
               ∧ task_id t = default (uuid4 e (uuids_drawn s)) (td_id d)
               ∧ due_date t = due ∧ frequency t = f ∧ next_due_date t = next
      | Raise _ => Task_init d e s = (Raise ValidationError, s')
      end.
Proof.
  destruct (Task_init d e s) as [res s0] eqn:Hrun.
  unfold Task_init in Hrun. unfold bind at 1 in Hrun.
  destruct (match td_id d with Some id => ret id | None => new_uuid end e s)
    as [rid s1] eqn:Hid.
  assert (rid = Ok (default (uuid4 e (uuids_drawn s)) (td_id d))
          ∧ uuids_drawn s1
            = (uuids_drawn s + match td_id d with None => 1 | Some _ => 0 end)%nat)
    as [-> Hu1].
  { destruct (td_id d); injection Hid as <- <-; cbn; split; try done; lia. }
  clear Hid.
  destruct (mapM_attempt_reminders (default [] (td_reminders d)) e s1)
    as (rs & s2 & Hrs & Hu2 & Hseq).
  unfold bind at 1 in Hrun. rewrite Hrs in Hrun.
  destruct (timestamp_field (td_created_at d) e s2) as (rc & s3 & Hc & Hu3 & Hrc).
  unfold bind at 1 in Hrun. rewrite Hc in Hrun.
  destruct (timestamp_field (td_updated_at d) e s3) as (ru & s4 & Hup & Hu4 & Hru).
  unfold bind at 1 in Hrun. rewrite Hup in Hrun.
  unfold lift in Hrun. injection Hrun as <- <-.
  exists s4. split; [unfold uuids_needed; lia|]. unfold schedule_of_record.
  destruct (match td_description d with
            | Some v => validate_description v
            | None => Raise ValidationError
            end) as [descr|]; cbn [rbind as_validation]; [|done].
  destruct (match td_category d with
            | Some v => validate_category v
            | None => Ok "general"
            end) as [cat|]; cbn [rbind as_validation]; [|done].
  destruct (match td_due_date d with
            | Some v => as_validation (parse_datetime v)
            | None => Raise ValidationError
            end) as [due|]; cbn [rbind as_validation]; [|done].
  destruct (optional_datetime (td_completed_at d)) as [ca|];
    cbn [rbind as_validation]; [|done].
  destruct (match td_frequency d with
            | Some v => try! f ← Frequency_init v; Ok (Some f)
            | None => Ok None
            end) as [f|]; cbn [rbind as_validation]; [|done].
  destruct (optional_datetime (td_next_due_date d)) as [next|];
    cbn [rbind as_validation]; [|done].
  destruct (sequence_results rs) as [rems|]; rewrite Hseq;
    cbn [rbind as_validation andb]; [|done].
  destruct rc as [c|]; rewrite Hrc; cbn [rbind as_validation andb]; [|done].
  destruct ru as [u|]; rewrite Hru; cbn [rbind as_validation andb]; [|done].
  by eexists.
Qed.

Lemma import_item_outcome ids item e s :
  is_duplicate ids item = false →
  ∃ s1,
    same_store s s1
    ∧ uuids_drawn s1 = (uuids_drawn s + uuids_needed item)%nat
    ∧ if accepted item
      then ∃ task, import_item ids item e s = (Ok (Imported task), s1)
                   ∧ task_id task = default (uuid4 e (uuids_drawn s)) (item_id item)
      else ∃ x, import_item ids item e s = (Raise x, s1).
Proof.
  intros Hdup. rewrite import_item_eq, Hdup.
  destruct item as [d|].
  2:{ exists s. split; [apply same_store_refl|]. cbn. split; [lia|by eexists]. }
  cbn [Task_of_item accepted item_id].
  destruct (Task_init_schedule d e s) as (s1 & Hu & Hinit).
  exists s1. split.
  { destruct (Task_init d e s) as [res s1'] eqn:Hrun.
    pose proof (counters_only_Task_init d e s res s1' Hrun) as [Hsame _].
    destruct (schedule_of_record d) as [[[due f] next]|].
    - destruct Hinit as (t & [= _ <-] & _). exact Hsame.
    - injection Hinit as _ <-. exact Hsame. }
  split; [done|].
  destruct (schedule_of_record d) as [[[due f] next]|].
  - destruct Hinit as (t & -> & Hid & <- & <- & <-).
    unfold with_next_due_date.
    destruct (frequency t) as [f|]; [|by exists t].
    destruct (next_due_date t); [by exists t|].
    destruct (calculate_next_due_date (due_date t) f); cbn [rbind];
      by eexists.
  - rewrite Hinit. by eexists.
Qed.

Lemma count_outcome_cons o o' os :
  count_outcome o (o' :: os)
  = (if outcome_eqb o o' then 1 else 0) + count_outcome o os.
Proof.
  unfold count_outcome. cbn [List.filter].
  destruct (outcome_eqb o o'); cbn [length]; lia.
Qed.

(** The loop counts each entry by its outcome. *)
Lemma import_loop_outcomes r items :
  ∀ i ids sm e s res s',
    import_loop r i items ids sm e s = (res, s') →
    let outcomes := import_outcomes e (uuids_drawn s) ids items in
    ∃ sm',
      res = Ok sm'
      ∧ success_count sm' = success_count sm + count_outcome Succeeded outcomes
      ∧ skipped_count sm' = skipped_count sm + count_outcome Duplicate outcomes
      ∧ invalid_count sm' = invalid_count sm + count_outcome Invalid outcomes.
Proof.
  induction items as [|item rest IH]; intros i ids sm e s res s'.
  - intros [= <- <-]. exists sm. cbn. unfold count_outcome. cbn.
    repeat split; try done; lia.
  - cbn [import_loop import_outcomes]. unfold bind at 1, attempt.
    destruct (is_duplicate ids item) eqn:Hdup.
    { unfold import_item. rewrite Hdup. cbn. intros Hrun.
      destruct (IH _ _ _ _ _ _ _ Hrun) as (sm' & -> & H1 & H2 & H3).
      exists sm'. rewrite !count_outcome_cons. cbn in *.
      repeat split; try done; lia. }
    destruct (import_item_outcome ids item e s Hdup) as (s1 & _ & Hu & Hitem).
    destruct (accepted item).
    + destruct Hitem as (task & -> & Hid). unfold bind at 1.
      unfold append at 1, bind at 1, read_list at 1, write_list at 1, modify at 1.
      intros Hrun. apply IH in Hrun as (sm' & -> & H1 & H2 & H3).
      exists sm'. rewrite !count_outcome_cons. cbn in *.
      rewrite Hu, Hid in *. repeat split; try done; lia.
    + destruct Hitem as (x & ->).
      intros Hrun. apply IH in Hrun as (sm' & -> & H1 & H2 & H3).
      exists sm'. rewrite !count_outcome_cons. cbn in *.
      rewrite Hu in *. repeat split; try done; lia.
Qed.

Lemma is_duplicate_item_id ids item :
  is_duplicate ids item
  = match item_id item with
    | Some id => bool_decide (id ∈ ids)
    | None => false
    end.
Proof. by destruct item. Qed.

Lemma new_ids_cons ids item rest :
  new_ids ids (item :: rest)
  = if is_duplicate ids item then new_ids ids rest
    else match item_id item with
         | Some id => id :: new_ids ids rest
         | None => new_ids ids rest
         end.
Proof.
  unfold new_ids. cbn [List.filter]. destruct (is_duplicate ids item); [done|].
  cbn [negb omap list_omap]. by destruct (item_id item).
Qed.

(** When the accepted entries carry their identifiers and no identifier
    comes twice among the entries that are new to the collection, what
    the import added earlier changes the outcome of no entry. *)
Lemma import_outcomes_before e ids0 items :
  ∀ drawn ids,
    ids0 ⊆ ids →
    (∀ x, x ∈ ids → x ∉ ids0 → x ∉ new_ids ids0 items) →
    (∀ item, item ∈ items → is_duplicate ids0 item = false →
       accepted item = true → is_Some (item_id item)) →
    NoDup (new_ids ids0 items) →
    import_outcomes e drawn ids items = outcome_before ids0 <$> items.
Proof.
  induction items as [|item rest IH]; intros drawn ids Hsub Hnew Hcarry Hnd; [done|].
  rewrite fmap_cons. cbn [import_outcomes]. unfold outcome_before at 1.
  rewrite new_ids_cons in Hnd, Hnew.
  assert (Hrest : ∀ item', item' ∈ rest → is_duplicate ids0 item' = false →
                    accepted item' = true → is_Some (item_id item')).
  { intros item' Hin. apply Hcarry. by apply elem_of_cons; right. }
  assert (Hdup : is_duplicate ids item = is_duplicate ids0 item).
  { rewrite !is_duplicate_item_id. destruct (item_id item) as [x|] eqn:Hx; [|done].
    destruct (decide (x ∈ ids0)) as [Hin0|Hnin0].
    - rewrite !bool_decide_eq_true_2; [done..|]. by apply Hsub.
    - rewrite (bool_decide_eq_false_2 (x ∈ ids0)) by done.
      apply bool_decide_eq_false_2. intros Hin.
      specialize (Hnew x Hin Hnin0).
      rewrite is_duplicate_item_id, Hx, (bool_decide_eq_false_2 _ Hnin0) in Hnew.
      apply Hnew. by left. }
  rewrite Hdup. destruct (is_duplicate ids0 item) eqn:Hdup0.
  { f_equal. by apply IH. }
  destruct (accepted item) eqn:Hacc.
  - destruct (Hcarry item ltac:(by left) Hdup0 Hacc) as [x Hx].
    rewrite Hx in Hnd, Hnew |- *. cbn [default].
    apply NoDup_cons in Hnd as [Hnin Hnd].
    f_equal. apply IH; [set_solver| |done..].
    intros y [Hy%elem_of_singleton|Hy]%elem_of_union Hy0.
    + by subst y.
    + intros Hin. apply (Hnew y Hy Hy0). by right.
  - f_equal. apply IH; [done| |done|].
    + intros y Hy Hy0 Hin. apply (Hnew y Hy Hy0).
      destruct (item_id item); [by right|done].
    + destruct (item_id item); [by apply NoDup_cons in Hnd as [_ ?]|done].
Qed.




(** The timestamps of an imported record are taken as the parser of
    pydantic reads them: a [created_at] that is a date alone makes the
    record invalid, and one without offset stays naive in the task
    that is added, whose due date was made a UTC datetime. *)
Lemma import_created_at_as_parsed :
  let run := import_tasks (mkUpload 1024 (Some (JsonArray [upload_date_only;
                                                           upload_naive])))
                          example_env example_state in
  fst run = Ok (mkImportSummary 1 0 1 [(1, ValidationError)])
  ∧ ((λ t, (task_id t, ts_utcoffset (created_at t), dt_utcoffset (due_date t)))
       <$> drop 3 (contents (snd run) 0))
    = [("n5", None, 0)].
Proof. vm_compute. split; reflexivity. Qed.

(** *** [create_task] and [update_task] *)

(** C1 fails on the code: an update that changes only the due date of a
    recurring task leaves [next_due_date] as it was.  The daily task due
    on 4 January, next due on 5 January, is moved to 1 March; the task
    returned and saved is still next due on 5 January, while the
    recurrence of its due date is 2 March. *)
Theorem update_task_due_date_only_stale :
  let moved := mkdatetime (mkdate 2024 3 1) 28800000000 0 in
  let res := update_task "t5" (mkTaskUpdate None None (Some moved) None None)
                         example_env daily_state in
  fst res
  = Ok (set_updated_at (mkdatetime (mkdate 2024 1 4) 36001000000 0)
          (set_due_date moved task_daily))
  ∧ next_due_date (set_due_date moved task_daily)
    = Some (mkdatetime (mkdate 2024 1 5) 28800000000 0)
  ∧ calculate_next_due_date moved daily
    = Ok (mkdatetime (mkdate 2024 3 2) 28800000000 0)
  ∧ file (snd res)
    = Some (DocArray (ItemDict ∘ Task_dict
                      <$> [task_yesterday;
                           set_updated_at (mkdatetime (mkdate 2024 1 4) 36001000000 0)
                             (set_due_date moved task_daily)])).
Proof. vm_compute. repeat split; reflexivity. Qed.

(** X16.  A task returned by [create_task] has the due date and the
    frequency of the request, and its [next_due_date] is the next due
    date computed from them, or absent when there is no frequency. *)
Lemma create_task_next_due_date task_data e s t s' :
  create_task task_data e s = (Ok t, s') →
  due_date t = tc_due_date task_data ∧ frequency t = tc_frequency task_data
  ∧ match frequency t with
    | Some f =>
        ∃ next, calculate_next_due_date (due_date t) f = Ok next
                ∧ next_due_date t = Some next
    | None => next_due_date t = None
    end.
Proof.
  intros Hrun%except_all_Ok. unfold create_task in Hrun.
  unfold bind at 1 in Hrun.
  destruct (load_tasks e s) as [res0 s1] eqn:Hload.
  apply load_tasks_frame in Hload as ((r & l & -> & Hl) & _).
  unfold bind at 1 in Hrun. rewrite Task_init_objects in Hrun.
  destruct (validate_description _) as [descr|]; [|done].
  destruct (validate_category _) as [cat|]; [|done].
  cbn [rbind as_validation frequency due_date] in Hrun.
  unfold bind at 1 in Hrun.
  destruct (tc_frequency task_data) as [f|] eqn:Hf.
  - unfold bind at 1, lift at 1 in Hrun.
    destruct (calculate_next_due_date (tc_due_date task_data) f) as [next|] eqn:Hc;
      [|done].
    unfold ret at 1 in Hrun. erewrite (bind_Ok (append _ _)) in Hrun.
    2:{ apply append_eq. cbn. exact Hl. }
    unfold bind at 1 in Hrun. erewrite save_tasks_eq in Hrun.
    2:{ cbn. by eapply heap_insert_lookup. }
    destruct (writable _); [|done]. injection Hrun as <- _. cbn.
    split; [done|]. split; [done|]. by exists next.
  - unfold ret at 1 in Hrun. erewrite (bind_Ok (append _ _)) in Hrun.
    2:{ apply append_eq. cbn. exact Hl. }
    unfold bind at 1 in Hrun. erewrite save_tasks_eq in Hrun.
    2:{ cbn. by eapply heap_insert_lookup. }
    destruct (writable _); [|done]. by injection Hrun as <- _.
Qed.

Lemma when_some_mutate {A} (o : option A) (g : A → Task → Task) r i e s l t :
  heap s !! r = Some (<[i:=t]> l) → (i < length l)%nat →
  ∃ s2,
    when_some o (λ v, mutate r i (g v)) e s = (Ok tt, s2)
    ∧ heap s2 !! r = Some (<[i:=from_option (λ v, g v t) t o]> l)
    ∧ writable s2 = writable s.
Proof.
  intros Hh Hi. destruct o as [v|]; cbn [when_some from_option].
  - exists (set_heap (<[r:=<[i:=g v t]> (<[i:=t]> l)]> (heap s)) s). split.
    + apply mutate_eq; [done|]. by apply list_lookup_insert_eq.
    + cbn. rewrite list_insert_insert_eq. split; [|done].
      by eapply heap_insert_lookup.
  - by exists s.
Qed.

(** X17.  When the update carries a frequency, the task returned by
    [update_task] has that frequency and its [next_due_date] is the
    next due date computed from its due date, the new one if the update
    carries one too, and that frequency. *)
Lemma update_task_frequency id task_update e s t s' f :
  update_task id task_update e s = (Ok t, s') →
  tu_frequency task_update = Some f →
  frequency t = Some f
  ∧ ∃ next, calculate_next_due_date (due_date t) f = Ok next
            ∧ next_due_date t = Some next.
Proof.
  intros Hrun%except_internal_Ok Hf. unfold update_task in Hrun.
  unfold bind at 1 in Hrun.
  destruct (load_tasks e s) as [res0 s1] eqn:Hload.
  apply load_tasks_frame in Hload as ((r & l & -> & Hl) & _).
  rewrite (bind_Ok _ _ _ _ _ _ (read_list_eq _ _ _ _ Hl)) in Hrun.
  destruct (find_index id l) as [i|] eqn:Hfind; [|done].
  apply find_index_Some in Hfind as (t0 & Hi & _).
  assert (Hlen : (i < length l)%nat) by by eapply lookup_lt_Some.
  rewrite <- (list_insert_id l i t0 Hi) in Hl.
  destruct (when_some_mutate (tu_description task_update) set_description
              r i e s1 l t0 Hl Hlen) as (s2 & Hstep & Hl2 & _).
  rewrite (bind_Ok _ _ _ _ _ _ Hstep) in Hrun. clear Hstep.
  set (t1 := from_option _ t0 (tu_description task_update)) in *.
  destruct (when_some_mutate (tu_category task_update) set_category
              r i e s2 l t1 Hl2 Hlen) as (s3 & Hstep & Hl3 & _).
  rewrite (bind_Ok _ _ _ _ _ _ Hstep) in Hrun. clear Hstep.
  set (t2 := from_option _ t1 (tu_category task_update)) in *.
  destruct (when_some_mutate (tu_due_date task_update) set_due_date
              r i e s3 l t2 Hl3 Hlen) as (s4 & Hstep & Hl4 & _).
  rewrite (bind_Ok _ _ _ _ _ _ Hstep) in Hrun. clear Hstep.
  set (t3 := from_option _ t2 (tu_due_date task_update)) in *.
  rewrite Hf in Hrun. cbn [when_some] in Hrun.
  unfold bind at 1 in Hrun.
  erewrite (bind_Ok (mutate _ _ _)) in Hrun.
  2:{ eapply mutate_eq; [done|]. by apply list_lookup_insert_eq. }
  rewrite list_insert_insert_eq in Hrun.
  erewrite (bind_Ok (get_item _ _)) in Hrun.
  2:{ eapply get_item_eq.
      - cbn. by eapply heap_insert_lookup.
      - by apply list_lookup_insert_eq. }
  change (due_date (set_frequency (Some f) t3)) with (due_date t3) in Hrun.
  unfold bind at 1, lift at 1 in Hrun.
  destruct (calculate_next_due_date (due_date t3) f) as [next|] eqn:Hcalc; [|done].
  erewrite mutate_eq in Hrun.
  2:{ cbn. by eapply heap_insert_lookup. }
  2:{ by apply list_lookup_insert_eq. }
  rewrite list_insert_insert_eq in Hrun.
  set (t4 := set_next_due_date (Some next) (set_frequency (Some f) t3)) in *.
  match type of Hrun with _ e ?st = _ => set (s5 := st) in Hrun end.
  assert (Hl5 : heap s5 !! r = Some (<[i:=t4]> l)).
  { cbn. rewrite list_insert_insert_eq. eapply heap_insert_lookup. exact Hl4. }
  clearbody s5.
  destruct (when_some_mutate (tu_reminders task_update) set_reminders
              r i e s5 l t4 Hl5 Hlen) as (s6 & Hstep & Hl6 & _).
  rewrite (bind_Ok _ _ _ _ _ _ Hstep) in Hrun. clear Hstep.
  set (t5 := from_option _ t4 (tu_reminders task_update)) in *.
  rewrite (bind_Ok _ _ _ _ _ _ (datetime_now_eq _ _)) in Hrun.
  erewrite (bind_Ok (mutate _ _ _)) in Hrun.
  2:{ eapply mutate_eq; [by cbn|]. by apply list_lookup_insert_eq. }
  rewrite list_insert_insert_eq in Hrun.
  unfold bind at 1 in Hrun. erewrite save_tasks_eq in Hrun.
  2:{ cbn. by eapply heap_insert_lookup. }
  destruct (writable _); [|done].
  erewrite get_item_eq in Hrun.
  2:{ cbn. by eapply heap_insert_lookup. }
  2:{ by apply list_lookup_insert_eq. }
  injection Hrun as <- _.
  assert (Hshape : frequency t5 = Some f ∧ next_due_date t5 = Some next
                   ∧ due_date t5 = due_date t3).
  { subst t5 t4. by destruct (tu_reminders task_update). }
  destruct Hshape as (Hfr & Hnd & Hdd). cbn. split; [done|].
  exists next. by rewrite Hdd.
Qed.

(** An empty collection is never served from the cache: the cache test
    takes the empty list for an absent snapshot, so a second load one
    second after the first reads the file again. *)
Example empty_collection_read_again :
  let s0 := mkState 0 0 (Some (DocArray [])) true None 0 [] 0 0 in
  let s1 := snd (load_tasks example_env s0) in
  let s2 := snd (load_tasks example_env s1) in
  reads s1 = 1%nat ∧ reads s2 = 2%nat
  ∧ contents s1 0 = [] ∧ contents s2 1 = [].
Proof. vm_compute. repeat split; reflexivity. Qed.

(** * Further properties of the code *)

(** ** Recurrence *)

Lemma ymd2ord_month_lt a b :
  md_valid a → md_valid b →
  year a * 12 + month a < year b * 12 + month b → ymd2ord a < ymd2ord b.
Proof.
  intros Ha Hb Hlt.
  pose proof (ymd2ord_bounds a Ha) as Hba. pose proof (ymd2ord_bounds b Hb) as Hbb.
  destruct (Z_lt_le_dec (year a) (year b)) as [Hy|Hy].
  - pose proof (days_before_year_mono (year a + 1) (year b)). lia.
  - destruct Ha as [Hma Hda], Hb as [Hmb Hdb].
    assert (year a = year b) as Heq by lia.
    destruct a as [y m dd], b as [y' m' dd']. cbn [year month day] in *. subst y'.
    unfold ymd2ord, days_before_month, days_in_month in *. cbn [year month day] in *.
    destruct (is_leap y); months m; months m'; cbn in *; lia.
Qed.

Lemma datetime_add_days_Ok d n r :
  datetime_add_days d n = Ok r →
  ymd2ord (dt_date r) = ymd2ord (dt_date d) + n ∧ valid_date (dt_date r)
  ∧ dt_time r = dt_time d ∧ dt_utcoffset r = dt_utcoffset d.
Proof.
  unfold datetime_add_days, date_add_days.
  destruct (Z.ltb_spec 0 (ymd2ord (dt_date d) + n)); [|done].
  destruct (Z.leb_spec (ymd2ord (dt_date d) + n) MAXORDINAL); [|done].
  cbn. intros [= <-]. cbn.
  destruct (ymd2ord_ord2ymd (ymd2ord (dt_date d) + n)) as [-> _].
  split; [done|]. split; [|done]. apply ord2ymd_valid. lia.
Qed.

Lemma datetime_replace_day_Ok dt n r :
  datetime_replace_day dt n = Ok r →
  dt_date r = mkdate (year (dt_date dt)) (month (dt_date dt)) n
  ∧ 1 ≤ n ≤ days_in_month (year (dt_date dt)) (month (dt_date dt))
  ∧ dt_time r = dt_time dt ∧ dt_utcoffset r = dt_utcoffset dt.
Proof.
  unfold datetime_replace_day, date_replace_day.
  destruct (Z.leb_spec 1 n); [|done].
  destruct (Z.leb_spec n (days_in_month (year (dt_date dt)) (month (dt_date dt))));
    [|done].
  cbn. intros [= <-]. cbn. repeat split; done.
Qed.

(** Adding years: the month is kept and the day clamped. *)
Lemma date_add_years d i :
  date_add_relativedelta d i 0
  = if (MINYEAR <=? year d + i) && (year d + i <=? MAXYEAR)
    then Ok (mkdate (year d + i) (month d)
                    (Z.min (days_in_month (year d + i) (month d)) (day d)))
    else Raise ValueError.
Proof. reflexivity. Qed.

Lemma datetime_add_relativedelta_Ok d years months r :
  md_valid (dt_date d) → (years = 0 ∧ 1 ≤ months ∨ months = 0) →
  datetime_add_relativedelta d years months = Ok r →
  year (dt_date r) * 12 + month (dt_date r)
  = year (dt_date d) * 12 + month (dt_date d) + years * 12 + months
  ∧ day (dt_date r)
    = Z.min (days_in_month (year (dt_date r)) (month (dt_date r))) (day (dt_date d))
  ∧ valid_date (dt_date r)
  ∧ dt_time r = dt_time d ∧ dt_utcoffset r = dt_utcoffset d.
Proof.
  intros [Hm Hd] Hcases. unfold datetime_add_relativedelta.
  destruct Hcases as [[-> Hmonths] | ->].
  - rewrite date_add_months by done.
    set (idx := year (dt_date d) * 12 + (month (dt_date d) - 1) + months).
    destruct (Z.leb_spec MINYEAR (idx / 12)); [|done].
    destruct (Z.leb_spec (idx / 12) MAXYEAR); [|done].
    cbn. intros [= <-]. cbn.
    assert (Hm' : 1 ≤ idx mod 12 + 1 ≤ 12) by (Z.to_euclidean_division_equations; lia).
    pose proof (days_in_month_bounds (idx / 12) (idx mod 12 + 1) Hm').
    split; [subst idx; Z.to_euclidean_division_equations; lia|].
    split; [done|]. split; [|done].
    repeat split; cbn; lia.
  - rewrite date_add_years.
    destruct (Z.leb_spec MINYEAR (year (dt_date d) + years)); [|done].
    destruct (Z.leb_spec (year (dt_date d) + years) MAXYEAR); [|done].
    cbn. intros [= <-]. cbn.
    pose proof (days_in_month_bounds (year (dt_date d) + years) (month (dt_date d)) Hm).
    split; [lia|]. split; [done|]. split; [|done].
    repeat split; cbn; lia.
Qed.

Lemma weekday_range d : 0 ≤ datetime_weekday d ≤ 6.
Proof.
  unfold datetime_weekday, date_weekday.
  pose proof (Z.mod_pos_bound (ymd2ord (dt_date d) + 6) 7). lia.
Qed.

Lemma instant_lt a b :
  ymd2ord (dt_date a) < ymd2ord (dt_date b) →
  dt_time b = dt_time a → dt_utcoffset b = dt_utcoffset a → instant a < instant b.
Proof. unfold instant, US_PER_DAY. intros ? -> ->. lia. Qed.

Lemma valid_date_md d : valid_date d → md_valid d.
Proof. by intros (_ & ? & ?). Qed.

(** X1.  A recurrence moves forward.  From a date whose month and day
    exist, with an interval of at least 1 and weekday targets in 0..6,
    every next due date that [calculate_next_due_date] returns is a
    valid date strictly after the current due date, at the same time of
    day and with the same UTC offset. *)
Theorem next_due_date_later (d : datetime) (f : Frequency) (next : datetime) :
  md_valid (dt_date d) → 1 ≤ interval f →
  (∀ days t, days_of_week f = Some days → t ∈ days → 0 ≤ t ≤ 6) →
  calculate_next_due_date d f = Ok next →
  instant d < instant next ∧ valid_date (dt_date next)
  ∧ dt_time next = dt_time d ∧ dt_utcoffset next = dt_utcoffset d.
Proof.
  intros Hd Hi Hdays. unfold calculate_next_due_date.
  assert (Hadd : ∀ n, 1 ≤ n → datetime_add_days d n = Ok next →
            instant d < instant next ∧ valid_date (dt_date next)
            ∧ dt_time next = dt_time d ∧ dt_utcoffset next = dt_utcoffset d).
  { intros n Hn (Ho & Hv & Ht & Hu)%datetime_add_days_Ok.
    split; [apply instant_lt; [lia|done..]|done]. }
  assert (Hmonths : ∀ r : datetime,
            md_valid (dt_date r) →
            year (dt_date d) * 12 + month (dt_date d)
              < year (dt_date r) * 12 + month (dt_date r) →
            dt_time r = dt_time d → dt_utcoffset r = dt_utcoffset d →
            instant d < instant r).
  { intros r Hr Hlt Ht Hu. apply instant_lt; [|done..]. by apply ymd2ord_month_lt. }
  destruct (String.eqb (type f) "daily"); [by apply Hadd|].
  destruct (String.eqb (type f) "weekly").
  { destruct (days_of_week f) as [days|] eqn:Hdow; cbn [truthy_list];
      [destruct days as [|t0 days'] eqn:Hdays'|]; try (apply Hadd; lia).
    rewrite <- Hdays'. cbn [from_option]. unfold id.
    pose proof (weekday_range d) as Hcw. apply Hadd.
    destruct (find _ (sorted days)) as [day|] eqn:Hfind.
    - apply find_some in Hfind as [_ Hlt%Z.ltb_lt]. lia.
    - destruct (sorted days) as [|h tl] eqn:Hs; cbn [head from_option].
      + assert (t0 ∈ sorted days) as Hin by (rewrite sorted_elem_of, Hdays'; left).
        rewrite Hs in Hin. by apply elem_of_nil in Hin.
      + assert (h ∈ days) as Hin by (rewrite <- sorted_elem_of, Hs; left).
        rewrite Hdays' in Hin. specialize (Hdays _ h eq_refl Hin). unfold id. lia. }
  destruct (String.eqb (type f) "monthly").
  { destruct (datetime_add_relativedelta d 0 (interval f)) as [nd|] eqn:Hnd; [|done].
    apply datetime_add_relativedelta_Ok in Hnd as (Hidx & Hday & Hv & Ht & Hu);
      [|done|left; lia].
    cbn [rbind].
    assert (Hrep : ∀ n, datetime_replace_day nd n = Ok next →
              instant d < instant next ∧ valid_date (dt_date next)
              ∧ dt_time next = dt_time d ∧ dt_utcoffset next = dt_utcoffset d).
    { intros n (Hdate & Hn & Ht' & Hu')%datetime_replace_day_Ok.
      assert (Hvn : valid_date (dt_date next)).
      { rewrite Hdate. destruct Hv as (? & ? & _). repeat split; cbn; lia. }
      split; [|split; [exact Hvn|split; congruence]].
      apply Hmonths; [by apply valid_date_md| |congruence..].
      rewrite Hdate. cbn. lia. }
    destruct (truthy_int (day_of_month f)).
    - destruct (datetime_replace_day nd _) as [r|[]] eqn:Hr; try done.
      + intros [= <-]. by eapply Hrep.
      + destruct (datetime_add_relativedelta nd 0 1); [|done]. cbn [rbind].
        destruct (datetime_replace_day _ 1); [|done]. cbn [rbind].
        destruct (datetime_add_days _ (-1)); [|done]. cbn [rbind]. apply Hrep.
    - intros [= <-]. split; [|done].
      apply Hmonths; [by apply valid_date_md|lia|done..]. }
  destruct (String.eqb (type f) "yearly"); [|done].
  intros (Hidx & Hday & Hv & Ht & Hu)%datetime_add_relativedelta_Ok; [|done|by right].
  split; [|done]. apply Hmonths; [by apply valid_date_md|lia|done..].
Qed.

Lemma next_due_date_later_witness :
  instant example_january_31 < instant (mkdatetime (mkdate 2024 2 29) 32400000000 0).
Proof.
  refine (proj1 (next_due_date_later example_january_31
                   (mkFrequency "monthly" 1 None (Some 31))
                   (mkdatetime (mkdate 2024 2 29) 32400000000 0) _ _ _ _)).
  - vm_compute. repeat split; discriminate.
  - cbn. lia.
  - intros days t [=].
  - vm_compute. reflexivity.
Defined.

(** X2.  Daily recurrence: the next due date is exactly [interval] days
    after the current one, at the same time of day and with the same UTC
    offset, when that day is within the years 1..9999; otherwise the
    calculation raises [OverflowError]. *)
Theorem daily_next_due (d : datetime) (f : Frequency) :
  type f = "daily" →
  (1 ≤ ymd2ord (dt_date d) + interval f ≤ MAXORDINAL →
     ∃ next, calculate_next_due_date d f = Ok next
       ∧ ymd2ord (dt_date next) = ymd2ord (dt_date d) + interval f
       ∧ instant next = instant d + interval f * US_PER_DAY
       ∧ dt_time next = dt_time d ∧ dt_utcoffset next = dt_utcoffset d)
  ∧ (¬ 1 ≤ ymd2ord (dt_date d) + interval f ≤ MAXORDINAL →
     calculate_next_due_date d f = Raise OverflowError).
Proof.
  intros Hty. unfold calculate_next_due_date. rewrite Hty.
  change ("daily" =? "daily")%string with true. cbv beta iota.
  split.
  - intros Hr. rewrite datetime_add_days_in by done.
    eexists. split; [done|]. unfold instant, set_date. cbn.
    destruct (ymd2ord_ord2ymd (ymd2ord (dt_date d) + interval f)) as [-> _].
    repeat split; lia.
  - intros Hr. unfold datetime_add_days, date_add_days.
    destruct (Z.ltb_spec 0 (ymd2ord (dt_date d) + interval f));
      destruct (Z.leb_spec (ymd2ord (dt_date d) + interval f) MAXORDINAL);
      try done. lia.
Qed.

Lemma daily_next_due_witness :
  ∃ next, calculate_next_due_date example_thursday (mkFrequency "daily" 3 None None)
          = Ok next
    ∧ ymd2ord (dt_date next) = ymd2ord (dt_date example_thursday) + 3.
Proof.
  destruct (proj1 (daily_next_due example_thursday (mkFrequency "daily" 3 None None)
                     eq_refl))
    as (next & Hnext & Hord & _).
  - vm_compute. split; discriminate.
  - exists next. split; [exact Hnext|exact Hord].
Defined.

(** X3.  Weekly recurrence without target weekdays, [days_of_week]
    being absent or empty: the next due date is [7 * interval] days
    after the current one and falls on the same weekday, at the same
    time of day. *)
Theorem weekly_interval_next_due (d : datetime) (f : Frequency) :
  type f = "weekly" → days_of_week f = None ∨ days_of_week f = Some [] →
  1 ≤ ymd2ord (dt_date d) + 7 * interval f ≤ MAXORDINAL →
  ∃ next, calculate_next_due_date d f = Ok next
    ∧ ymd2ord (dt_date next) = ymd2ord (dt_date d) + 7 * interval f
    ∧ datetime_weekday next = datetime_weekday d
    ∧ dt_time next = dt_time d ∧ dt_utcoffset next = dt_utcoffset d.
Proof.
  intros Hty Hdow Hr. unfold calculate_next_due_date. rewrite Hty.
  change ("weekly" =? "daily")%string with false.
  change ("weekly" =? "weekly")%string with true. cbv beta iota.
  assert (truthy_list (days_of_week f) = false) as -> by by destruct Hdow as [-> | ->].
  destruct (datetime_add_days d (7 * interval f)) as [next|] eqn:Hadd.
  - exists next. split; [done|].
    destruct (weekday_add_days _ _ _ Hadd) as (Hwd & Ho & Ht & Hu).
    repeat split; try done. rewrite Hwd.
    pose proof (weekday_range d). Z.to_euclidean_division_equations; lia.
  - by rewrite datetime_add_days_in in Hadd.
Qed.

Lemma weekly_interval_next_due_witness :
  ∃ next, calculate_next_due_date example_thursday (mkFrequency "weekly" 2 (Some []) None)
          = Ok next
    ∧ datetime_weekday next = 3 ∧ dt_date next = mkdate 2024 1 18.
Proof.
  destruct (weekly_interval_next_due example_thursday
              (mkFrequency "weekly" 2 (Some []) None) eq_refl)
    as (next & Hnext & Hord & Hwd & _).
  - right. reflexivity.
  - vm_compute. split; discriminate.
  - exists next. split; [exact Hnext|]. split; [exact Hwd|].
    assert (Hcalc : calculate_next_due_date example_thursday
                      (mkFrequency "weekly" 2 (Some []) None)
                    = Ok (mkdatetime (mkdate 2024 1 18) 32400000000 0))
      by (vm_compute; reflexivity).
    rewrite Hcalc in Hnext. by injection Hnext as <-.
Defined.

(** X4.  Yearly recurrence from a valid date: the next due date is in
    the year [interval] years later, in the same month and on the same
    day, except that 29 February becomes 28 February when the target
    year is not a leap year; a target year after 9999 raises
    [ValueError]. *)
Theorem yearly_next_due (d : datetime) (f : Frequency) :
  type f = "yearly" → valid_date (dt_date d) → 0 ≤ interval f →
  let y' := year (dt_date d) + interval f in
  (y' ≤ MAXYEAR →
     ∃ next, calculate_next_due_date d f = Ok next
       ∧ year (dt_date next) = y' ∧ month (dt_date next) = month (dt_date d)
       ∧ day (dt_date next)
         = (if (month (dt_date d) =? 2) && (day (dt_date d) =? 29)
               && negb (is_leap y')
            then 28 else day (dt_date d))
       ∧ dt_time next = dt_time d ∧ dt_utcoffset next = dt_utcoffset d)
  ∧ (MAXYEAR < y' → calculate_next_due_date d f = Raise ValueError).
Proof.
  destruct d as [[y m dd] tm off]. cbn [dt_date year month day dt_time dt_utcoffset].
  intros Hty (Hy & Hm & Hd) Hi. cbn [year month day] in *.
  set (y' := y + interval f).
  unfold calculate_next_due_date. rewrite Hty.
  change ("yearly" =? "daily")%string with false.
  change ("yearly" =? "weekly")%string with false.
  change ("yearly" =? "monthly")%string with false.
  change ("yearly" =? "yearly")%string with true. cbv beta iota.
  unfold datetime_add_relativedelta. rewrite date_add_years.
  cbn [dt_date year month day]. fold y'.
  unfold MINYEAR, MAXYEAR in *.
  assert (Hy' : 1 ≤ y') by (subst y'; lia). clearbody y'.
  split.
  - intros Hmax. destruct (Z.leb_spec 1 y'); [|lia].
    destruct (Z.leb_spec y' 9999); [|lia]. cbn.
    eexists. split; [done|]. cbn. repeat split.
    revert Hd. unfold days_in_month.
    destruct (is_leap y'), (is_leap y); months m; cbn; bool_to_Z; lia.
  - intros Hmax. destruct (Z.leb_spec y' 9999); [lia|]. by rewrite andb_false_r.
Qed.

Lemma yearly_next_due_witness :
  ∃ next, calculate_next_due_date (mkdatetime (mkdate 2024 2 29) 0 0)
            (mkFrequency "yearly" 1 None None) = Ok next
    ∧ year (dt_date next) = 2025 ∧ month (dt_date next) = 2 ∧ day (dt_date next) = 28.
Proof.
  destruct (proj1 (yearly_next_due (mkdatetime (mkdate 2024 2 29) 0 0)
                     (mkFrequency "yearly" 1 None None) eq_refl
                     ltac:(vm_compute; repeat split; discriminate)
                     ltac:(cbn; lia)))
    as (next & Hnext & Hy & Hm & Hd & _).
  - vm_compute. discriminate.
  - exists next. split; [exact Hnext|]. split; [exact Hy|]. split; [exact Hm|exact Hd].
Defined.

(** ** Sanitization *)

Lemma prefix_cons a p b s :
  String.prefix (String a p) (String b s) = true ↔ a = b ∧ String.prefix p s = true.
Proof.
  cbn. destruct (ascii_dec a b) as [->|Hne]; [tauto|].
  split; [done|]. by intros [? _].
Qed.

Lemma prefix_nil_r p : String.prefix p "" = true → p = "".
Proof. by destruct p. Qed.

Lemma append_String c a b : String c a +:+ b = String c (a +:+ b).
Proof. reflexivity. Qed.

Lemma str_all_app f a b : str_all f (a +:+ b) = str_all f a && str_all f b.
Proof.
  induction a as [|c a IH]; [done|]. rewrite append_String. cbn [str_all].
  by rewrite IH, andb_assoc.
Qed.

Lemma str_all_filter f s : str_all f (str_filter f s) = true.
Proof.
  induction s as [|c s IH]; [done|]. cbn. destruct (f c) eqn:Hc; [|done].
  cbn. by rewrite Hc.
Qed.

Lemma str_filter_all f s : str_all f s = true → str_filter f s = s.
Proof.
  induction s as [|c s IH]; [done|]. cbn. intros [-> Hs]%andb_true_iff.
  by rewrite IH.
Qed.

Lemma str_all_filter_other f g s : str_all f s = true → str_all f (str_filter g s) = true.
Proof.
  induction s as [|c s IH]; [done|]. cbn. intros [Hc Hs]%andb_true_iff.
  destruct (g c); [|by apply IH]. cbn. by rewrite Hc, IH.
Qed.

Lemma str_all_replace_from f old new k s :
  str_all f new = true → str_all f s = true →
  str_all f (replace_from old new k s) = true.
Proof.
  intros Hnew. revert k. induction s as [|c s IH]; intros k; [done|].
  cbn [str_all replace_from]. intros [Hc Hs]%andb_true_iff.
  destruct k as [|k]; [|by apply IH].
  destruct (String.prefix old (String c s)).
  - rewrite str_all_app, Hnew. by apply IH.
  - cbn. rewrite Hc. by apply IH.
Qed.

Lemma str_all_lstrip f s : str_all f s = true → str_all f (lstrip s) = true.
Proof.
  induction s as [|c s IH]; [done|]. cbn [lstrip].
  destruct (isspace c); [|done]. cbn. intros [_ Hs]%andb_true_iff. by apply IH.
Qed.

Lemma str_all_rstrip f s : str_all f s = true → str_all f (rstrip s) = true.
Proof.
  induction s as [|c s IH]; [done|]. cbn [rstrip str_all].
  intros [Hc Hs]%andb_true_iff. specialize (IH Hs).
  destruct (rstrip s) as [|c' r].
  - destruct (isspace c); [done|]. cbn. by rewrite Hc.
  - cbn [str_all]. by rewrite Hc.
Qed.

Lemma str_all_strip f s : str_all f s = true → str_all f (strip s) = true.
Proof. intros H. by apply str_all_rstrip, str_all_lstrip. Qed.

(** [strip] is idempotent. *)
Lemma rstrip_rstrip s : rstrip (rstrip s) = rstrip s.
Proof.
  induction s as [|c s IH]; [done|]. cbn [rstrip].
  destruct (rstrip s) as [|c' r] eqn:Hr.
  - destruct (isspace c) eqn:Hc; [done|]. cbn. by rewrite Hc.
  - cbn [rstrip] in *. by rewrite IH.
Qed.

Lemma lstrip_fixed s :
  match s with String c _ => isspace c = false | EmptyString => True end →
  lstrip s = s.
Proof. destruct s as [|c s]; [done|]. cbn. by intros ->. Qed.

Lemma lstrip_head s :
  match lstrip s with String c _ => isspace c = false | EmptyString => True end.
Proof.
  induction s as [|c s IH]; [done|]. cbn. by destruct (isspace c) eqn:Hc.
Qed.

Lemma rstrip_head s :
  match s with String c _ => isspace c = false | EmptyString => True end →
  match rstrip s with String c _ => isspace c = false | EmptyString => True end.
Proof.
  destruct s as [|c s]; [done|]. cbn [rstrip]. intros Hc.
  destruct (rstrip s); [by rewrite Hc|done].
Qed.

Lemma strip_strip s : strip (strip s) = strip s.
Proof.
  unfold strip. rewrite (lstrip_fixed (rstrip (lstrip s))).
  - apply rstrip_rstrip.
  - apply rstrip_head, lstrip_head.
Qed.

Lemma length_str_filter f s : (String.length (str_filter f s) ≤ String.length s)%nat.
Proof. induction s as [|c s IH]; [done|]. cbn. destruct (f c); cbn; lia. Qed.

Lemma length_lstrip s : (String.length (lstrip s) ≤ String.length s)%nat.
Proof. induction s as [|c s IH]; [done|]. cbn. destruct (isspace c); cbn; lia. Qed.

Lemma length_rstrip s : (String.length (rstrip s) ≤ String.length s)%nat.
Proof.
  induction s as [|c s IH]; [done|]. cbn [rstrip].
  destruct (rstrip s); [destruct (isspace c)|]; cbn in *; lia.
Qed.

Lemma length_strip s : (String.length (strip s) ≤ String.length s)%nat.
Proof.
  unfold strip. pose proof (length_rstrip (lstrip s)). pose proof (length_lstrip s). lia.
Qed.

(** Occurrences of a text. *)
Lemma any_suffix_mono (f g : string → bool) s :
  (∀ t, g t = true → f t = true) → any_suffix f s = false → any_suffix g s = false.
Proof.
  intros Hfg. induction s as [|c s IH]; cbn.
  - rewrite !orb_false_r. intros Hf. destruct (g "") eqn:Hg; [|done].
    apply Hfg in Hg. congruence.
  - intros [Hf Hs]%orb_false_iff. rewrite (IH Hs), orb_false_r.
    destruct (g (String c s)) eqn:Hg; [|done]. apply Hfg in Hg. congruence.
Qed.

Lemma any_suffix_never s : any_suffix (λ _, false) s = false.
Proof. induction s as [|c s IH]; [done|]. cbn. exact IH. Qed.

(** Replacement leaves no occurrence of a text [sub] when [sub] begins
    with a character that the new text does not have, and the new text
    begins with a character that [sub] does not have: an occurrence in
    the result would be one in the original that was not replaced. *)
Lemma prefix_replace_from old n0 nrest q s :
  str_all (λ c, negb (Ascii.eqb c n0)) q = true →
  String.prefix q (replace_from old (String n0 nrest) 0 s) = true →
  String.prefix q s = true.
Proof.
  revert s. induction q as [|a q IH]; intros s Hq; [by destruct s|].
  cbn [str_all] in Hq. apply andb_true_iff in Hq as [Ha Hq].
  destruct s as [|c s]; [done|]. cbn [replace_from].
  destruct (String.prefix old (String c s)) eqn:Hold.
  - rewrite append_String. intros [-> _]%prefix_cons.
    by rewrite Ascii.eqb_refl in Ha.
  - intros [-> Hp]%prefix_cons. apply prefix_cons. split; [done|]. by apply IH.
Qed.

Lemma occurs_app_skip c0 prest a s :
  str_all (λ c, negb (Ascii.eqb c c0)) a = true →
  occurs (String c0 prest) (a +:+ s) = occurs (String c0 prest) s.
Proof.
  induction a as [|c a IH]; [done|]. cbn [str_all].
  intros [Hc Ha]%andb_true_iff.
  unfold occurs in *. rewrite append_String. cbn [any_suffix].
  rewrite IH by done.
  destruct (String.prefix (String c0 prest) (String c (a +:+ s))) eqn:Hp; [|done].
  apply prefix_cons in Hp as [-> _]. by rewrite Ascii.eqb_refl in Hc.
Qed.

Lemma occurs_replace_from c0 prest old n0 nrest k s :
  str_all (λ c, negb (Ascii.eqb c c0)) (String n0 nrest) = true →
  str_all (λ c, negb (Ascii.eqb c n0)) (String c0 prest) = true →
  any_suffix (λ t, String.prefix (String c0 prest) t && negb (String.prefix old t)) s
  = false →
  occurs (String c0 prest) (replace_from old (String n0 nrest) k s) = false.
Proof.
  intros Hsub Hnew.
  revert k. induction s as [|c s IH]; intros k; [done|].
  cbn [any_suffix]. intros [Hg Hs]%orb_false_iff.
  destruct k as [|k]; [|cbn [replace_from]; by apply IH].
  cbn [replace_from].
  destruct (String.prefix old (String c s)) eqn:Hold.
  - rewrite occurs_app_skip by done. by apply IH.
  - unfold occurs. cbn [any_suffix].
    change (any_suffix (String.prefix (String c0 prest)) (replace_from old ?n 0 s))
      with (occurs (String c0 prest) (replace_from old n 0 s)).
    rewrite (IH 0%nat Hs), orb_false_r.
    destruct (String.prefix (String c0 prest)
                (String c (replace_from old (String n0 nrest) 0 s))) eqn:Hp; [|done].
    assert (Hp' : String.prefix (String c0 prest)
                    (replace_from old (String n0 nrest) 0 (String c s)) = true)
      by (cbn [replace_from]; by rewrite Hold).
    apply prefix_replace_from in Hp'; [|done].
    by rewrite Hp' in Hg.
Qed.

Lemma occurs_replace c0 prest n0 nrest s :
  str_all (λ c, negb (Ascii.eqb c c0)) (String n0 nrest) = true →
  str_all (λ c, negb (Ascii.eqb c n0)) (String c0 prest) = true →
  occurs (String c0 prest) (replace s (String c0 prest) (String n0 nrest)) = false.
Proof.
  intros Hsub Hnew. apply occurs_replace_from; [done..|].
  apply (any_suffix_mono (λ _, false)); [|apply any_suffix_never].
  intros t. by destruct (String.prefix (String c0 prest) t).
Qed.

Lemma occurs_replace_other c0 prest old n0 nrest s :
  str_all (λ c, negb (Ascii.eqb c c0)) (String n0 nrest) = true →
  str_all (λ c, negb (Ascii.eqb c n0)) (String c0 prest) = true →
  occurs (String c0 prest) s = false →
  occurs (String c0 prest) (replace s old (String n0 nrest)) = false.
Proof.
  intros Hsub Hnew Hs. apply occurs_replace_from; [done..|].
  apply (any_suffix_mono (String.prefix (String c0 prest))); [|done].
  by intros t [? _]%andb_true_iff.
Qed.

(** A text that does not occur is not replaced. *)
Lemma replace_absent s old new :
  old ≠ "" → occurs old s = false → replace s old new = s.
Proof.
  intros Hne. unfold replace, occurs.
  induction s as [|c s IH]; [done|]. cbn [any_suffix replace_from].
  intros [-> Hs]%orb_false_iff. by rewrite IH.
Qed.

(** Stripping yields a part of the string. *)
Lemma occurs_lstrip sub s : occurs sub (lstrip s) = true → occurs sub s = true.
Proof.
  unfold occurs. induction s as [|c s IH]; [done|]. cbn [lstrip].
  destruct (isspace c); [|done]. intros H%IH. cbn [any_suffix]. rewrite H.
  apply orb_true_r.
Qed.

Lemma rstrip_prefix s : ∃ w, s = rstrip s +:+ w.
Proof.
  induction s as [|c s [w IH]]; [by exists ""|]. cbn [rstrip].
  destruct (rstrip s) as [|c' r] eqn:Hr.
  - destruct (isspace c).
    + by exists (String c s).
    + exists w. rewrite append_String. by rewrite <- IH.
  - exists w. rewrite append_String. by rewrite <- IH.
Qed.

Lemma prefix_app p a w : String.prefix p a = true → String.prefix p (a +:+ w) = true.
Proof.
  revert a. induction p as [|c p IH]; intros a; [by destruct (a +:+ w)|].
  destruct a as [|c' a]; [done|]. rewrite append_String.
  intros [-> Hp]%prefix_cons. apply prefix_cons. split; [done|]. by apply IH.
Qed.

Lemma occurs_app_l sub a w : occurs sub a = true → occurs sub (a +:+ w) = true.
Proof.
  unfold occurs. induction a as [|c a IH].
  - cbn. rewrite orb_false_r. intros ->%prefix_nil_r. by destruct w.
  - rewrite append_String. cbn [any_suffix].
    intros [Hp|Hs]%orb_true_iff.
    + apply (prefix_app _ _ w) in Hp. rewrite append_String in Hp. by rewrite Hp.
    + rewrite (IH Hs). apply orb_true_r.
Qed.

Lemma occurs_strip sub s : occurs sub s = false → occurs sub (strip s) = false.
Proof.
  intros Hs. destruct (occurs sub (strip s)) eqn:H; [|done].
  unfold strip in H. destruct (rstrip_prefix (lstrip s)) as [w Hw].
  apply (occurs_app_l _ _ w) in H. rewrite <- Hw in H.
  apply occurs_lstrip in H. congruence.
Qed.

(** A description that is already sanitized is left as it is. *)
Lemma sanitize_description_fixed v :
  v ≠ "" → str_all description_char v = true →
  occurs "<script" v = false → occurs "</script>" v = false → strip v = v →
  sanitize_description v = Ok v.
Proof.
  intros Hne Hall Ho2 Ho3 Hstrip. unfold sanitize_description.
  assert (truthy_str v = true) as -> by by destruct v.
  cbn [negb]. f_equal.
  change (str_filter _ v) with (str_filter description_char v).
  rewrite (str_filter_all _ _ Hall).
  rewrite (replace_absent _ "<script") by done.
  by rewrite (replace_absent _ "</script>") by done.
Qed.

Lemma sanitize_description_Ok v s :
  sanitize_description v = Ok s →
  str_all description_char s = true
  ∧ occurs "<script" s = false ∧ occurs "</script>" s = false ∧ strip s = s.
Proof.
  unfold sanitize_description. destruct (truthy_str v); [|done]. cbn [negb].
  intros [= <-].
  set (s1 := str_filter _ v).
  set (s2 := replace s1 "<script" "&lt;script").
  set (s3 := replace s2 "</script>" "&lt;/script&gt;").
  assert (H1 : str_all description_char s3 = true).
  { apply str_all_replace_from; [done|]. apply str_all_replace_from; [done|].
    apply str_all_filter. }
  assert (H2 : occurs "<script" s3 = false).
  { apply occurs_replace_other; [done..|]. by apply occurs_replace. }
  assert (H3 : occurs "</script>" s3 = false) by by apply occurs_replace.
  split; [by apply str_all_strip|]. split; [by apply occurs_strip|].
  split; [by apply occurs_strip|apply strip_strip].
Qed.



(** X6.  Sanitizing is idempotent: a description returned by
    [sanitize_description], unless it is empty, is returned unchanged
    when sanitized again. *)
Theorem sanitize_description_idempotent (v s : string) :
  sanitize_description v = Ok s → s ≠ "" → sanitize_description s = Ok s.
Proof.
  intros (Hall & Ho2 & Ho3 & Hstrip)%sanitize_description_Ok Hne.
  by apply sanitize_description_fixed.
Qed.

Lemma sanitize_description_idempotent_witness :
  sanitize_description "&lt;script>alert(1)&lt;/script&gt;hello"
  = Ok "&lt;script>alert(1)&lt;/script&gt;hello".
Proof.
  apply (sanitize_description_idempotent " <script>alert(1)</script>hello ").
  - vm_compute. reflexivity.
  - discriminate.
Defined.

(** A category that is already sanitized is left as it is. *)
Lemma sanitize_category_fixed v :
  v ≠ "" → str_all category_char v = true → strip v = v → sanitize_category v = v.
Proof.
  intros Hne Hall Hstrip. unfold sanitize_category.
  change (str_filter _ v) with (str_filter category_char v).
  rewrite (str_filter_all _ _ Hall), Hstrip.
  by assert (truthy_str v = true) as -> by by destruct v.
Qed.

Lemma sanitize_category_shape v :
  sanitize_category v ≠ "" ∧ str_all category_char (sanitize_category v) = true
  ∧ strip (sanitize_category v) = sanitize_category v
  ∧ len (sanitize_category v) ≤ Z.max (len v) 7.
Proof.
  unfold sanitize_category.
  change (str_filter _ v) with (str_filter category_char v).
  set (c := strip (str_filter category_char v)).
  destruct (truthy_str c) eqn:Ht.
  - split; [by destruct c|]. split; [apply str_all_strip, str_all_filter|].
    split; [apply strip_strip|].
    pose proof (length_strip (str_filter category_char v)).
    pose proof (length_str_filter category_char v). unfold len. subst c. lia.
  - split; [done|]. split; [done|]. split; [done|]. unfold len at 1. cbn. lia.
Qed.

(** X7.  The category field accepts a text of at most 50 characters and
    rejects a longer one.  The category it yields is never empty, has at
    most 50 characters, all of them letters, digits, [_], [-], [.] or
    spaces, has no white space at either end, and is left unchanged when
    validated again. *)
Theorem validate_category_shape (v : string) :
  (50 < len v → validate_category v = Raise ValidationError)
  ∧ (len v ≤ 50 →
     ∃ c, validate_category v = Ok c
       ∧ c ≠ "" ∧ len c ≤ 50 ∧ str_all category_char c = true ∧ strip c = c
       ∧ validate_category c = Ok c).
Proof.
  unfold validate_category. split.
  - intros Hlen. by destruct (Z.ltb_spec 50 (len v)); [|lia].
  - intros Hlen. destruct (Z.ltb_spec 50 (len v)); [lia|].
    destruct (sanitize_category_shape v) as (Hne & Hall & Hstrip & Hl).
    exists (sanitize_category v). split; [done|]. split; [done|].
    split; [lia|]. split; [done|]. split; [done|].
    destruct (Z.ltb_spec 50 (len (sanitize_category v))); [lia|].
    by rewrite sanitize_category_fixed.
Qed.

Lemma validate_category_shape_witness :
  ∃ c, validate_category "  Home & <Garden>  " = Ok c ∧ c = "Home  Garden"
       ∧ validate_category c = Ok c.
Proof.
  destruct (proj2 (validate_category_shape "  Home & <Garden>  "))
    as (c & Hc & _ & _ & _ & _ & Hcc).
  - vm_compute. discriminate.
  - exists c. split; [exact Hc|]. split; [|exact Hcc].
    vm_compute in Hc. by injection Hc as <-.
Defined.

(** ** Round trips through the file *)

Lemma parse_datetime_isoformat dt : parse_datetime (isoformat dt) = Ok dt.
Proof. by destruct dt. Qed.

Lemma optional_datetime_isoformat o : optional_datetime (isoformat <$> o) = Ok o.
Proof. by destruct o as [[]|]. Qed.

Lemma Frequency_init_dict f :
  well_formed_frequency f → Frequency_init (FrequencyOfDict (Frequency_dict f)) = Ok f.
Proof.
  intros (Hty & Hi & Hdom). destruct f as [ty iv dow dom]. cbn in *.
  rewrite Hty. cbn [negb].
  destruct (Z.ltb_spec iv 1); [lia|]. destruct (Z.ltb_spec 365 iv); [lia|].
  cbn [orb]. destruct dom as [n|]; [|done].
  specialize (Hdom n eq_refl).
  destruct (Z.ltb_spec n 1); [lia|]. by destruct (Z.ltb_spec 31 n); [lia|].
Qed.

Lemma Reminder_init_dict r e s :
  0 ≤ time_before r → Reminder_init (ReminderOfDict (Reminder_dict r)) e s = (Ok r, s).
Proof.
  intros Hr. destruct r as [id tb msg snt]. cbn in *.
  unfold bind, ret. by destruct (Z.ltb_spec tb 0); [lia|].
Qed.

Lemma mapM_attempt_dicts rs e s :
  Forall (λ r, 0 ≤ time_before r) rs →
  mapM (λ v, attempt (Reminder_init v)) (ReminderOfDict ∘ Reminder_dict <$> rs) e s
  = (Ok (Ok <$> rs), s).
Proof.
  induction 1 as [|r rs Hr _ IH]; [done|]. rewrite !fmap_cons. cbn [mapM].
  rewrite (bind_Ok _ _ _ _ (Ok r) s).
  - by rewrite (bind_Ok _ _ _ _ _ _ IH).
  - unfold attempt, compose. by rewrite Reminder_init_dict.
Qed.

Lemma validate_description_fixed v :
  sanitized_description v → validate_description v = Ok v.
Proof.
  intros (Hne & Hlen & Hall & Ho2 & Ho3 & Hstrip). unfold validate_description.
  assert (1 ≤ len v) by (destruct v; [done|]; unfold len; cbn; lia).
  destruct (Z.ltb_spec (len v) 1); [lia|]. destruct (Z.ltb_spec 500 (len v)); [lia|].
  by rewrite sanitize_description_fixed.
Qed.

Lemma validate_category_fixed v :
  sanitized_category v → validate_category v = Ok v.
Proof.
  intros (Hne & Hlen & Hall & Hstrip). unfold validate_category.
  destruct (Z.ltb_spec 50 (len v)); [lia|]. by rewrite sanitize_category_fixed.
Qed.

Lemma parse_timestamp_isoformat ts :
  whole_minutes ts → parse_timestamp (timestamp_isoformat ts) = Ok ts.
Proof.
  unfold whole_minutes, timestamp_isoformat. intros H.
  destruct (ts_utcoffset ts) as [offset|]; [|done].
  by rewrite (H offset eq_refl).
Qed.

Lemma Task_init_Task_dict t e s :
  storable t → Task_init (Task_dict t) e s = (Ok t, s).
Proof.
  intros (Hd & Hc & Hf & Hr & Hca & Hua). unfold Task_init, Task_dict.
  cbn [td_id td_description td_category td_due_date td_completed td_completed_at
       td_frequency td_next_due_date td_reminders td_created_at td_updated_at
       from_option].
  rewrite (bind_Ok _ _ e s (task_id t) s) by reflexivity.
  unfold id. rewrite (bind_Ok _ _ _ _ _ _ (mapM_attempt_dicts _ e s Hr)).
  rewrite !parse_datetime_isoformat, !optional_datetime_isoformat.
  rewrite (parse_timestamp_isoformat _ Hca), (parse_timestamp_isoformat _ Hua).
  rewrite (bind_Ok _ _ e s (Ok (created_at t)) s) by reflexivity.
  rewrite (bind_Ok _ _ e s (Ok (updated_at t)) s) by reflexivity.
  unfold lift. f_equal.
  rewrite (validate_description_fixed _ Hd), (validate_category_fixed _ Hc).
  rewrite sequence_results_Ok. cbn [rbind as_validation].
  destruct (frequency t) as [f|] eqn:Hfr; cbn [fmap option_fmap option_map compose].
  - rewrite (Frequency_init_dict f) by by apply Hf.
    cbn. destruct t; cbn in *. by subst.
  - cbn. destruct t; cbn in *. by subst.
Qed.

(** X8.  Round trip of one record.  The record that [save_tasks] writes
    for a task whose fields are in validated form is read back by [Task]
    as that very task, and reading it draws neither an identifier nor a
    clock reading. *)
Theorem Task_of_item_Task_dict (t : Task) (e : Env) (s : State) :
  storable t → Task_of_item (ItemDict (Task_dict t)) e s = (Ok t, s).
Proof. apply Task_init_Task_dict. Qed.

Lemma load_items_Task_dict l e s :
  Forall storable l → load_items (ItemDict ∘ Task_dict <$> l) e s = (Ok l, s).
Proof.
  induction 1 as [|t l Ht _ IH]; [done|]. rewrite fmap_cons. cbn [load_items].
  rewrite (bind_Ok _ _ _ _ (Ok t) s).
  - by rewrite (bind_Ok _ _ _ _ _ _ IH).
  - unfold attempt, compose. cbn [Task_of_item]. by rewrite Task_init_Task_dict.
Qed.

Lemma Task_of_item_Task_dict_witness :
  Task_of_item (ItemDict (Task_dict task_daily)) example_env empty_state
  = (Ok task_daily, empty_state).
Proof.
  apply Task_of_item_Task_dict.
  split; [|split; [|split; [|split; [|split]]]].
  - vm_compute. repeat split; discriminate.
  - vm_compute. repeat split; discriminate.
  - intros f [= <-]. split; [reflexivity|]. split; [cbn; lia|]. intros n [=].
  - repeat constructor. cbn. lia.
  - intros offset [= <-]. reflexivity.
  - intros offset [= <-]. reflexivity.
Defined.

(** X9.  Round trip through the file.  Saving a collection of tasks
    whose fields are in validated form succeeds when the file can be
    written, and the load that follows reads the file again, the cache
    having been dropped, and returns a new list with the same tasks in
    the same order, which it caches. *)
Theorem save_tasks_load_tasks (r : nat) (l : list Task) (e : Env) (s : State) :
  heap s !! r = Some l → writable s = true → Forall storable l →
  ∃ s1 s2,
    save_tasks r e s = (Ok true, s1)
    ∧ load_tasks e s1 = (Ok (length (heap s)), s2)
    ∧ contents s2 (length (heap s)) = l ∧ contents s2 r = l
    ∧ file s2 = Some (DocArray (ItemDict ∘ Task_dict <$> l))
    ∧ reads s2 = S (reads s) ∧ writes s2 = S (writes s)
    ∧ cache_data s2 = Some (length (heap s)).
Proof.
  intros Hl Hw Hall. rewrite (save_tasks_eq _ _ _ _ Hl), Hw.
  set (doc := DocArray (ItemDict ∘ Task_dict <$> l)).
  set (s1 := set_cache None 0 (set_writes (S (writes s)) (set_file (Some doc) s))).
  exists s1. eexists. split; [reflexivity|].
  unfold load_tasks, bind at 1, time_time, bind at 1, get.
  change (cache_truthy (set_ticks (S (ticks s1)) s1)) with false.
  cbn [andb file set_ticks s1 set_cache set_writes set_file].
  unfold bind at 1, modify at 1. subst doc. cbn [iterate].
  unfold bind at 1, attempt. cbv beta iota.
  rewrite (load_items_Task_dict _ _ _ Hall).
  split; [reflexivity|]. unfold contents. cbn.
  rewrite lookup_app_r, Nat.sub_diag by done. cbn.
  by rewrite (lookup_app_l_Some _ _ _ _ Hl).
Qed.

Lemma save_tasks_load_tasks_witness :
  let s := snd (load_tasks example_env daily_state) in
  ∃ s1 s2,
    save_tasks 0 example_env s = (Ok true, s1)
    ∧ load_tasks example_env s1 = (Ok 1%nat, s2)
    ∧ contents s2 1 = [task_yesterday; task_daily].
Proof.
  destruct (save_tasks_load_tasks 0 [task_yesterday; task_daily] example_env
              (snd (load_tasks example_env daily_state)))
    as (s1 & s2 & Hsave & Hload & Hc & _).
  - vm_compute. reflexivity.
  - vm_compute. reflexivity.
  - constructor; [|constructor; [|constructor]].
    + split; [|split; [|split; [|split; [|split]]]].
      * vm_compute. repeat split; discriminate.
      * vm_compute. repeat split; discriminate.
      * intros f0 [=].
      * cbn. constructor.
      * intros offset [= <-]. reflexivity.
      * intros offset [= <-]. reflexivity.
    + split; [|split; [|split; [|split; [|split]]]].
      * vm_compute. repeat split; discriminate.
      * vm_compute. repeat split; discriminate.
      * intros f0 [= <-]. split; [reflexivity|]. split; [cbn; lia|]. intros n [=].
      * repeat constructor. cbn. lia.
      * intros offset [= <-]. reflexivity.
      * intros offset [= <-]. reflexivity.
  - exists s1, s2. split; [exact Hsave|]. split; [exact Hload|exact Hc].
Defined.

(** ** The handlers on a task that is absent, and on a file that cannot be written *)

Lemma find_index_None id l :
  find_index id l = None ↔ ∀ t, t ∈ l → task_id t ≠ id.
Proof.
  induction l as [|t l IH]; cbn [find_index].
  - split; [|done]. intros _ t Ht. by apply elem_of_nil in Ht.
  - destruct (String.eqb_spec (task_id t) id) as [Heq|Hne].
    + split; [done|]. intros H. exfalso. apply (H t); [left|done].
    + rewrite fmap_None, IH. split.
      * intros H t' [->|Ht']%elem_of_cons; [done|by apply H].
      * intros H t' Ht'. apply H. by right.
Qed.

(** X10.  A task that is not there.  When no task of the loaded
    collection has the identifier asked for, [update_task] and
    [complete_task] raise the HTTP error 404 and stop right after the
    load: nothing is changed in the collection and the file is not
    written. *)
Theorem task_not_found (id : string) (task_update : TaskUpdate)
    (request : CompleteTaskRequest) (e : Env) (s s1 : State) (r : nat) :
  load_tasks e s = (Ok r, s1) → (∀ t, t ∈ contents s1 r → task_id t ≠ id) →
  update_task id task_update e s = (Raise (HTTPException 404), s1)
  ∧ complete_task id request e s = (Raise (HTTPException 404), s1)
  ∧ file s1 = file s ∧ writes s1 = writes s.
Proof.
  intros Hload Hnone.
  destruct (load_tasks_frame _ _ _ _ Hload)
    as ((r' & l & [= <-] & Hl) & _ & Hfile & Hwrites & _).
  unfold contents in Hnone. rewrite Hl in Hnone. cbn in Hnone.
  apply find_index_None in Hnone.
  unfold update_task, complete_task, except_internal.
  rewrite !(bind_Ok _ _ _ _ _ _ Hload).
  rewrite !(bind_Ok _ _ _ _ _ _ (read_list_eq _ _ _ _ Hl)).
  by rewrite Hnone.
Qed.

Lemma task_not_found_witness :
  update_task "t9" (mkTaskUpdate (Some "x") None None None None) example_env example_state
  = (Raise (HTTPException 404), snd (load_tasks example_env example_state))
  ∧ complete_task "t9" (mkCompleteTaskRequest true) example_env example_state
    = (Raise (HTTPException 404), snd (load_tasks example_env example_state)).
Proof.
  destruct (task_not_found "t9" (mkTaskUpdate (Some "x") None None None None)
              (mkCompleteTaskRequest true) example_env example_state
              (snd (load_tasks example_env example_state)) 0)
    as (Hu & Hc & _).
  - vm_compute. reflexivity.
  - intros t Ht.
    assert (Hc : contents (snd (load_tasks example_env example_state)) 0
                 = example_tasks) by (vm_compute; reflexivity).
    rewrite Hc in Ht. unfold example_tasks in Ht.
    rewrite !elem_of_cons, elem_of_nil in Ht.
    destruct Ht as [->|[->|[->|[]]]]; discriminate.
  - split; [exact Hu|exact Hc].
Defined.

(** X11.  What [create_task] does.  When it returns a task, that task
    has been added at the end of the loaded collection and the whole
    collection written to the file, with the cache dropped; the task has
    a newly drawn identifier, is not completed, carries the validated
    description and category and the reminders it was given.  Every
    failure, a validation failure included, is reported as the HTTP
    error 500 and leaves the file as it was. *)
Theorem create_task_outcome (task_data : TaskCreate) (e : Env) (s s' : State)
    (res : result Task) :
  create_task task_data e s = (res, s') →
  match res with
  | Ok t =>
      ∃ r s1,
        load_tasks e s = (Ok r, s1)
        ∧ contents s' r = contents s1 r ++ [t]
        ∧ file s' = Some (DocArray (ItemDict ∘ Task_dict <$> contents s1 r ++ [t]))
        ∧ writes s' = S (writes s) ∧ cache_data s' = None
        ∧ task_id t = uuid4 e (uuids_drawn s1)
        ∧ completed t = false ∧ completed_at t = None
        ∧ validate_description (tc_description task_data) = Ok (description t)
        ∧ validate_category (tc_category task_data) = Ok (category t)
        ∧ reminders t = tc_reminders task_data
  | Raise x => x = HTTPException 500 ∧ file s' = file s ∧ writes s' = writes s
  end.
Proof.
  unfold create_task, except_all, bind at 1.
  destruct (load_tasks e s) as [res0 s1] eqn:Hload.
  destruct (load_tasks_frame _ _ _ _ Hload)
    as ((r & l & -> & Hl) & _ & Hfile & Hwrites & _).
  unfold bind at 1. rewrite Task_init_objects.
  destruct (validate_description _) as [descr|] eqn:Hd;
    [|by intros [= <- <-]].
  destruct (validate_category _) as [cat|] eqn:Hc;
    [|by intros [= <- <-]].
  cbn [rbind as_validation frequency due_date].
  set (s2 := set_ticks _ _).
  assert (Hl2 : heap s2 !! r = Some l) by done.
  assert (Hfinish : ∀ t,
    task_id t = uuid4 e (uuids_drawn s1) → completed t = false →
    completed_at t = None → description t = descr → category t = cat →
    reminders t = tc_reminders task_data →
    match (do! _ ← append r t; do! saved ← save_tasks r;
           if saved then ret t else raise (HTTPException 500)) e s2 with
    | (Raise _, s3) => (Raise (HTTPException 500), s3)
    | ok => ok
    end = (res, s') →
    match res with
    | Ok t =>
        contents s' r = contents s1 r ++ [t]
        ∧ file s' = Some (DocArray (ItemDict ∘ Task_dict <$> contents s1 r ++ [t]))
        ∧ writes s' = S (writes s) ∧ cache_data s' = None
        ∧ task_id t = uuid4 e (uuids_drawn s1)
        ∧ completed t = false ∧ completed_at t = None
        ∧ description t = descr ∧ category t = cat
        ∧ reminders t = tc_reminders task_data
    | Raise x => x = HTTPException 500 ∧ file s' = file s ∧ writes s' = writes s
    end).
  { intros t Hid Hco Hca Hde Hcat Hrem.
    rewrite (bind_Ok _ _ _ _ _ _ (append_eq _ _ _ _ _ Hl2)).
    unfold bind at 1. erewrite save_tasks_eq; [|cbn; by eapply heap_insert_lookup].
    destruct (writable _).
    - intros [= <- <-]. unfold contents. cbn.
      rewrite Hl. cbn. rewrite (heap_insert_lookup _ _ _ _ Hl). cbn.
      repeat split; try done; congruence.
    - intros [= <- <-]. by cbn. }
  assert (Hshape : ∀ t,
    task_id t = uuid4 e (uuids_drawn s1) → completed t = false →
    completed_at t = None → description t = descr → category t = cat →
    reminders t = tc_reminders task_data →
    match (do! _ ← append r t; do! saved ← save_tasks r;
           if saved then ret t else raise (HTTPException 500)) e s2 with
    | (Raise _, s3) => (Raise (HTTPException 500), s3)
    | ok => ok
    end = (res, s') →
    match res with
    | Ok t =>
        ∃ r0 s1',
          (@Ok nat r, s1) = (Ok r0, s1')
          ∧ contents s' r0 = contents s1' r0 ++ [t]
          ∧ file s' = Some (DocArray (ItemDict ∘ Task_dict <$> contents s1' r0 ++ [t]))
          ∧ writes s' = S (writes s) ∧ cache_data s' = None
          ∧ task_id t = uuid4 e (uuids_drawn s1')
          ∧ completed t = false ∧ completed_at t = None
          ∧ Ok descr = Ok (description t)
          ∧ Ok cat = Ok (category t)
          ∧ reminders t = tc_reminders task_data
    | Raise x => x = HTTPException 500 ∧ file s' = file s ∧ writes s' = writes s
    end).
  { intros t ? ? ? ? ? ? H. apply Hfinish in H; [|done..].
    destruct res as [t'|x]; [|done].
    destruct H as (?&?&?&?&?&?&?&<-&<-&?). exists r, s1. by repeat split. }
  unfold bind at 1.
  destruct (tc_frequency task_data) as [f|] eqn:Hf.
  - unfold bind at 1, lift at 1.
    destruct (calculate_next_due_date (tc_due_date task_data) f) as [next|] eqn:Hcalc.
    + unfold ret at 1. intros H. by apply Hshape in H.
    + by intros [= <- <-].
  - unfold ret at 1. intros H. by apply Hshape in H.
Qed.

Lemma create_task_outcome_witness :
  ∃ t r,
    fst (create_task (mkTaskCreate "buy milk" "home" example_thursday None [])
           example_env example_state) = Ok t
    ∧ contents (snd (create_task (mkTaskCreate "buy milk" "home" example_thursday
                                    None [])
                       example_env example_state)) r
      = contents (snd (load_tasks example_env example_state)) r ++ [t]
    ∧ completed t = false.
Proof.
  destruct (create_task (mkTaskCreate "buy milk" "home" example_thursday None [])
              example_env example_state) as [[t|x] s'] eqn:Hrun.
  - destruct (create_task_outcome _ _ _ _ _ Hrun)
      as (r & s1 & Hload & Hc & _ & _ & _ & _ & Hco & _).
    exists t, r. split; [reflexivity|]. cbn [snd]. rewrite Hload. cbn [snd].
    split; [exact Hc|exact Hco].
  - vm_compute in Hrun. discriminate Hrun.
Defined.

Lemma when_some_mutate_heap {A} (o : option A) (g : A → Task → Task) r i e s l t :
  heap s !! r = Some (<[i:=t]> l) → (i < length l)%nat →
  ∃ h, when_some o (λ v, mutate r i (g v)) e s = (Ok tt, set_heap h s)
       ∧ h !! r = Some (<[i:=from_option (λ v, g v t) t o]> l).
Proof.
  intros Hh Hi. destruct o as [v|]; cbn [when_some from_option].
  - eexists. split.
    + apply mutate_eq; [done|]. by apply list_lookup_insert_eq.
    + rewrite list_insert_insert_eq. by eapply heap_insert_lookup.
  - exists (heap s). split; [by destruct s|done].
Qed.

(** The branch of [update_task] for a frequency. *)
Lemma when_some_frequency o r i e s l t s2 :
  heap s !! r = Some (<[i:=t]> l) → (i < length l)%nat →
  when_some o (λ f, do! _ ← mutate r i (set_frequency (Some f));
                    do! task ← get_item r i;
                    do! next ← lift (calculate_next_due_date (due_date task) f);
                    mutate r i (set_next_due_date (Some next))) e s = (Ok tt, s2) →
  ∃ h t', s2 = set_heap h s ∧ h !! r = Some (<[i:=t']> l)
    ∧ match o with
      | Some f =>
          ∃ next, calculate_next_due_date (due_date t) f = Ok next
                  ∧ t' = set_next_due_date (Some next) (set_frequency (Some f) t)
      | None => t' = t
      end.
Proof.
  intros Hh Hi. destruct o as [f|]; cbn [when_some].
  - erewrite (bind_Ok (mutate _ _ _)).
    2:{ eapply mutate_eq; [done|]. by apply list_lookup_insert_eq. }
    rewrite list_insert_insert_eq.
    erewrite (bind_Ok (get_item _ _)).
    2:{ eapply get_item_eq.
        - cbn. by eapply heap_insert_lookup.
        - by apply list_lookup_insert_eq. }
    change (due_date (set_frequency (Some f) t)) with (due_date t).
    unfold bind at 1, lift at 1.
    destruct (calculate_next_due_date (due_date t) f) as [next|] eqn:Hcalc; [|done].
    erewrite mutate_eq.
    2:{ cbn. by eapply heap_insert_lookup. }
    2:{ by apply list_lookup_insert_eq. }
    intros [= <-]. cbn [heap set_heap]. rewrite !list_insert_insert_eq.
    eexists _, _. split; [reflexivity|]. split.
    + by eapply heap_insert_lookup.
    + by exists next.
  - intros [= <-]. exists (heap s), t. split; [by destruct s|done].
Qed.

(** X12.  What [update_task] changes.  A successful update assigns the
    fields present in the request as they are given, without
    sanitizing them, sets [updated_at] to the time of the update and
    writes the collection to the file with the task replaced in place.
    The identifier, the creation time and the completion state are
    never changed, and without a frequency in the request the frequency
    and the next due date stay as they were, whatever the new due
    date. *)
Theorem update_task_fields (id : string) (task_update : TaskUpdate) (e : Env)
    (s s1 s' : State) (r i : nat) (l : list Task) (t0 t : Task) :
  load_tasks e s = (Ok r, s1) → heap s1 !! r = Some l →
  find_index id l = Some i → l !! i = Some t0 →
  update_task id task_update e s = (Ok t, s') →
  task_id t = task_id t0 ∧ created_at t = created_at t0
  ∧ completed t = completed t0 ∧ completed_at t = completed_at t0
  ∧ description t = default (description t0) (tu_description task_update)
  ∧ category t = default (category t0) (tu_category task_update)
  ∧ due_date t = default (due_date t0) (tu_due_date task_update)
  ∧ reminders t = default (reminders t0) (tu_reminders task_update)
  ∧ (tu_frequency task_update = None →
       frequency t = frequency t0 ∧ next_due_date t = next_due_date t0)
  ∧ updated_at t = aware (datetime_of_epoch (clock e (ticks s1)))
  ∧ contents s' r = <[i:=t]> l
  ∧ file s' = Some (DocArray (ItemDict ∘ Task_dict <$> <[i:=t]> l))
  ∧ writes s' = S (writes s1).
Proof.
  intros Hload Hl Hfind Hi Hrun%except_internal_Ok. unfold update_task in Hrun.
  rewrite (bind_Ok _ _ _ _ _ _ Hload) in Hrun.
  rewrite (bind_Ok _ _ _ _ _ _ (read_list_eq _ _ _ _ Hl)) in Hrun.
  rewrite Hfind in Hrun.
  assert (Hlen : (i < length l)%nat) by by eapply lookup_lt_Some.
  rewrite <- (list_insert_id l i t0 Hi) in Hl.
  (* description *)
  destruct (when_some_mutate_heap (tu_description task_update) set_description
              r i e s1 l t0 Hl Hlen) as (h1 & Hstep & Hl1).
  rewrite (bind_Ok _ _ _ _ _ _ Hstep) in Hrun. clear Hstep.
  set (t1 := from_option _ t0 (tu_description task_update)) in *.
  set (sa := set_heap h1 s1) in *.
  assert (Hla : heap sa !! r = Some (<[i:=t1]> l)) by exact Hl1.
  assert (Hta : ticks sa = ticks s1) by done.
  assert (Hwa : writes sa = writes s1) by done.
  clearbody sa. clear Hl1 h1.
  (* category *)
  destruct (when_some_mutate_heap (tu_category task_update) set_category
              r i e sa l t1 Hla Hlen) as (h2 & Hstep & Hl2).
  rewrite (bind_Ok _ _ _ _ _ _ Hstep) in Hrun. clear Hstep.
  set (t2 := from_option _ t1 (tu_category task_update)) in *.
  set (sb := set_heap h2 sa) in *.
  assert (Hlb : heap sb !! r = Some (<[i:=t2]> l)) by exact Hl2.
  assert (Htb : ticks sb = ticks s1) by done.
  assert (Hwb : writes sb = writes s1) by done.
  clearbody sb. clear Hl2 h2 Hla Hta Hwa sa.
  (* due date *)
  destruct (when_some_mutate_heap (tu_due_date task_update) set_due_date
              r i e sb l t2 Hlb Hlen) as (h3 & Hstep & Hl3).
  rewrite (bind_Ok _ _ _ _ _ _ Hstep) in Hrun. clear Hstep.
  set (t3 := from_option _ t2 (tu_due_date task_update)) in *.
  set (sc := set_heap h3 sb) in *.
  assert (Hlc : heap sc !! r = Some (<[i:=t3]> l)) by exact Hl3.
  assert (Htc : ticks sc = ticks s1) by done.
  assert (Hwc : writes sc = writes s1) by done.
  clearbody sc. clear Hl3 h3 Hlb Htb Hwb sb.
  (* frequency *)
  unfold bind at 1 in Hrun.
  destruct (when_some (tu_frequency task_update) _ e sc) as [[[]|x] sd] eqn:Hfr;
    [|done].
  apply (when_some_frequency _ _ _ _ _ l t3) in Hfr as (h4 & t4 & -> & Hl4 & Ht4);
    [|done..].
  set (sd := set_heap h4 sc) in *.
  assert (Hld : heap sd !! r = Some (<[i:=t4]> l)) by exact Hl4.
  assert (Htd : ticks sd = ticks s1) by done.
  assert (Hwd : writes sd = writes s1) by done.
  clearbody sd. clear Hl4 h4 Hlc Htc Hwc sc.
  (* reminders *)
  destruct (when_some_mutate_heap (tu_reminders task_update) set_reminders
              r i e sd l t4 Hld Hlen) as (h5 & Hstep & Hl5).
  rewrite (bind_Ok _ _ _ _ _ _ Hstep) in Hrun. clear Hstep.
  set (t5 := from_option _ t4 (tu_reminders task_update)) in *.
  set (se := set_heap h5 sd) in *.
  assert (Hle : heap se !! r = Some (<[i:=t5]> l)) by exact Hl5.
  assert (Hte : ticks se = ticks s1) by done.
  assert (Hwe : writes se = writes s1) by done.
  clearbody se. clear Hl5 h5 Hld Htd Hwd sd.
  (* timestamp, save *)
  rewrite (bind_Ok _ _ _ _ _ _ (datetime_now_eq _ _)) in Hrun.
  erewrite (bind_Ok (mutate _ _ _)) in Hrun.
  2:{ eapply mutate_eq; [by cbn|]. by apply list_lookup_insert_eq. }
  rewrite list_insert_insert_eq in Hrun.
  unfold bind at 1 in Hrun. erewrite save_tasks_eq in Hrun.
  2:{ cbn. by eapply heap_insert_lookup. }
  destruct (writable _); [|done].
  erewrite get_item_eq in Hrun.
  2:{ cbn. by eapply heap_insert_lookup. }
  2:{ by apply list_lookup_insert_eq. }
  injection Hrun as <- <-. rewrite Hte.
  unfold contents. cbn [heap set_cache set_writes set_file set_heap set_ticks
                        file writes].
  rewrite (heap_insert_lookup _ _ _ _ Hle). cbn [from_option]. unfold Datatypes.id.
  rewrite Hwe.
  assert (Hshape :
    task_id t5 = task_id t0 ∧ created_at t5 = created_at t0
    ∧ completed t5 = completed t0 ∧ completed_at t5 = completed_at t0
    ∧ description t5 = default (description t0) (tu_description task_update)
    ∧ category t5 = default (category t0) (tu_category task_update)
    ∧ due_date t5 = default (due_date t0) (tu_due_date task_update)
    ∧ reminders t5 = default (reminders t0) (tu_reminders task_update)
    ∧ (tu_frequency task_update = None →
         frequency t5 = frequency t0 ∧ next_due_date t5 = next_due_date t0)).
  { subst t5 t3 t2 t1.
    destruct (tu_frequency task_update) as [f|].
    - destruct Ht4 as (next & _ & ->).
      destruct (tu_description task_update), (tu_category task_update),
        (tu_due_date task_update), (tu_reminders task_update); by cbn.
    - subst t4.
      destruct (tu_description task_update), (tu_category task_update),
        (tu_due_date task_update), (tu_reminders task_update); by cbn. }
  destruct Hshape as (?&?&?&?&?&?&?&?&Hnone).
  cbn [set_updated_at task_id created_at completed completed_at description
       category due_date reminders frequency next_due_date updated_at].
  repeat split; try done; by apply Hnone.
Qed.

Lemma update_task_fields_witness :
  ∃ t, fst (update_task "t5" (mkTaskUpdate (Some "<script>") None None None None)
              example_env daily_state) = Ok t
    ∧ description t = "<script>" ∧ task_id t = "t5"
    ∧ next_due_date t = next_due_date task_daily.
Proof.
  destruct (update_task "t5" (mkTaskUpdate (Some "<script>") None None None None)
              example_env daily_state) as [[t|x] s'] eqn:Hrun.
  - destruct (update_task_fields "t5"
                (mkTaskUpdate (Some "<script>") None None None None)
                example_env daily_state
                (snd (load_tasks example_env daily_state)) s' 0 1
                [task_yesterday; task_daily] task_daily t)
      as (Hid & _ & _ & _ & Hd & _ & _ & _ & Hf & _).
    + vm_compute. reflexivity.
    + vm_compute. reflexivity.
    + vm_compute. reflexivity.
    + reflexivity.
    + exact Hrun.
    + exists t. split; [reflexivity|]. split; [exact Hd|]. split; [exact Hid|].
      exact (proj2 (Hf eq_refl)).
  - vm_compute in Hrun. discriminate Hrun.
Defined.

(** ** Imports that add nothing *)

Lemma import_loop_all_duplicates r items :
  ∀ i ids sm e s,
    Forall (λ item, is_duplicate ids item = true) items →
    import_loop r i items ids sm e s
    = (Ok (mkImportSummary (success_count sm)
                           (skipped_count sm + Z.of_nat (length items))
                           (invalid_count sm) (errors sm)), s).
Proof.
  induction items as [|item rest IH]; intros i ids sm e s Hall.
  - cbn. rewrite Z.add_0_r. by destruct sm.
  - apply Forall_cons in Hall as [Hdup Hall].
    rewrite import_loop_cons, Hdup, (IH _ _ _ _ _ Hall). cbn.
    do 3 f_equal. lia.
Qed.

Lemma is_duplicate_Task_dict (l : list Task) t :
  t ∈ l → is_duplicate (list_to_set (task_id <$> l)) (ItemDict (Task_dict t)) = true.
Proof.
  intros Ht. cbn. apply bool_decide_eq_true. apply elem_of_list_to_set.
  by apply list_elem_of_fmap_2.
Qed.

(** X13.  An import that adds nothing.  When every entry of an upload
    carries the identifier of a task already in the collection, all
    entries are counted as skipped, no error is recorded and the import
    stops with the state as the load left it: the file is not written.
    This is the case of an upload made of the records of the stored
    collection itself, and of the empty array. *)
Theorem import_tasks_all_duplicates (items : list Item) (n : Z) (e : Env)
    (s s1 : State) (r : nat) :
  n ≤ MAX_UPLOAD_SIZE → load_tasks e s = (Ok r, s1) →
  (Forall (λ item, is_duplicate (list_to_set (task_id <$> contents s1 r)) item = true)
          items →
   import_tasks (mkUpload n (Some (JsonArray items))) e s
   = (Ok (mkImportSummary 0 (Z.of_nat (length items)) 0 []), s1))
  ∧ import_tasks (mkUpload n (Some (JsonArray (ItemDict ∘ Task_dict <$> contents s1 r))))
                 e s
    = (Ok (mkImportSummary 0 (Z.of_nat (length (contents s1 r))) 0 []), s1)
  ∧ file s1 = file s ∧ writes s1 = writes s.
Proof.
  intros Hn Hload.
  destruct (load_tasks_frame _ _ _ _ Hload)
    as ((r' & l & [= <-] & Hl) & _ & Hfile & Hwrites & _).
  assert (Hc : contents s1 r = l) by (unfold contents; by rewrite Hl).
  rewrite Hc.
  assert (Hdup : ∀ items,
    Forall (λ item, is_duplicate (list_to_set (task_id <$> l)) item = true) items →
    import_tasks (mkUpload n (Some (JsonArray items))) e s
    = (Ok (mkImportSummary 0 (Z.of_nat (length items)) 0 []), s1)).
  { intros items' Hall. unfold import_tasks, except_internal.
    cbn [content_length content].
    destruct (Z.ltb_spec MAX_UPLOAD_SIZE n); [lia|].
    rewrite (bind_Ok _ _ _ _ _ _ Hload).
    rewrite (bind_Ok _ _ _ _ _ _ (read_list_eq _ _ _ _ Hl)).
    rewrite (bind_Ok _ _ _ _ _ _ (import_loop_all_duplicates _ _ _ _ _ _ _ Hall)).
    reflexivity. }
  split; [apply Hdup|]. split; [|done].
  rewrite <- (length_fmap (ItemDict ∘ Task_dict) l). apply Hdup.
  apply Forall_fmap, Forall_forall. intros t Ht. by apply is_duplicate_Task_dict.
Qed.

Lemma import_tasks_all_duplicates_witness :
  import_tasks (mkUpload 64 (Some (JsonArray [upload_record "t1"; upload_record "t3"])))
               example_env example_state
  = (Ok (mkImportSummary 0 2 0 []), snd (load_tasks example_env example_state)).
Proof.
  refine (proj1 (import_tasks_all_duplicates
                   [upload_record "t1"; upload_record "t3"] 64 example_env
                   example_state (snd (load_tasks example_env example_state)) 0 _ _) _).
  - vm_compute. discriminate.
  - vm_compute. reflexivity.
  - repeat constructor.
Defined.



(** ** Files from which nothing is loaded *)

Lemma load_items_non_object data e s :
  ItemOther ∈ data → ∃ s', load_items data e s = (Raise AttributeError, s').
Proof.
  revert s. induction data as [|item data IH]; intros s Hin.
  - by apply elem_of_nil in Hin.
  - cbn [load_items]. unfold bind at 1, attempt.
    destruct (Task_of_item item e s) as [[task|x] s1] eqn:Htask.
    + destruct item as [d|]; [|done].
      apply elem_of_cons in Hin as [?|Hin]; [done|].
      destruct (IH s1 Hin) as [s' Hs']. unfold bind. rewrite Hs'. by exists s'.
    + destruct item as [d|]; [|by eexists].
      apply elem_of_cons in Hin as [?|Hin]; [done|]. by apply IH.
Qed.

(** X15.  Files from which nothing is loaded.  Without a cached
    collection to serve, a load returns a new empty list and leaves the
    cache as it was when the file is missing, when its content cannot
    be iterated (it is not JSON, or a number, a boolean or null), and
    also when a single element iterated over is not an object, as in an
    array with a number in it or in a JSON object with a key: the
    warning for that element fails, which discards the records read
    before it.  The file is counted as read unless it is missing. *)
Theorem load_tasks_unusable_file (e : Env) (s : State) :
  cache_truthy s && (clock e (ticks s) <? cache_expires_at s) = false →
  file s = None
  ∨ (∃ doc, file s = Some doc ∧ iterate doc = None)
  ∨ (∃ doc data, file s = Some doc ∧ iterate doc = Some data ∧ ItemOther ∈ data) →
  ∃ s1,
    load_tasks e s = (Ok (length (heap s)), s1)
    ∧ contents s1 (length (heap s)) = []
    ∧ cache_data s1 = cache_data s ∧ cache_expires_at s1 = cache_expires_at s
    ∧ file s1 = file s ∧ writes s1 = writes s
    ∧ reads s1 = match file s with Some _ => S (reads s) | None => reads s end.
Proof.
  intros Hmiss Hfile.
  unfold load_tasks, bind at 1, time_time, bind at 1, get.
  change (cache_truthy (set_ticks (S (ticks s)) s)) with (cache_truthy s).
  cbn [ticks set_ticks cache_expires_at file]. rewrite Hmiss.
  destruct Hfile as [Hf0 | [(doc & Hf0 & Hit) | (doc & data & Hf0 & Hit & Hin)]];
    rewrite Hf0.
  - eexists. split; [reflexivity|]. unfold contents. cbn.
    rewrite lookup_app_r, Nat.sub_diag by done. by repeat split.
  - unfold bind at 1, modify at 1. rewrite Hit.
    eexists. split; [reflexivity|]. unfold contents. cbn.
    rewrite lookup_app_r, Nat.sub_diag by done. by repeat split.
  - unfold bind at 1, modify at 1. rewrite Hit. unfold bind at 1, attempt.
    destruct (load_items_non_object data e
                (set_reads (S (reads (set_ticks (S (ticks s)) s)))
                           (set_ticks (S (ticks s)) s)) Hin) as [s' Hs'].
    rewrite Hs'.
    apply counters_only_load_items in Hs'
      as ((Hf & Hw & Hcd & Hce & Hh & Hrd & Hwr) & _). cbn in *.
    eexists. split; [by rewrite Hh|]. unfold contents. cbn.
    rewrite <- Hh, lookup_app_r, Nat.sub_diag by done.
    rewrite <- Hf, <- Hcd, <- Hce, <- Hrd, <- Hwr. by repeat split.
Qed.

Lemma load_tasks_unusable_file_witness :
  ∃ s1,
    load_tasks example_env
      (mkState 0 0 (Some (DocArray [ItemDict (Task_dict task_today); ItemOther]))
               true None 0 [] 0 0)
    = (Ok 0%nat, s1)
    ∧ contents s1 0 = [] ∧ cache_data s1 = None.
Proof.
  destruct (load_tasks_unusable_file example_env
              (mkState 0 0 (Some (DocArray [ItemDict (Task_dict task_today); ItemOther]))
                       true None 0 [] 0 0))
    as (s1 & Hload & Hc & Hcd & _).
  - vm_compute. reflexivity.
  - right. right. eexists _, _. split; [reflexivity|]. split; [reflexivity|].
    right. left.
  - exists s1. split; [exact Hload|]. split; [exact Hc|exact Hcd].
Defined.

(** ** Witnesses *)

Lemma create_task_next_due_date_witness :
  ∃ t, fst (create_task (mkTaskCreate "take the pills" "health" example_thursday
                                      (Some daily) [])
              example_env example_state) = Ok t
    ∧ next_due_date t = Some (mkdatetime (mkdate 2024 1 5) 32400000000 0).
Proof.
  destruct (create_task (mkTaskCreate "take the pills" "health" example_thursday
                                      (Some daily) [])
              example_env example_state) as [[t|x] s'] eqn:Hrun.
  - destruct (create_task_next_due_date _ _ _ _ _ Hrun) as (Hdue & Hfreq & Hnext).
    exists t. split; [reflexivity|].
    rewrite Hfreq in Hnext. cbn [tc_frequency] in Hnext.
    destruct Hnext as (next & Hcalc & ->).
    rewrite Hdue in Hcalc. cbn [tc_due_date] in Hcalc.
    assert (Hc : calculate_next_due_date example_thursday daily
                 = Ok (mkdatetime (mkdate 2024 1 5) 32400000000 0))
      by (vm_compute; reflexivity).
    rewrite Hc in Hcalc. by injection Hcalc as <-.
  - vm_compute in Hrun. discriminate Hrun.
Defined.

Lemma update_task_frequency_witness :
  ∃ t, fst (update_task "t2" (mkTaskUpdate None None None (Some daily) None)
              example_env daily_state) = Ok t
    ∧ frequency t = Some daily
    ∧ ∃ next, calculate_next_due_date (due_date t) daily = Ok next
              ∧ next_due_date t = Some next.
Proof.
  destruct (update_task "t2" (mkTaskUpdate None None None (Some daily) None)
              example_env daily_state) as [[t|x] s'] eqn:Hrun.
  - exists t. split; [reflexivity|].
    exact (update_task_frequency "t2" (mkTaskUpdate None None None (Some daily) None)
             example_env daily_state t s' daily Hrun eq_refl).
  - vm_compute in Hrun. discriminate Hrun.
Defined.

Lemma complete_task_succeeds_witness :
  ∃ t' s', complete_task "t5" (mkCompleteTaskRequest true) example_env daily_state
           = (Ok t', s').
Proof.
  apply (complete_task_succeeds "t5" example_env daily_state 0
           (snd (load_tasks example_env daily_state))
           [task_yesterday; task_daily] 1 task_daily daily
           (mkdatetime (mkdate 2024 1 5) 28800000000 0)
           (mkdatetime (mkdate 2024 1 6) 28800000000 0)).
  - vm_compute. reflexivity.
  - vm_compute. reflexivity.
  - vm_compute. reflexivity.
  - reflexivity.
  - reflexivity.
  - vm_compute. reflexivity.
  - vm_compute. split; discriminate.
  - vm_compute. discriminate.
  - repeat constructor. cbn. lia.
  - vm_compute. reflexivity.
  - vm_compute. reflexivity.
Defined.

(** ** Announcements and export *)

Lemma insert_by_due_date_Permutation t l : insert_by_due_date t l ≡ₚ t :: l.
Proof.
  induction l as [|u l IH]; [done|]. cbn.
  destruct (datetime_ltb (due_date u) (due_date t)); [|done].
  rewrite IH. apply Permutation_swap.
Qed.

Lemma sort_by_due_date_Permutation l : sort_by_due_date l ≡ₚ l.
Proof.
  induction l as [|t l IH]; [done|]. cbn.
  by rewrite insert_by_due_date_Permutation, IH.
Qed.

Lemma insert_by_due_date_sorted t l :
  StronglySorted due_le l → StronglySorted due_le (insert_by_due_date t l).
Proof.
  induction 1 as [|u l Hl IH Hu]; cbn; [repeat constructor|].
  unfold datetime_ltb. destruct (Z.ltb_spec (instant (due_date u)) (instant (due_date t))).
  - constructor; [done|].
    rewrite insert_by_due_date_Permutation. constructor; [unfold due_le; lia|done].
  - constructor; [by constructor|]. constructor; [done|].
    eapply Forall_impl; [exact Hu|]. unfold due_le. intros; lia.
Qed.

Lemma sort_by_due_date_sorted l : StronglySorted due_le (sort_by_due_date l).
Proof.
  induction l as [|t l IH]; cbn; [constructor|]. by apply insert_by_due_date_sorted.
Qed.

Lemma elem_of_sort_filter (P : Task → bool) (l : list Task) t :
  t ∈ sort_by_due_date (List.filter P l) ↔ t ∈ l ∧ P t = true.
Proof.
  rewrite sort_by_due_date_Permutation, list_elem_of_In, filter_In.
  by rewrite <- list_elem_of_In.
Qed.

(** Filters that exclude one another select each element at most once. *)
Lemma filters_submseteq {A} (P1 P2 P3 : A → bool) (l : list A) :
  (∀ x, P1 x = true → P2 x = false ∧ P3 x = false) →
  (∀ x, P2 x = true → P3 x = false) →
  List.filter P1 l ++ List.filter P2 l ++ List.filter P3 l ⊆+ l.
Proof.
  intros H1 H2. induction l as [|x l IH]; [done|]. cbn.
  destruct (P1 x) eqn:E1.
  - destruct (H1 x E1) as [-> ->]. cbn. by constructor.
  - destruct (P2 x) eqn:E2.
    + rewrite (H2 x E2). cbn. rewrite <- Permutation_middle. by constructor.
    + destruct (P3 x) eqn:E3.
      * rewrite app_assoc, <- Permutation_middle, <- app_assoc. by constructor.
      * by apply submseteq_cons.
Qed.

Lemma date_lt_ymd2ord a b :
  md_valid a → md_valid b → date_lt a b → ymd2ord a < ymd2ord b.
Proof.
  intros Ha Hb [Hy | (Hy & [Hm | (Hm & Hd)])].
  - apply ymd2ord_month_lt; [done..|]. destruct Ha as [? _], Hb as [? _]. lia.
  - apply ymd2ord_month_lt; [done..|]. lia.
  - unfold ymd2ord. rewrite Hy, Hm. lia.
Qed.

Lemma date_lt_irrefl a : ¬ date_lt a a.
Proof. unfold date_lt. lia. Qed.

Lemma date_add_days_Ok d n d' :
  date_add_days d n = Ok d' → ymd2ord d' = ymd2ord d + n ∧ md_valid d'.
Proof.
  unfold date_add_days. destruct (_ && _); [|done]. intros [= <-].
  apply ymd2ord_ord2ymd.
Qed.

Lemma datetime_of_epoch_md_valid us : md_valid (dt_date (datetime_of_epoch us)).
Proof. unfold datetime_of_epoch. cbn. apply ymd2ord_ord2ymd. Qed.

(** The texts depend on the three lists only. *)
Lemma generate_announcement_text_lists today tomorrow overdue text text' :
  generate_announcement_text (mkAnnouncementSummary today tomorrow overdue text)
  = generate_announcement_text (mkAnnouncementSummary today tomorrow overdue text').
Proof. reflexivity. Qed.

(** What a successful [get_announcement_summary] returns. *)
Lemma get_announcement_summary_inv e s s1 s' r a :
  load_tasks e s = (Ok r, s1) →
  get_announcement_summary e s = (Ok a, s') →
  let l := contents s1 r in
  let now := datetime_of_epoch (clock e (ticks s1)) in
  ∃ tomorrow,
    date_add_days (dt_date now) 1 = Ok tomorrow
    ∧ today_uncompleted a
      = sort_by_due_date
          (List.filter (λ t, negb (completed t)
                             && date_eqb (dt_date (due_date t)) (dt_date now)) l)
    ∧ tomorrow_tasks a
      = sort_by_due_date
          (List.filter (λ t, negb (completed t)
                             && date_eqb (dt_date (due_date t)) tomorrow) l)
    ∧ today_overdue a
      = sort_by_due_date
          (List.filter (λ t, negb (completed t) && datetime_ltb (due_date t) now
                             && date_ltb (dt_date (due_date t)) (dt_date now)) l)
    ∧ announcement_text a = generate_announcement_text a
    ∧ s' = set_ticks (S (ticks s1)) s1.
Proof.
  intros Hload Hrun%except_all_Ok l now.
  destruct (load_tasks_frame _ _ _ _ Hload) as ((r' & l0 & [= <-] & Hl) & _).
  assert (l = l0) as Hll by (subst l; unfold contents; by rewrite Hl).
  clearbody l. subst l0.
  unfold get_announcement_summary in Hrun.
  rewrite (bind_Ok _ _ _ _ _ _ Hload) in Hrun.
  rewrite (bind_Ok _ _ _ _ _ _ (read_list_eq _ _ _ _ Hl)) in Hrun.
  rewrite (bind_Ok _ _ _ _ _ _ (datetime_now_eq _ _)) in Hrun.
  fold now in Hrun. clearbody now.
  destruct (date_add_days (dt_date now) 1) as [tomorrow|x] eqn:Htom.
  2:{ rewrite (bind_Raise _ _ _ _ x (set_ticks (S (ticks s1)) s1)) in Hrun;
        [done|reflexivity]. }
  assert (Hlift : lift (Ok tomorrow) e (set_ticks (S (ticks s1)) s1)
                  = (Ok tomorrow, set_ticks (S (ticks s1)) s1)) by reflexivity.
  rewrite (bind_Ok _ _ _ _ _ _ Hlift) in Hrun.
  exists tomorrow. split; [done|].
  injection Hrun as <- <-.
  split; [reflexivity|]. split; [reflexivity|]. split; [reflexivity|].
  split; [apply generate_announcement_text_lists|reflexivity].
Qed.

(** X19.  The lists of the announcement summary, with [now] the reading
    of the clock after the load.  [today_uncompleted] holds the loaded
    tasks that are not completed and due on the date of [now],
    [tomorrow_tasks] those due on the day after, and [today_overdue]
    those due before [now] on an earlier date.  Each list is sorted by
    due date, no stored task is listed more than once over the three
    lists, and the loaded collection and the file are left as they
    were. *)
Theorem announcement_summary_lists (e : Env) (s s1 s' : State) (r : nat)
    (a : AnnouncementSummary) :
  load_tasks e s = (Ok r, s1) →
  get_announcement_summary e s = (Ok a, s') →
  let l := contents s1 r in
  let now := datetime_of_epoch (clock e (ticks s1)) in
  (∀ t, t ∈ today_uncompleted a ↔
        t ∈ l ∧ completed t = false ∧ dt_date (due_date t) = dt_date now)
  ∧ (∀ t, t ∈ tomorrow_tasks a ↔
        t ∈ l ∧ completed t = false
        ∧ date_add_days (dt_date now) 1 = Ok (dt_date (due_date t)))
  ∧ (∀ t, t ∈ today_overdue a ↔
        t ∈ l ∧ completed t = false ∧ instant (due_date t) < instant now
        ∧ date_lt (dt_date (due_date t)) (dt_date now))
  ∧ StronglySorted due_le (today_uncompleted a)
  ∧ StronglySorted due_le (tomorrow_tasks a)
  ∧ StronglySorted due_le (today_overdue a)
  ∧ today_uncompleted a ++ tomorrow_tasks a ++ today_overdue a ⊆+ l
  ∧ announcement_text a = generate_announcement_text a
  ∧ contents s' r = l ∧ file s' = file s ∧ writes s' = writes s.
Proof.
  intros Hload Hrun l now.
  destruct (load_tasks_frame _ _ _ _ Hload) as (_ & _ & Hfile & Hwrites & _).
  destruct (get_announcement_summary_inv _ _ _ _ _ _ Hload Hrun)
    as (tomorrow & Htom & Ha1 & Ha2 & Ha3 & Htext & ->).
  cbv zeta in Htom, Ha1, Ha2, Ha3. fold l now in Htom, Ha1, Ha2, Ha3.
  pose proof (datetime_of_epoch_md_valid (clock e (ticks s1))) as Hvn. fold now in Hvn.
  assert (Hc : contents (set_ticks (S (ticks s1)) s1) r = l) by done.
  clearbody l now.
  pose proof (date_add_days_Ok _ _ _ Htom) as [Hord Hvt].
  rewrite Ha1, Ha2, Ha3. clear Ha1 Ha2 Ha3.
  split; [|split; [|split]].
  - intros t. rewrite elem_of_sort_filter, andb_true_iff, negb_true_iff, date_eqb_eq.
    tauto.
  - intros t. rewrite elem_of_sort_filter, andb_true_iff, negb_true_iff, date_eqb_eq.
    rewrite Htom.
    split; [intros (? & ? & ->); done|intros (? & ? & [= ->]); done].
  - intros t.
    rewrite elem_of_sort_filter, !andb_true_iff, negb_true_iff, date_ltb_lt.
    unfold datetime_ltb. rewrite Z.ltb_lt. tauto.
  - split; [apply sort_by_due_date_sorted|].
    split; [apply sort_by_due_date_sorted|].
    split; [apply sort_by_due_date_sorted|].
    split; [|by repeat split].
    rewrite !sort_by_due_date_Permutation. apply filters_submseteq.
    + intros t [_ ->%date_eqb_eq]%andb_true_iff. split.
      * apply andb_false_iff. right.
        destruct (date_eqb (dt_date now) tomorrow) eqn:E; [|done].
        apply date_eqb_eq in E. rewrite <- E in Hord. lia.
      * apply andb_false_iff. right.
        destruct (date_ltb (dt_date now) (dt_date now)) eqn:E; [|done].
        apply date_ltb_lt in E. by apply date_lt_irrefl in E.
    + intros t [_ ->%date_eqb_eq]%andb_true_iff.
      apply andb_false_iff. right.
      destruct (date_ltb tomorrow (dt_date now)) eqn:E; [|done].
      apply date_ltb_lt, date_lt_ymd2ord in E; [lia|done..].
Qed.

Lemma announcement_summary_lists_witness :
  ∃ a, fst (get_announcement_summary example_env example_state) = Ok a
    ∧ task_today ∈ today_uncompleted a
    ∧ StronglySorted due_le (today_overdue a).
Proof.
  destruct (get_announcement_summary example_env example_state)
    as [[a|x] s'] eqn:Hrun.
  - destruct (announcement_summary_lists example_env example_state
                (snd (load_tasks example_env example_state)) s' 0 a)
      as (Htoday & _ & _ & _ & _ & Hsorted & _).
    + vm_compute. reflexivity.
    + exact Hrun.
    + exists a. split; [reflexivity|]. split; [|exact Hsorted].
      apply Htoday.
      assert (Hc : contents (snd (load_tasks example_env example_state)) 0
                   = example_tasks) by (vm_compute; reflexivity).
      rewrite Hc. split; [left|]. split; vm_compute; reflexivity.
  - vm_compute in Hrun. discriminate Hrun.
Defined.

(** The announcement texts. *)
Lemma append_nil_l s : "" +:+ s = s.
Proof. reflexivity. Qed.

Lemma join_cons sep p parts : ∃ rest, join sep (p :: parts) = p +:+ rest.
Proof.
  destruct parts as [|q parts]; cbn [join].
  - exists "". induction p as [|c p IH]; [done|]. rewrite append_String. by f_equal.
  - by eexists.
Qed.

(** A positive number is written with a digit first, not with [n]. *)
Lemma str_of_int_head n :
  0 < n → ∃ c rest, str_of_int n = String c rest ∧ c ≠ "n"%char.
Proof.
  intros Hn. destruct n as [|p|p]; [lia| |lia].
  unfold str_of_int. cbn [Z.to_int NilZero.string_of_int].
  unfold NilZero.string_of_uint.
  destruct (Pos.to_uint p); cbn [NilEmpty.string_of_uint]; by eexists _, _.
Qed.

Lemma sentence_not_fallback count middle parts fallback_tail :
  0 < count →
  join " " (("You have " +:+ str_of_int count +:+ middle) :: parts)
  ≠ "You have n" +:+ fallback_tail.
Proof.
  intros Hc. destruct (join_cons " " ("You have " +:+ str_of_int count +:+ middle) parts)
    as [rest ->].
  destruct (str_of_int_head count Hc) as (c & tl & -> & Hne).
  rewrite !append_String, !append_nil_l. intros [= ?]. done.
Qed.

(** X20.  The announcement texts.  [generate_announcement_text] yields
    exactly a [morning] and an [evening] text, neither of them empty.
    The morning text is the sentence for a day without tasks exactly
    when no task is due today and none is overdue, and the evening text
    the sentence for a free tomorrow exactly when no task is due
    tomorrow. *)
Theorem announcement_text_spec (summary : AnnouncementSummary) :
  ∃ morning evening,
    generate_announcement_text summary
    = {[ "morning" := morning; "evening" := evening ]}
    ∧ morning ≠ "" ∧ evening ≠ ""
    ∧ (morning = "You have no tasks due today. Great job!"
       ↔ today_uncompleted summary = [] ∧ today_overdue summary = [])
    ∧ (evening = "You have no tasks due tomorrow. Enjoy your evening!"
       ↔ tomorrow_tasks summary = []).
Proof.
  unfold generate_announcement_text. eexists _, _. split; [reflexivity|].
  assert (Hne : ∀ count middle parts,
            join " " (("You have " +:+ str_of_int count +:+ middle) :: parts) ≠ "").
  { intros count middle parts. destruct (join_cons " " ("You have " +:+ str_of_int count +:+ middle) parts)
      as [rest ->]. by rewrite !append_String. }
  assert (Hpos : ∀ (x : Task) xs, 0 < Z.of_nat (length (x :: xs))) by (intros; cbn; lia).
  split; [|split; [|split]].
  - destruct (today_overdue summary) as [|o os]; cbn [truthy_seq app negb andb].
    + destruct (today_uncompleted summary) as [|u us]; cbn [truthy_seq app negb andb];
        [done|].
      destruct (3 <? _); cbn [app]; apply Hne.
    + destruct (today_uncompleted summary) as [|u us]; cbn [truthy_seq app negb andb];
        [apply Hne|].
      destruct (3 <? _); cbn [app]; apply Hne.
  - destruct (tomorrow_tasks summary) as [|w ws]; cbn [truthy_seq app]; [done|].
    destruct (3 <? _); cbn [app]; apply Hne.
  - destruct (today_overdue summary) as [|o os]; cbn [truthy_seq app negb andb].
    + destruct (today_uncompleted summary) as [|u us]; cbn [truthy_seq app negb andb];
        [done|].
      split; [|by intros [? _]]. intros H. exfalso. revert H.
      destruct (3 <? _); cbn [app];
        apply (sentence_not_fallback _ _ _ "o tasks due today. Great job!"), Hpos.
    + split; [|by intros [_ ?]]. intros H. exfalso. revert H.
      destruct (today_uncompleted summary) as [|u us]; cbn [truthy_seq app negb andb];
        [|destruct (3 <? _); cbn [app]];
        apply (sentence_not_fallback _ _ _ "o tasks due today. Great job!"), Hpos.
  - destruct (tomorrow_tasks summary) as [|w ws]; cbn [truthy_seq app]; [done|].
    split; [|done]. intros H. exfalso. revert H.
    destruct (3 <? _); cbn [app];
      apply (sentence_not_fallback _ _ _ "o tasks due tomorrow. Enjoy your evening!"),
            Hpos.
Qed.

(** X21.  [export_tasks] never fails and writes nothing: it streams the
    records of the loaded collection, in order, in the form in which
    [save_tasks] would write them to the file, and reads the clock once
    to name the attachment. *)
Theorem export_tasks_spec (e : Env) (s : State) :
  ∃ r s1 x,
    load_tasks e s = (Ok r, s1)
    ∧ export_tasks e s = (Ok x, set_ticks (S (ticks s1)) s1)
    ∧ export_data x = Task_dict <$> contents s1 r
    ∧ export_time x = clock e (ticks s1)
    ∧ file s1 = file s ∧ writes s1 = writes s
    ∧ (writable s1 = true →
       file (snd (save_tasks r e s1))
       = Some (DocArray (ItemDict <$> export_data x))).
Proof.
  destruct (load_tasks e s) as [res s1] eqn:Hload.
  destruct (load_tasks_frame _ _ _ _ Hload)
    as ((r & l & -> & Hl) & _ & Hfile & Hwrites & _).
  exists r, s1. eexists. split; [reflexivity|].
  unfold export_tasks, except_all.
  rewrite (bind_Ok _ _ _ _ _ _ Hload).
  rewrite (bind_Ok _ _ _ _ _ _ (read_list_eq _ _ _ _ Hl)).
  rewrite (bind_Ok _ _ _ _ (clock e (ticks s1)) (set_ticks (S (ticks s1)) s1))
    by reflexivity.
  split; [reflexivity|]. cbn [export_data export_time].
  unfold contents. rewrite Hl. cbn [from_option]. unfold Datatypes.id.
  repeat split; try done.
  intros Hw. rewrite (save_tasks_eq _ _ _ _ Hl), Hw. cbn.
  by rewrite list_fmap_compose.
Qed.
